(** * awl: the TUN data plane (vpn/vpn.go) and the overlay host (application.go)

    A shallow embedding of the packet buffer, its parser, the checksum
    engine, the TUN reader and writer, the packet pool, the event reader of
    the TUN device, the stream counters and statistics and the bootstrap
    sequence, followed by the properties the specification states about
    them and by further properties that the code itself shows.

    Conventions.
    - A byte is a [Z] in [0, 256); a [uint16]/[uint32]/[int64] is a [Z] whose
      wrap-around is written out ([u16], [u32], [i64]).
    - A Go slice is an offset, a length and a capacity into the packet's
      backing array [Buffer]; every slice of a packet aliases that array, so
      a store through one view is seen through all of them.
    - A run-time panic (index or slice bounds out of range) is [None]. *)

From Stdlib Require Import ZArith List Lia Bool String.
From stdpp Require Import base option list numbers strings gmap.
From Equations Require Import Equations.

(** ** Go values shared by both packages *)

(** An [error] value: the two sentinels the code compares against
    ([io.EOF], [context.Canceled]), an opaque error of a collaborator, and
    [fmt.Errorf("<prefix>: %v", err)]. *)
Inductive error : Type :=
| io_EOF
| context_Canceled
| ErrOther (msg : string)
| Errorf (prefix : string) (cause : error).

#[global] Instance error_eq_dec : EqDecision error.
Proof. solve_decision. Defined.

Module Vpn.

(** ** Constants *)

Definition interfaceMTU : nat := 3500.
Definition maxContentSize : nat := interfaceMTU * 2.
Definition outboundChCap : nat := 50.
Definition tunPacketOffset : nat := 4.
Definition ipv4offsetChecksum : nat := 10.

(** Modelled from the spec: the constants of the imported packages
    [ipv4], [ipv6], [net] and [device], which are not part of the
    repository; section 4.1 gives their values (version 4, header of 20
    bytes, addresses at 12 and 16; version 6, header of 40 bytes, addresses
    at 8 and 24). *)
Definition ipv4_Version : Z := 4.
Definition ipv4_HeaderLen : nat := 20.
Definition ipv6_Version : Z := 6.
Definition ipv6_HeaderLen : nat := 40.
Definition net_IPv4len : nat := 4.
Definition net_IPv6len : nat := 16.
Definition IPv4offsetSrc : nat := 12.
Definition IPv4offsetDst : nat := IPv4offsetSrc + net_IPv4len.
Definition IPv6offsetSrc : nat := 8.
Definition IPv6offsetDst : nat := IPv6offsetSrc + net_IPv6len.

Definition IPProtocolTCP : Z := 6.
Definition IPProtocolUDP : Z := 17.

(** ** Machine integers *)

Definition u8 (z : Z) : Z := (z mod 2 ^ 8)%Z.
Definition u16 (z : Z) : Z := (z mod 2 ^ 16)%Z.
Definition u32 (z : Z) : Z := (z mod 2 ^ 32)%Z.
Definition add32 (a b : Z) : Z := u32 (a + b).
Definition shl32 (a : Z) (n : Z) : Z := u32 (Z.shiftl a n).

Definition is_byte (b : Z) : Prop := (0 ≤ b < 256)%Z.

(** ** Slices into the backing array *)

Inductive slice : Type :=
| Nil
| Slice (off len cap : nat).

Definition off (s : slice) : nat :=
  match s with Nil => 0 | Slice o _ _ => o end.
Definition len (s : slice) : nat :=
  match s with Nil => 0 | Slice _ l _ => l end.
Definition cap (s : slice) : nat :=
  match s with Nil => 0 | Slice _ _ c => c end.

(** [s[i]]: panics unless [i < len(s)]. *)
Definition index (buf : list Z) (s : slice) (i : nat) : option Z :=
  if decide (i < len s) then buf !! (off s + i) else None.

(** [s[lo:hi]]: panics unless [lo <= hi <= cap(s)]. *)
Definition slice3 (s : slice) (lo hi : nat) : option slice :=
  if decide (lo ≤ hi ∧ hi ≤ cap s) then
    Some (match s with
          | Nil => Nil
          | Slice o _ c => Slice (o + lo) (hi - lo) (c - lo)
          end)
  else None.

(** [s[lo:]] takes [hi = len(s)]; [s[:hi]] takes [lo = 0]. *)
Definition sliceFrom (s : slice) (lo : nat) : option slice := slice3 s lo (len s).
Definition sliceTo (s : slice) (hi : nat) : option slice := slice3 s 0 hi.

(** [a[lo:hi]] on the array [Buffer] itself: bounded by the array length. *)
Definition arraySlice (lo hi : nat) : option slice :=
  if decide (lo ≤ hi ∧ hi ≤ maxContentSize) then
    Some (Slice lo (hi - lo) (maxContentSize - lo))
  else None.

(** The bytes a slice denotes. *)
Definition bytesOf (buf : list Z) (s : slice) : list Z :=
  take (len s) (drop (off s) buf).

(** [copy(dst, src)] copies [min(len(dst), len(src))] bytes. *)
Definition copy (buf : list Z) (dst : slice) (src : list Z) : list Z :=
  list_inserts (off dst) (take (len dst) src) buf.

(** [binary.BigEndian.PutUint16(b, v)]: bounds check on [b[1]] first. *)
Definition PutUint16 (buf : list Z) (b : slice) (v : Z) : option (list Z) :=
  if decide (2 ≤ len b) then
    Some (<[off b + 1 := u8 v]> (<[off b := u8 (Z.shiftr v 8)]> buf))
  else None.

(** ** Packet *)

Record Packet : Type := mkPacket {
  Buffer : list Z;
  PacketS : slice;  (* the field [Packet] *)
  Src : slice;
  Dst : slice;
  IsIPv6 : bool
}.

Definition withBuffer (data : Packet) (buf : list Z) : Packet :=
  mkPacket buf (PacketS data) (Src data) (Dst data) (IsIPv6 data).
Definition withPacket (data : Packet) (s : slice) : Packet :=
  mkPacket (Buffer data) s (Src data) (Dst data) (IsIPv6 data).

(** [new(Packet)]: the zero value. *)
Definition newPacket : Packet :=
  mkPacket (replicate maxContentSize 0%Z) Nil Nil Nil false.

Definition clear (data : Packet) : Packet :=
  mkPacket (Buffer data) Nil Nil Nil false.

Definition Parse (data : Packet) : option (bool * Packet) :=
  let packet := PacketS data in
  b0 ← index (Buffer data) packet 0;
  let version := Z.shiftr b0 4 in
  if decide (version = ipv4_Version) then
    if decide (len packet < ipv4_HeaderLen) then Some (false, data)
    else
      src ← slice3 packet IPv4offsetSrc (IPv4offsetSrc + net_IPv4len);
      dst ← slice3 packet IPv4offsetDst (IPv4offsetDst + net_IPv4len);
      Some (true, mkPacket (Buffer data) packet src dst false)
  else if decide (version = ipv6_Version) then
    if decide (len packet < ipv6_HeaderLen) then Some (false, data)
    else
      src ← slice3 packet IPv6offsetSrc (IPv6offsetSrc + net_IPv6len);
      dst ← slice3 packet IPv6offsetDst (IPv6offsetDst + net_IPv6len);
      Some (true, mkPacket (Buffer data) packet src dst true)
  else Some (false, data).

(** What Go guarantees of a packet by its types: [Buffer] is an array of
    [maxContentSize] bytes, and a slice has its length within its capacity
    and its capacity within the array it was cut from. *)
Definition slice_wf (s : slice) : Prop :=
  match s with
  | Nil => True
  | Slice o l c => l ≤ c ∧ o + c = maxContentSize
  end.

Record wf_packet (data : Packet) : Prop := mk_wf_packet {
  wf_length : length (Buffer data) = maxContentSize;
  wf_bytes : Forall is_byte (Buffer data);
  wf_PacketS : slice_wf (PacketS data);
  wf_Src : slice_wf (Src data);
  wf_Dst : slice_wf (Dst data)
}.

(** ** Checksum engine *)

(** The loop [for i := 0; i < len(buf)-1; i += 2] of [checksumIPv4Header]
    visits the bytes two at a time and stops when fewer than two are left;
    [binary.BigEndian.Uint16(buf[i:])] is [buf[i+1] | buf[i] << 8]. *)
Fixpoint headerWords (buf : list Z) (v : Z) : Z :=
  match buf with
  | b0 :: b1 :: rest => headerWords rest (add32 v (Z.lor b1 (Z.shiftl b0 8)))
  | _ => v
  end.

(** [for v > 0xffff { v = (v >> 16) + (v & 0xffff) }].  The loop is run
    with fuel; [foldCarries_exits] shows that two rounds are enough for
    any [uint32], so the fuel given below is never exhausted. *)
Fixpoint foldCarries (fuel : nat) (v : Z) : Z :=
  match fuel with
  | O => v
  | S fuel' =>
      if decide (v > 0xffff)%Z
      then foldCarries fuel' (add32 (Z.shiftr v 16) (Z.land v 0xffff))
      else v
  end.

Definition foldFuel : nat := 32.

(** [^uint16(v)] *)
Definition not16 (v : Z) : Z := Z.lxor (u16 v) 0xffff.

Definition checksumIPv4Header (buf : list Z) : Z :=
  let v := headerWords buf 0%Z in
  let v :=
    if decide (length buf mod 2 = 1) then
      match buf !! (length buf - 1) with
      | Some b => add32 v (shl32 b 8)
      | None => v
      end
    else v in
  not16 (foldCarries foldFuel v).

(** The loop of [tcpipChecksum]: two additions per pair of bytes. *)
Fixpoint tcpipWords (data : list Z) (csum : Z) : Z :=
  match data with
  | b0 :: b1 :: rest => tcpipWords rest (add32 (add32 csum (shl32 b0 8)) b1)
  | _ => csum
  end.

Definition tcpipChecksum (data : list Z) (csum : Z) : Z :=
  let csum := tcpipWords data csum in
  let csum :=
    if decide (length data mod 2 = 1) then
      match data !! (length data - 1) with
      | Some b => add32 csum (shl32 b 8)
      | None => csum
      end
    else csum in
  not16 (foldCarries foldFuel csum).

(** [srcIP[i]] and [dstIP[i]] panic on an address shorter than 4 bytes. *)
Definition checksumIPv4TCPUDP (headerAndPayload : list Z) (protocol : Z)
    (srcIP dstIP : list Z) : option Z :=
  s0 ← srcIP !! 0; s2 ← srcIP !! 2;
  let csum := add32 0 (shl32 (add32 s0 s2) 8) in
  s1 ← srcIP !! 1; s3 ← srcIP !! 3;
  let csum := add32 csum (add32 s1 s3) in
  d0 ← dstIP !! 0; d2 ← dstIP !! 2;
  let csum := add32 csum (shl32 (add32 d0 d2) 8) in
  d1 ← dstIP !! 1; d3 ← dstIP !! 3;
  let csum := add32 csum (add32 d1 d3) in
  let totalLen := u32 (Z.of_nat (length headerAndPayload)) in
  let csum := add32 csum protocol in
  let csum := add32 csum (Z.land totalLen 0xffff) in
  let csum := add32 csum (Z.shiftr totalLen 16) in
  Some (tcpipChecksum headerAndPayload csum).

(** The TCP and UDP branches of [RecalculateChecksum] differ only in the
    offset of the checksum field. *)
Definition recalcL4 (data : Packet) (buf : list Z) (ipHeaderLen : nat)
    (protocol : Z) (offsetChecksum : nat) : option Packet :=
  let packet := PacketS data in
  field ← sliceFrom packet offsetChecksum;
  let buf := copy buf field [0; 0]%Z in
  l4 ← sliceFrom packet ipHeaderLen;
  checksum ← checksumIPv4TCPUDP (bytesOf buf l4) (u32 protocol)
               (bytesOf buf (Src data)) (bytesOf buf (Dst data));
  field ← sliceFrom packet offsetChecksum;
  buf ← PutUint16 buf field checksum;
  Some (withBuffer data buf).

Definition RecalculateChecksum (data : Packet) : option Packet :=
  if IsIPv6 data then Some data
  else
    let packet := PacketS data in
    b0 ← index (Buffer data) packet 0;
    let ipHeaderLen := Z.to_nat (Z.shiftl (Z.land b0 0x0f) 2) in
    field ← sliceFrom packet ipv4offsetChecksum;
    let buf := copy (Buffer data) field [0; 0]%Z in
    header ← sliceTo packet ipHeaderLen;
    let ipChecksum := checksumIPv4Header (bytesOf buf header) in
    field ← sliceFrom packet ipv4offsetChecksum;
    buf ← PutUint16 buf field ipChecksum;
    protocol ← index buf packet 9;
    if decide (protocol = IPProtocolTCP) then
      recalcL4 data buf ipHeaderLen protocol (ipHeaderLen + 16)
    else if decide (protocol = IPProtocolUDP) then
      recalcL4 data buf ipHeaderLen protocol (ipHeaderLen + 6)
    else Some (withBuffer data buf).

(** ** Device *)

Inductive LogEntry : Type :=
| WarnShortWrite (n : Z) (packetLen : nat)
| ErrorReadFailed (e : error).

(** [tun_Write] stands for the method [Write] of the [tun.Device]
    interface: what it returns for the bytes and the offset it is given. *)
Record Device : Type := mkDevice {
  localIP : list Z;
  tun_Write : list Z → nat → Z * option error
}.

(** What a call of [WritePacket] leaves behind: the packet (mutated in
    place), the calls of [tun.Write] it made, its log lines and the error
    it returns. *)
Record WriteOutcome : Type := mkWriteOutcome {
  wo_packet : Packet;
  wo_written : list (list Z * nat);
  wo_log : list LogEntry;
  wo_err : option error
}.

Definition WritePacket (d : Device) (data : Packet) (senderIP : list Z)
    : option WriteOutcome :=
  if IsIPv6 data then Some (mkWriteOutcome data [] [] None)
  else
    let buf := copy (Buffer data) (Src data) senderIP in
    let buf := copy buf (Dst data) (localIP d) in
    data ← RecalculateChecksum (withBuffer data buf);
    out ← arraySlice 0 (tunPacketOffset + len (PacketS data));
    let bytes := bytesOf (Buffer data) out in
    let '(n, err) := tun_Write d bytes tunPacketOffset in
    match err with
    | Some e =>
        Some (mkWriteOutcome data [(bytes, tunPacketOffset)] []
                (Some (Errorf "write packet to tun" e)))
    | None =>
        if decide (n < Z.of_nat (len (PacketS data)))%Z then
          Some (mkWriteOutcome data [(bytes, tunPacketOffset)]
                  [WarnShortWrite n (len (PacketS data))] None)
        else Some (mkWriteOutcome data [(bytes, tunPacketOffset)] [] None)
    end.

(** ** Packet pool

    [sync.Pool] belongs to Go's standard library: [Get] hands out some
    element that was [Put] before, or calls [New]; which one is not
    specified, and the collector may drop elements.  The choice is made
    explicit: [pick = Some i] asks for the [i]-th pooled element ([New] when
    there is none), [pick = None] calls [New]. *)
Definition pool_Get (pick : option nat) (pool : list Packet)
    : Packet * list Packet :=
  match pick with
  | Some i =>
      match pool !! i with
      | Some p => (p, delete i pool)
      | None => (newPacket, pool)
      end
  | None => (newPacket, pool)
  end.

Definition pool_Put (p : Packet) (pool : list Packet) : list Packet := p :: pool.

Definition GetTempPacket (pick : option nat) (pool : list Packet)
    : Packet * list Packet :=
  pool_Get pick pool.

Definition PutTempPacket (data : Packet) (pool : list Packet) : list Packet :=
  pool_Put (clear data) pool.

(** Any interleaving of check-outs, check-ins and collections is a list of
    these operations. *)
Inductive PoolOp : Type :=
| OpGet (pick : option nat)
| OpPut (data : Packet)
| OpCollect (i : nat).

(** Runs the operations; returns the pool and the packets handed out, the
    most recent first. *)
Fixpoint poolRun (ops : list PoolOp) (pool : list Packet) (out : list Packet)
    : list Packet * list Packet :=
  match ops with
  | [] => (pool, out)
  | OpGet pick :: ops =>
      let '(p, pool) := GetTempPacket pick pool in poolRun ops pool (p :: out)
  | OpPut data :: ops => poolRun ops (PutTempPacket data pool) out
  | OpCollect i :: ops => poolRun ops (delete i pool) out
  end.

(** ** TUN packet reader *)

(** One call of [tun.Read(buf, offset)]: the bytes the device stores at
    [buf[offset:]], the size it reports and its error. *)
Record TunRead : Type := mkTunRead {
  rd_bytes : list Z;
  rd_size : Z;
  rd_err : option error
}.

Inductive IterOutcome : Type :=
| IterReturn                 (* the goroutine returns *)
| IterContinue (data : Packet) (* [continue]: the buffer is kept *)
| IterEmit (data : Packet)     (* sent on [outboundCh]; [data = nil] *)
| IterPanic.

(** The loop body, from [tun.Read] on; [data] is the buffer after
    [GetTempPacket] or [clear]. *)
Definition readerIter (data : Packet) (rd : TunRead)
    : IterOutcome * list LogEntry :=
  let data := withBuffer data
                (list_inserts tunPacketOffset (rd_bytes rd) (Buffer data)) in
  let size := rd_size rd in
  match rd_err rd with
  | Some e =>
      if decide (e = io_EOF) then (IterReturn, [])
      else (IterReturn, [ErrorReadFailed e])
  | None =>
      if decide (size = 0 ∨ size > Z.of_nat maxContentSize)%Z
      then (IterContinue data, [])
      else
        match (if decide (size < 0)%Z then None
               else arraySlice tunPacketOffset
                      (Z.to_nat size + tunPacketOffset)) with
        | None => (IterPanic, [])
        | Some s =>
            match Parse (withPacket data s) with
            | None => (IterPanic, [])
            | Some (false, data) => (IterContinue data, [])
            | Some (true, data) => (IterEmit data, [])
            end
        end
  end.

Inductive ReaderStatus : Type :=
| Returned
| Panicked
| AwaitingRead (data : option Packet).

Record ReaderRun : Type := mkReaderRun {
  rr_sent : list Packet;      (* [outboundCh], oldest first *)
  rr_pool : list Packet;
  rr_log : list LogEntry;
  rr_status : ReaderStatus
}.

(** The loop, driven by the reads the device answers with; [pick] is the
    pool's choice for an iteration that checks a buffer out. *)
Fixpoint tunPacketsReader (reads : list (option nat * TunRead))
    (pool : list Packet) (data : option Packet)
    (sent : list Packet) (log : list LogEntry) : ReaderRun :=
  match reads with
  | [] => mkReaderRun sent pool log (AwaitingRead data)
  | (pick, rd) :: reads =>
      let '(d, pool) :=
        match data with
        | None => GetTempPacket pick pool
        | Some d => (clear d, pool)
        end in
      match readerIter d rd with
      | (IterReturn, l) => mkReaderRun sent pool (log ++ l) Returned
      | (IterPanic, l) => mkReaderRun sent pool (log ++ l) Panicked
      | (IterContinue d, l) =>
          tunPacketsReader reads pool (Some d) sent (log ++ l)
      | (IterEmit d, l) =>
          tunPacketsReader reads pool None (sent ++ [d]) (log ++ l)
      end
  end.

(** ** ReadFrom *)

(** One call of [stream.Read(p)]: the bytes stored in [p] (their number is
    the [n] returned) and the error.  A stream whose script is used up
    answers [(0, io.EOF)]. *)
Record StreamRead : Type := mkStreamRead {
  sr_bytes : list Z;
  sr_err : option error
}.

Fixpoint ReadFrom_loop (stream : list StreamRead) (data : Packet)
    (totalRead : nat) : option (Packet * Z * option error) :=
  p ← arraySlice totalRead maxContentSize;
  match stream with
  | [] =>
      s ← arraySlice tunPacketOffset totalRead;
      Some (withPacket data s, (Z.of_nat totalRead - Z.of_nat tunPacketOffset)%Z, None)
  | r :: stream =>
      let data := withBuffer data (copy (Buffer data) p (sr_bytes r)) in
      let totalRead := totalRead + length (sr_bytes r) in
      match sr_err r with
      | Some e =>
          if decide (e = io_EOF) then
            s ← arraySlice tunPacketOffset totalRead;
            Some (withPacket data s,
                  (Z.of_nat totalRead - Z.of_nat tunPacketOffset)%Z, None)
          else
            Some (data, (Z.of_nat totalRead - Z.of_nat tunPacketOffset)%Z, Some e)
      | None => ReadFrom_loop stream data totalRead
      end
  end.

Definition ReadFrom (data : Packet) (stream : list StreamRead)
    : option (Packet * Z * option error) :=
  ReadFrom_loop stream data tunPacketOffset.

End Vpn.

(** ** The checksum as the specification words it (section 4.2)

    These definitions follow the specification, not the code: unbounded
    integers, the 16-bit big-endian words of the data added up, an odd
    trailing byte shifted left by 8, the carries folded by adding the high
    and the low half again and again, and the one's complement of the
    result.  They are what [checksumIPv4Header] and [checksumIPv4TCPUDP] are
    compared with. *)
Module RFC1071.

Fixpoint wordSum (b : list Z) : Z :=
  match b with
  | [] => 0
  | [b0] => Z.shiftl b0 8
  | b0 :: b1 :: rest => (Z.shiftl b0 8 + b1) + wordSum rest
  end%Z.

Equations? foldHalves (v : Z) : Z by wf (Z.to_nat v) lt :=
  foldHalves v with decide (0xffff < v)%Z => {
    | left _ := foldHalves (Z.shiftr v 16 + Z.land v 0xffff)%Z;
    | right _ := v }.
Proof.
  change 65535%Z with (Z.ones 16).
  rewrite Z.shiftr_div_pow2, Z.land_ones by lia.
  change (2 ^ 16)%Z with 65536%Z.
  pose proof (Z.div_mod v 65536 ltac:(lia)).
  pose proof (Z.mod_pos_bound v 65536 ltac:(lia)).
  assert (1 ≤ v `div` 65536)%Z by (apply Z.div_le_lower_bound; lia).
  lia.
Qed.

Definition onesComplement (x : Z) : Z := (0xffff - x)%Z.

Definition ipv4_header_checksum (header : list Z) : Z :=
  onesComplement (foldHalves (wordSum header)).

(** src, dst, 0x00 || protocol, L4 length *)
Definition pseudoHeader (src dst : list Z) (protocol l4len : Z) : list Z :=
  src ++ dst ++ [0; protocol; Z.shiftr l4len 8; Z.land l4len 0xff]%Z.

Definition ipv4_l4_checksum (l4 : list Z) (protocol : Z) (src dst : list Z) : Z :=
  onesComplement
    (foldHalves
       (wordSum (pseudoHeader src dst protocol (Z.of_nat (length l4)))
        + wordSum l4)%Z).

End RFC1071.

(** ** Overlay host (package p2p) *)
Module P2p.

Definition i64 (z : Z) : Z := ((z + 2 ^ 63) mod 2 ^ 64 - 2 ^ 63)%Z.

(** The three counters of [P2p]; the other fields play no part in the
    notification callbacks. *)
Record Counters : Type := mkCounters {
  openedStreams : Z;
  totalStreamsInbound : Z;
  totalStreamsOutbound : Z
}.

Definition zeroCounters : Counters := mkCounters 0 0 0.

(** [network.Direction] *)
Inductive Direction : Type := DirUnknown | DirInbound | DirOutbound.

(** [OpenedStreamF]; [stream = None] is the nil stream the callback guards
    against.  (The receiver [p] has been dereferenced before the bundle is
    built, so its nil test cannot succeed.) *)
Definition OpenedStreamF (p : Counters) (stream : option Direction) : Counters :=
  match stream with
  | None => p
  | Some direction =>
      let p := mkCounters (i64 (openedStreams p + 1))
                 (totalStreamsInbound p) (totalStreamsOutbound p) in
      match direction with
      | DirInbound =>
          mkCounters (openedStreams p) (i64 (totalStreamsInbound p + 1))
            (totalStreamsOutbound p)
      | DirOutbound =>
          mkCounters (openedStreams p) (totalStreamsInbound p)
            (i64 (totalStreamsOutbound p + 1))
      | DirUnknown => p
      end
  end.

(** [ClosedStreamF] ignores both of its arguments. *)
Definition ClosedStreamF (p : Counters) : Counters :=
  mkCounters (i64 (openedStreams p + -1))
    (totalStreamsInbound p) (totalStreamsOutbound p).

Inductive Notification : Type :=
| OpenedStream (stream : option Direction)
| ClosedStream.

Definition notify (p : Counters) (n : Notification) : Counters :=
  match n with
  | OpenedStream stream => OpenedStreamF p stream
  | ClosedStream => ClosedStreamF p
  end.

(** The callbacks are atomic, so a concurrent history is a list of them. *)
Definition notifyAll (p : Counters) (ns : list Notification) : Counters :=
  fold_left notify ns p.

(** The step relation of the counters and its reachable states. *)
Definition step (p q : Counters) : Prop := ∃ n, q = notify p n.

Inductive reachable : Counters → Prop :=
| reach_zero : reachable zeroCounters
| reach_step p q : reachable p → step p q → reachable q.

(** *** Bootstrap *)

Section Bootstrap.

(** A bootstrap multiaddress and the peer information parsed from it. *)
Context {Multiaddr AddrInfo : Type}.

(** The collaborators of [Bootstrap]: the configured addresses,
    [peer.AddrInfoFromP2pAddr], [host.Connect] under the two-second
    context, and [dht.Bootstrap]. *)
Record Env : Type := mkEnv {
  GetBootstrapPeers : list Multiaddr;
  AddrInfoFromP2pAddr : Multiaddr → AddrInfo + error;
  host_Connect : AddrInfo → option error;
  dht_Bootstrap : option error
}.

Inductive Event : Type :=
| DebugBootstrapping
| WarnInvalidAddr (peerAddr : Multiaddr) (e : error)
| GoDial (peerInfo : AddrInfo)          (* [wg.Add(1); go func() ...] *)
| ConnectReturned (peerInfo : AddrInfo) (r : option error)
| WarnConnect (e : error)
| InfoConnected (peerInfo : AddrInfo)
| InfoAllConnected                      (* after [wg.Wait()] *)
| DhtBootstrapCalled.

(** The state of a call: the addresses the loop has not reached yet, the
    goroutines that have not called [wg.Done] yet, the events so far
    (oldest first) and the value returned, once the call has returned. *)
Record State : Type := mkState {
  st_todo : list Multiaddr;
  st_dialing : list AddrInfo;
  st_events : list Event;
  st_result : option (option error)
}.

Definition initState (env : Env) : State :=
  mkState (GetBootstrapPeers env) [] [DebugBootstrapping] None.

(** The body of a dial goroutine. *)
Definition dial (env : Env) (peerInfo : AddrInfo) : list Event :=
  let err := host_Connect env peerInfo in
  ConnectReturned peerInfo err ::
  match err with
  | Some e => if decide (e ≠ context_Canceled) then [WarnConnect e] else []
  | None => [InfoConnected peerInfo]
  end.

(** Who moves next: the calling goroutine, or the [i]-th dial goroutine
    that is still running. *)
Inductive Choice : Type := Main | Worker (i : nat).

(** One move of the chosen goroutine; [None] when it cannot move (the
    caller blocked in [wg.Wait], a worker that does not exist, a call
    that has returned). *)
Definition exec (env : Env) (c : Choice) (s : State) : option State :=
  match st_result s with
  | Some _ => None
  | None =>
      match c with
      | Main =>
          match st_todo s with
          | peerAddr :: todo =>
              match AddrInfoFromP2pAddr env peerAddr with
              | inr e =>
                  Some (mkState todo (st_dialing s)
                          (st_events s ++ [WarnInvalidAddr peerAddr e]) None)
              | inl peerInfo =>
                  Some (mkState todo (st_dialing s ++ [peerInfo])
                          (st_events s ++ [GoDial peerInfo]) None)
              end
          | [] =>
              match st_dialing s with
              | _ :: _ => None
              | [] =>
                  let events := st_events s ++ [InfoAllConnected; DhtBootstrapCalled] in
                  match dht_Bootstrap env with
                  | Some e =>
                      Some (mkState [] [] events
                              (Some (Some (Errorf "bootstrap dht" e))))
                  | None => Some (mkState [] [] events (Some None))
                  end
              end
          end
      | Worker i =>
          peerInfo ← st_dialing s !! i;
          Some (mkState (st_todo s) (delete i (st_dialing s))
                  (st_events s ++ dial env peerInfo) None)
      end
  end.

Fixpoint execAll (env : Env) (sched : list Choice) (s : State) : option State :=
  match sched with
  | [] => Some s
  | c :: sched => s ← exec env c s; execAll env sched s
  end.

(** A schedule that always exists: every dial runs as soon as it is
    started. *)
Fixpoint eagerSchedule (env : Env) (todo : list Multiaddr) : list Choice :=
  match todo with
  | [] => [Main]
  | peerAddr :: todo =>
      match AddrInfoFromP2pAddr env peerAddr with
      | inr _ => Main :: eagerSchedule env todo
      | inl _ => Main :: Worker 0 :: eagerSchedule env todo
      end
  end.

(** [Bootstrap] under a schedule: the value it returns, if the schedule
    lets it return. *)
Definition Bootstrap (env : Env) (sched : list Choice) : option (option error) :=
  s ← execAll env sched (initState env); st_result s.

End Bootstrap.

End P2p.

(** * Definitions used in the statements *)

Import Vpn.
Import P2p.

(** ** Packets and checksums *)

(** The odd trailing byte, as both checksum functions add it. *)
Definition trailingByte (data : list Z) (v : Z) : Z :=
  if decide (length data mod 2 = 1)%nat then
    match data !! (length data - 1)%nat with
    | Some b => add32 v (shl32 b 8)
    | None => v
    end
  else v.

(** Both [copy(b, []byte{0, 0})] and [PutUint16] store two adjacent bytes. *)
Definition write2 (buf : list Z) (i : nat) (x y : Z) : list Z :=
  <[i + 1 := y]> (<[i := x]> buf).

(** The two bytes of a [uint16], most significant first. *)
Definition be16 (v : Z) : list Z := [u8 (Z.shiftr v 8); u8 v].

Definition ihlOf (b0 : Z) : nat := Z.to_nat (Z.shiftl (Z.land b0 0x0f) 2).

Definition l4Flat (data : Packet) (o l c : nat) (buf : list Z) (ihl : nat)
    (protocol : Z) (ft : nat) : option Packet :=
  if decide (ft + 2 ≤ l ∧ ihl ≤ l) then
    let buf3 := write2 buf (o + ft) 0 0 in
    checksum ← checksumIPv4TCPUDP
                 (bytesOf buf3 (Slice (o + ihl) (l - ihl) (c - ihl)))
                 (u32 protocol) (bytesOf buf3 (Src data)) (bytesOf buf3 (Dst data));
    Some (withBuffer data
            (write2 buf3 (o + ft) (u8 (Z.shiftr checksum 8)) (u8 checksum)))
  else None.

Definition rcFlat (data : Packet) (o l c : nat) : option Packet :=
  b0 ← Buffer data !! o;
  let ihl := ihlOf b0 in
  if decide (12 ≤ l ∧ ihl ≤ c) then
    let buf1 := write2 (Buffer data) (o + 10) 0 0 in
    let ck := checksumIPv4Header (bytesOf buf1 (Slice o ihl c)) in
    let buf2 := write2 buf1 (o + 10) (u8 (Z.shiftr ck 8)) (u8 ck) in
    protocol ← buf2 !! (o + 9);
    if decide (protocol = 6%Z) then
      l4Flat data o l c buf2 ihl protocol (ihl + 16)
    else if decide (protocol = 17%Z) then
      l4Flat data o l c buf2 ihl protocol (ihl + 6)
    else Some (withBuffer data buf2)
  else None.

#[global] Instance is_byte_dec b : Decision (is_byte b).
Proof. unfold is_byte. apply _. Defined.

(** What the reader guarantees of a packet it sends, in terms of the read
    that produced it. *)
Definition emitted_by (rd : TunRead) (p : Packet) : Prop :=
  rd_err rd = None ∧
  (0 < rd_size rd ≤ Z.of_nat maxContentSize)%Z ∧
  arraySlice tunPacketOffset (tunPacketOffset + Z.to_nat (rd_size rd))
    = Some (PacketS p) ∧
  Parse p = Some (true, p) ∧
  (IsIPv6 p = false →
     ipv4_HeaderLen ≤ len (PacketS p) ∧
     Src p = Slice (tunPacketOffset + 12) 4 (maxContentSize - tunPacketOffset - 12) ∧
     Dst p = Slice (tunPacketOffset + 16) 4 (maxContentSize - tunPacketOffset - 16) ∧
     length (bytesOf (Buffer p) (Src p)) = 4 ∧
     length (bytesOf (Buffer p) (Dst p)) = 4).

Definition clean (p : Packet) : Prop :=
  PacketS p = Nil ∧ Src p = Nil ∧ Dst p = Nil ∧ IsIPv6 p = false.

(** A decidable form of [wf_packet], to check concrete packets by
    evaluation. *)
Definition slice_wfb (s : slice) : bool :=
  match s with
  | Nil => true
  | Slice o l c => (l <=? c) && (o + c =? maxContentSize)
  end.

Definition wf_packetb (data : Packet) : bool :=
  (length (Buffer data) =? maxContentSize) &&
  forallb (λ b, (0 <=? b)%Z && (b <? 256)%Z) (Buffer data) &&
  slice_wfb (PacketS data) && slice_wfb (Src data) && slice_wfb (Dst data).

(** ** Sample packets *)

(** A packet as [ReadFrom] and the TUN reader leave it: the bytes at
    [tunPacketOffset], the packet view over them, nothing parsed yet. *)
Definition inBuffer (packet : list Z) : Packet :=
  mkPacket
    (replicate tunPacketOffset 0%Z ++ packet ++
     replicate (maxContentSize - tunPacketOffset - length packet) 0%Z)
    (Slice tunPacketOffset (length packet) (maxContentSize - tunPacketOffset))
    Nil Nil false.

(** The same packet with the views that [Parse] sets for IPv4. *)
Definition parsedIPv4 (packet : list Z) : Packet :=
  mkPacket (Buffer (inBuffer packet)) (PacketS (inBuffer packet))
    (Slice (tunPacketOffset + 12) 4 (maxContentSize - tunPacketOffset - 12))
    (Slice (tunPacketOffset + 16) 4 (maxContentSize - tunPacketOffset - 16))
    false.

(** Scenario 2 of the specification: a TCP SYN from 10.0.0.1 to 10.0.0.2,
    header length 5, a 20-byte TCP header, no payload. *)
Definition tcpSyn : list Z :=
  [0x45; 0x00; 0x00; 0x28; 0x00; 0x01; 0x00; 0x00; 0x40; 0x06; 0x00; 0x00;
   10; 0; 0; 1; 10; 0; 0; 2;
   0x04; 0xd2; 0x00; 0x50; 0; 0; 0; 0; 0; 0; 0; 0;
   0x50; 0x02; 0xff; 0xff; 0x00; 0x00; 0x00; 0x00]%Z.

(** Scenario 1 of the specification: a UDP packet and ten bytes after the
    IP header. *)
Definition udpDatagram : list Z :=
  [0x45; 0x00; 0x00; 0x22; 0x00; 0x01; 0x00; 0x00; 0x40; 0x11; 0x00; 0x00;
   10; 0; 0; 1; 10; 0; 0; 2;
   0xaa; 0xaa; 0xaa; 0xaa; 0xaa; 0xaa; 0xaa; 0xaa; 0xaa; 0xaa]%Z.

(** An IPv4 header that announces TCP, with nothing after it. *)
Definition tcpHeaderOnly : list Z :=
  [0x45; 0x00; 0x00; 0x14; 0x00; 0x01; 0x00; 0x00; 0x40; 0x06; 0x00; 0x00;
   10; 0; 0; 1; 10; 0; 0; 2]%Z.

(** Twenty bytes of version 4 that announce a header length of 0 and TCP. *)
Definition tcpNoHeaderLength : list Z :=
  [0x40; 0x00; 0x00; 0x14; 0x00; 0x01; 0x00; 0x00; 0x40; 0x06; 0x00; 0x00;
   10; 0; 0; 1; 10; 0; 0; 2]%Z.

(** Twenty bytes of version 4 that announce a header length of 1 (four
    bytes) and UDP. *)
Definition udpShortHeader : list Z :=
  [0x41; 0x00; 0x00; 0x14; 0x00; 0x01; 0x00; 0x00; 0x40; 0x11; 0x00; 0x00;
   10; 0; 0; 1; 10; 0; 0; 2]%Z.

(** A device at 10.66.0.1 whose TUN accepts every write in full. *)
Definition sampleDevice : Device :=
  mkDevice [10; 66; 0; 1]%Z (λ bytes offset, (Z.of_nat (length bytes - offset), None)).

Definition sampleSender : list Z := [192; 168; 1; 5]%Z.

(** The same address in the 16-byte form of [net.IP], as [net.IPv4] and
    [net.ParseIP] return it. *)
Definition sampleSender16 : list Z :=
  [0; 0; 0; 0; 0; 0; 0; 0; 0; 0; 0xff; 0xff; 192; 168; 1; 5]%Z.

(** 128 KiB of 0xff: with the pseudo-header of two addresses
    255.255.255.255 its words add up to more than a [uint32] holds. *)
Definition overflowPayload : list Z := replicate (Z.to_nat 131072) 255%Z.
Definition broadcastIP : list Z := [255; 255; 255; 255]%Z.

(** [udpDatagram] after [RecalculateChecksum]. *)
Definition udpRegenerated : Packet :=
  default newPacket (RecalculateChecksum (parsedIPv4 udpDatagram)).

(** ** Stream counters *)

(** The notifications of a history, counted. *)
Fixpoint countIf (f : Notification → bool) (ns : list Notification) : Z :=
  match ns with
  | [] => 0
  | n :: ns => (if f n then 1 else 0) + countIf f ns
  end%Z.

Definition isOpened (n : Notification) : bool :=
  match n with OpenedStream (Some _) => true | _ => false end.
Definition isClosed (n : Notification) : bool :=
  match n with ClosedStream => true | _ => false end.
Definition isInbound (n : Notification) : bool :=
  match n with OpenedStream (Some DirInbound) => true | _ => false end.
Definition isOutbound (n : Notification) : bool :=
  match n with OpenedStream (Some DirOutbound) => true | _ => false end.

Definition opened := countIf isOpened.
Definition closed := countIf isClosed.
Definition inbound := countIf isInbound.
Definition outbound := countIf isOutbound.

(** Every [ClosedStream] answers an earlier [OpenedStream] of a stream that
    was counted: no prefix of the history closes more than it opened. *)
Definition paired (ns : list Notification) : Prop :=
  ∀ k, (closed (take k ns) ≤ opened (take k ns))%Z.

(** No stream of unknown direction is opened. *)
Definition directed (ns : list Notification) : Prop :=
  Forall (λ n, n ≠ OpenedStream (Some DirUnknown)) ns.

(** ** Bootstrap *)

Section BootstrapTraces.

Context {Multiaddr AddrInfo : Type}.
Implicit Types (env : @Env Multiaddr AddrInfo) (s : @State Multiaddr AddrInfo).
Implicit Types (evs : list (@Event Multiaddr AddrInfo)).

(** The addresses of a list that parse, in order. *)
Fixpoint parsedPeers env (addrs : list Multiaddr) : list AddrInfo :=
  match addrs with
  | [] => []
  | a :: addrs =>
      match AddrInfoFromP2pAddr env a with
      | inl info => info :: parsedPeers env addrs
      | inr _ => parsedPeers env addrs
      end
  end.

(** The addresses of a list that do not parse, in order. *)
Fixpoint invalidPeers env (addrs : list Multiaddr) : list Multiaddr :=
  match addrs with
  | [] => []
  | a :: addrs =>
      match AddrInfoFromP2pAddr env a with
      | inl _ => invalidPeers env addrs
      | inr _ => a :: invalidPeers env addrs
      end
  end.

(** The dials started, the dials that have returned, the addresses warned
    about and the calls of [dht.Bootstrap], as the events record them. *)
Fixpoint dialsStarted evs : list AddrInfo :=
  match evs with
  | [] => []
  | GoDial info :: evs => info :: dialsStarted evs
  | _ :: evs => dialsStarted evs
  end.

Fixpoint dialsReturned evs : nat :=
  match evs with
  | [] => 0
  | ConnectReturned _ _ :: evs => S (dialsReturned evs)
  | _ :: evs => dialsReturned evs
  end.

Fixpoint invalidWarned evs : list Multiaddr :=
  match evs with
  | [] => []
  | WarnInvalidAddr a _ :: evs => a :: invalidWarned evs
  | _ :: evs => invalidWarned evs
  end.

Fixpoint dhtCalls evs : nat :=
  match evs with
  | [] => 0
  | DhtBootstrapCalled :: evs => S (dhtCalls evs)
  | _ :: evs => dhtCalls evs
  end.

(** What [Bootstrap] returns for the outcome of [dht.Bootstrap]. *)
Definition wrapDht (r : option error) : option error :=
  match r with
  | Some e => Some (Errorf "bootstrap dht" e)
  | None => None
  end.

(** What holds of every state of a call. *)
Record inv env s : Prop := mkInv {
  inv_peers : ∃ done, GetBootstrapPeers env = done ++ st_todo s ∧
                dialsStarted (st_events s) = parsedPeers env done ∧
                invalidWarned (st_events s) = invalidPeers env done;
  inv_dials : length (dialsStarted (st_events s)) =
                dialsReturned (st_events s) + length (st_dialing s);
  inv_running : st_result s = None → dhtCalls (st_events s) = 0;
  inv_returned : ∀ r, st_result s = Some r →
                   r = wrapDht (dht_Bootstrap env) ∧
                   st_todo s = [] ∧ st_dialing s = [] ∧
                   ∃ pre, st_events s = pre ++ [InfoAllConnected; DhtBootstrapCalled] ∧
                          dhtCalls pre = 0
}.

(** The dials that have returned, each with what [host.Connect] returned,
    and the two kinds of lines the dials log, in the order of the events. *)
Fixpoint dialResults evs : list (AddrInfo * option error) :=
  match evs with
  | [] => []
  | ConnectReturned info r :: evs => (info, r) :: dialResults evs
  | _ :: evs => dialResults evs
  end.

Fixpoint connectWarned evs : list error :=
  match evs with
  | [] => []
  | WarnConnect e :: evs => e :: connectWarned evs
  | _ :: evs => connectWarned evs
  end.

Fixpoint connectedLogged evs : list AddrInfo :=
  match evs with
  | [] => []
  | InfoConnected info :: evs => info :: connectedLogged evs
  | _ :: evs => connectedLogged evs
  end.

(** What holds of the dials in every state of a call. *)
Record dialInv env s : Prop := mkDialInv {
  inv_results :
    Forall (λ x, x.2 = host_Connect env x.1) (dialResults (st_events s));
  inv_warned :
    connectWarned (st_events s) =
      filter (λ e, e ≠ context_Canceled) (omap snd (dialResults (st_events s)));
  inv_connected :
    connectedLogged (st_events s) =
      (filter (λ x, x.2 = None) (dialResults (st_events s))).*1;
  inv_each :
    (dialResults (st_events s)).*1 ++ st_dialing s ≡ₚ dialsStarted (st_events s)
}.

End BootstrapTraces.

(** Scenario 5 of the specification: three bootstrap addresses, the first
    of which does not parse, the second cannot be reached and the third
    answers; the DHT bootstrap succeeds. *)
Definition scenario5 : @Env nat nat :=
  mkEnv [0; 1; 2]
    (λ a, match a with 0 => inr (ErrOther "invalid p2p multiaddr") | _ => inl a end)
    (λ info, match info with 1 => Some (ErrOther "dial backoff") | _ => None end)
    None.

(** * More of the code

    The event reader of the TUN device and the stream statistics of the
    overlay host, which the properties at the end of the file are about,
    with [ReadFrom], [WritePacket], the packet reader and the pool, which
    are embedded above. *)

(** ** TUN events (vpn.go, [tunEventsReader]) *)

(** The lines [tunEventsReader] logs. *)
Inductive EventLog : Type :=
| ErrorLoadMTU (e : error)          (* "Failed to load updated MTU of device" *)
| ErrorNegativeMTU (mtu : Z)        (* "MTU not updated to negative value" *)
| InfoMTUUpdated (mtu : Z) (tooLarge : bool)     (* "MTU updated: %v%s" *)
| InfoDownRequested.                (* "Interface down requested" *)

(** One value received from [d.tun.Events()]: the bits of the event, and
    what [d.tun.MTU()] answers if it is asked while the event is handled. *)
Record TunEvent : Type := mkTunEvent {
  ev_bits : Z;
  ev_MTU : Z * option error
}.

Section TunEvents.

(** The bits [tun.EventDown] and [tun.EventMTUUpdate] of the imported
    package.  ([tun.EventUp] selects an empty branch.)  [int] is taken to
    have 64 bits, so that the conversions between [int] and [int64] keep the
    value. *)
Variables EventDown EventMTUUpdate : Z.

(** The body of the loop for one event: the new value of [d.mtu] and the
    lines logged.  Both [continue]s leave the iteration before the test of
    [tun.EventDown]. *)
Definition eventIter (mtu : Z) (ev : TunEvent) : Z * list EventLog :=
  let down :=
    if decide (Z.land (ev_bits ev) EventDown ≠ 0)%Z
    then [InfoDownRequested] else [] in
  if decide (Z.land (ev_bits ev) EventMTUUpdate ≠ 0)%Z then
    match ev_MTU ev with
    | (_, Some e) => (mtu, [ErrorLoadMTU e])
    | (m, None) =>
        if decide (m < 0)%Z then (mtu, [ErrorNegativeMTU m])
        else
          let tooLarge := bool_decide (m > Z.of_nat maxContentSize)%Z in
          let m := if tooLarge then Z.of_nat maxContentSize else m in
          let old := mtu in
          (m, (if decide (old ≠ m) then [InfoMTUUpdated m tooLarge] else [])
                ++ down)
    end
  else (mtu, down).

(** [for event := range d.tun.Events()], over the events received until
    the channel is closed. *)
Fixpoint tunEventsReader (events : list TunEvent) (mtu : Z)
    (log : list EventLog) : Z * list EventLog :=
  match events with
  | [] => (mtu, log)
  | ev :: events =>
      let '(mtu, l) := eventIter mtu ev in
      tunEventsReader events mtu (log ++ l)
  end.

(** An event that asks for the MTU and gets a usable answer. *)
Definition updatesMTU (ev : TunEvent) : bool :=
  bool_decide (Z.land (ev_bits ev) EventMTUUpdate ≠ 0)%Z &&
  match ev_MTU ev with
  | (m, None) => bool_decide (0 ≤ m)%Z
  | (_, Some _) => false
  end.

(** An event whose handling reaches the test of [tun.EventDown] with the
    bit set. *)
Definition requestsDown (ev : TunEvent) : bool :=
  bool_decide (Z.land (ev_bits ev) EventDown ≠ 0)%Z &&
  (updatesMTU ev || bool_decide (Z.land (ev_bits ev) EventMTUUpdate = 0)%Z).

End TunEvents.

(** ** Stream statistics (application.go, package p2p) *)

(** What [OpenStreamStats] reads of a stream: [stream.Protocol()] and
    [stream.Stat().Direction]. *)
Record Stream : Type := mkStream {
  stream_Protocol : string;
  stream_Direction : Direction
}.

(** The body of the inner loop.  [protocolStats] is the map stored under
    the protocol, created and stored when the protocol is new; the
    increment through [protocolStats] is an increment of the stored map,
    the two being one Go map.  The counters are [int]s, taken to have 64
    bits. *)
Definition countStream (stats : gmap string (gmap string Z)) (stream : Stream)
    : gmap string (gmap string Z) :=
  let direction :=
    match stream_Direction stream with
    | DirInbound => "inbound"
    | DirOutbound => "outbound"
    | DirUnknown => "unknown"
    end in
  let '(protocolStats, stats) :=
    match stats !! stream_Protocol stream with
    | Some protocolStats => (protocolStats, stats)
    | None => (∅, <[stream_Protocol stream := ∅]> stats)
    end in
  <[stream_Protocol stream :=
      <[direction := i64 (default 0%Z (protocolStats !! direction) + 1)]>
        protocolStats]> stats.

(** [OpenStreamStats] over [p.host.Network().Conns()], each connection
    given by its [GetStreams()]. *)
Definition OpenStreamStats (conns : list (list Stream))
    : gmap string (gmap string Z) :=
  fold_left (λ stats streams, fold_left countStream streams stats) conns ∅.

(** [OpenStreamsCount], [TotalStreamsInbound], [TotalStreamsOutbound]:
    atomic loads of the counters. *)
Definition OpenStreamsCount (p : Counters) : Z := openedStreams p.
Definition TotalStreamsInbound (p : Counters) : Z := totalStreamsInbound p.
Definition TotalStreamsOutbound (p : Counters) : Z := totalStreamsOutbound p.

(** * Definitions used in the further statements *)

(** ** ReadFrom and the checksums *)

(** The bytes [ReadFrom] receives from a stream: those of every read up to
    and including the first one that returns an error; and the error that
    ends the loop ([io.EOF] when the script is used up). *)
Fixpoint received (stream : list StreamRead) : list Z :=
  match stream with
  | [] => []
  | r :: stream =>
      sr_bytes r ++
      match sr_err r with Some _ => [] | None => received stream end
  end.

Fixpoint ending (stream : list StreamRead) : error :=
  match stream with
  | [] => io_EOF
  | r :: stream =>
      match sr_err r with Some e => e | None => ending stream end
  end.

(** The weight of byte [i] in the 16-bit big-endian word sum. *)
Definition byteWeight (i : nat) : Z := if Nat.even i then 256%Z else 1%Z.

(** ** The TUN packet reader *)

(** What ties a packet that the reader sends to the read it comes from:
    [emitted_by], and the bytes of the packet are the bytes the device
    stored, as many as it reported. *)
Definition carries (rd : TunRead) (p : Packet) : Prop :=
  emitted_by rd p ∧
  (Z.to_nat (rd_size rd) ≤ length (rd_bytes rd) →
   bytesOf (Buffer p) (PacketS p) = take (Z.to_nat (rd_size rd)) (rd_bytes rd)).

(** A size that [tun.Read] can report for a buffer of [maxContentSize]
    bytes filled from [tunPacketOffset] on. *)
Definition fits (rd : TunRead) : Prop :=
  rd_err rd = None →
  (0 ≤ rd_size rd ≤ Z.of_nat (maxContentSize - tunPacketOffset))%Z.

(** A read as a TUN device answers it: no error, and as many bytes stored
    as reported, which fit the buffer behind the offset. *)
Definition conforming (rd : TunRead) : Prop :=
  rd_err rd = None ∧
  Z.of_nat (length (rd_bytes rd)) = rd_size rd ∧
  (rd_size rd ≤ Z.of_nat (maxContentSize - tunPacketOffset))%Z.

(** The reads that [Parse] accepts: version 4 and at least 20 bytes, or
    version 6 and at least 40 bytes. *)
Definition accepted (rd : TunRead) : bool :=
  match rd_bytes rd with
  | b0 :: _ =>
      bool_decide (Z.shiftr b0 4 = 4 ∧ 20 ≤ rd_size rd ∨
                   Z.shiftr b0 4 = 6 ∧ 40 ≤ rd_size rd)%Z
  | [] => false
  end.

(** ** Counting *)

Fixpoint count {A} (f : A → bool) (l : list A) : nat :=
  match l with
  | [] => 0
  | x :: l => (if f x then 1 else 0) + count f l
  end.

Definition isDownLine (e : EventLog) : bool :=
  match e with InfoDownRequested => true | _ => false end.
Definition isUpdateLine (e : EventLog) : bool :=
  match e with InfoMTUUpdated _ _ => true | _ => false end.

Definition directionName (d : Direction) : string :=
  match d with
  | DirInbound => "inbound"
  | DirOutbound => "outbound"
  | DirUnknown => "unknown"
  end.

(** The streams of a protocol and a direction. *)
Definition streamsOf (protocol direction : string) (streams : list Stream)
    : nat :=
  length (filter (λ s, stream_Protocol s = protocol ∧
                       directionName (stream_Direction s) = direction)
            streams).

(** ** Samples *)

(** The TCP SYN of scenario 2, received from a stream in two reads. *)
Definition synStream : list StreamRead :=
  [mkStreamRead (take 20 tcpSyn) None;
   mkStreamRead (drop 20 tcpSyn) (Some io_EOF)].

(** A stream that breaks after the IP header. *)
Definition brokenStream : list StreamRead :=
  [mkStreamRead (take 20 tcpSyn) None;
   mkStreamRead [] (Some (ErrOther "reset"))].

(** The IP header of [udpDatagram] with its checksum, 0x66c8, in place. *)
Definition udpHeader : list Z :=
  [0x45; 0x00; 0x00; 0x22; 0x00; 0x01; 0x00; 0x00; 0x40; 0x11; 0x66; 0xc8;
   10; 0; 0; 1; 10; 0; 0; 2]%Z.

(** Three connections, one of them without streams: three streams of the
    tunnel protocol, two inbound and one outbound, and one outbound stream
    of the status protocol. *)
Definition sampleConns : list (list Stream) :=
  [[mkStream "/awl/0.1.0/tunnel" DirInbound;
    mkStream "/awl/0.1.0/status" DirOutbound];
   [];
   [mkStream "/awl/0.1.0/tunnel" DirInbound;
    mkStream "/awl/0.1.0/tunnel" DirOutbound]].


(** * Properties *)

(** ** Slices and the backing array *)

Lemma maxContentSize_eq : maxContentSize = 3500 + 3500.
Proof. reflexivity. Qed.

#[global] Opaque maxContentSize.

Lemma index_Some_len buf s i b : index buf s i = Some b → i < len s.
Proof. unfold index. case_decide; [done|discriminate]. Qed.

Lemma index_is_Some buf s i :
  length buf = maxContentSize → slice_wf s → i < len s →
  is_Some (index buf s i).
Proof.
  intros Hl Hs Hi. unfold index. rewrite decide_True by done.
  apply lookup_lt_is_Some. destruct s as [|o l c]; simpl in *; lia.
Qed.

Lemma slice3_Some s lo hi :
  lo ≤ hi → hi ≤ cap s →
  slice3 s lo hi =
    Some (match s with
          | Nil => Nil
          | Slice o _ c => Slice (o + lo) (hi - lo) (c - lo)
          end).
Proof. intros. unfold slice3. by rewrite decide_True. Qed.

Lemma slice3_None s lo hi : ¬ (lo ≤ hi ∧ hi ≤ cap s) → slice3 s lo hi = None.
Proof. intros. unfold slice3. by rewrite decide_False. Qed.

Lemma arraySlice_wf lo hi t : arraySlice lo hi = Some t → slice_wf t.
Proof.
  unfold arraySlice. case_decide; [|discriminate]. intros [= <-]. simpl. lia.
Qed.

Lemma lookup_bytesOf buf s i :
  bytesOf buf s !! i = if decide (i < len s) then buf !! (off s + i) else None.
Proof. unfold bytesOf. by rewrite lookup_take, lookup_drop. Qed.

Lemma bytesOf_sub buf o l c lo n :
  lo + n ≤ l →
  bytesOf buf (Slice (o + lo) n (c - lo)) =
    take n (drop lo (bytesOf buf (Slice o l c))).
Proof.
  intros. apply list_eq. intros i.
  rewrite lookup_take, lookup_drop, !lookup_bytesOf. simpl.
  repeat case_decide; try lia; try done. f_equal. lia.
Qed.

(** ** Parse *)

Lemma Parse_unfold data b0 :
  index (Buffer data) (PacketS data) 0 = Some b0 →
  len (PacketS data) ≤ cap (PacketS data) →
  Parse data =
    let packet := PacketS data in
    if decide (Z.shiftr b0 4 = 4)%Z then
      if decide (len packet < 20) then Some (false, data)
      else Some (true, mkPacket (Buffer data) packet
                         (Slice (off packet + 12) 4 (cap packet - 12))
                         (Slice (off packet + 16) 4 (cap packet - 16)) false)
    else if decide (Z.shiftr b0 4 = 6)%Z then
      if decide (len packet < 40) then Some (false, data)
      else Some (true, mkPacket (Buffer data) packet
                         (Slice (off packet + 8) 16 (cap packet - 8))
                         (Slice (off packet + 24) 16 (cap packet - 24)) true)
    else Some (false, data).
Proof.
  intros Hb Hc. apply index_Some_len in Hb as Hl.
  unfold Parse. rewrite Hb. simpl.
  unfold ipv4_Version, ipv6_Version, ipv4_HeaderLen, ipv6_HeaderLen,
    IPv4offsetDst, IPv6offsetDst, IPv4offsetSrc, IPv6offsetSrc,
    net_IPv4len, net_IPv6len.
  destruct (PacketS data) as [|o l c]; simpl in *; [lia|].
  repeat case_decide; try done.
  - rewrite !slice3_Some by (simpl; lia). done.
  - rewrite !slice3_Some by (simpl; lia). done.
Qed.

(** C4: [Parse] takes the top nibble of byte 0 as the version.  Version 4
    needs 20 bytes and sets [Src = packet[12:16]], [Dst = packet[16:20]],
    [IsIPv6 = false]; version 6 needs 40 bytes and sets
    [Src = packet[8:24]], [Dst = packet[24:40]], [IsIPv6 = true]; any other
    version fails; a packet of exactly one byte always fails. *)
Theorem Parse_spec (data : Packet) (b0 : Z) :
  index (Buffer data) (PacketS data) 0 = Some b0 →
  len (PacketS data) ≤ cap (PacketS data) →
  let packet := PacketS data in
  let version := Z.shiftr b0 4 in
  let bytes := bytesOf (Buffer data) in
  (version = 4%Z → 20 ≤ len packet →
     ∃ src dst,
       Parse data = Some (true, mkPacket (Buffer data) packet src dst false) ∧
       src = Slice (off packet + 12) 4 (cap packet - 12) ∧
       dst = Slice (off packet + 16) 4 (cap packet - 16) ∧
       bytes src = take 4 (drop 12 (bytes packet)) ∧
       bytes dst = take 4 (drop 16 (bytes packet))) ∧
  (version = 4%Z → len packet < 20 → Parse data = Some (false, data)) ∧
  (version = 6%Z → 40 ≤ len packet →
     ∃ src dst,
       Parse data = Some (true, mkPacket (Buffer data) packet src dst true) ∧
       src = Slice (off packet + 8) 16 (cap packet - 8) ∧
       dst = Slice (off packet + 24) 16 (cap packet - 24) ∧
       bytes src = take 16 (drop 8 (bytes packet)) ∧
       bytes dst = take 16 (drop 24 (bytes packet))) ∧
  (version = 6%Z → len packet < 40 → Parse data = Some (false, data)) ∧
  (version ≠ 4%Z → version ≠ 6%Z → Parse data = Some (false, data)) ∧
  (len packet = 1 → Parse data = Some (false, data)).
Proof.
  intros Hb Hc packet version bytes.
  pose proof (Parse_unfold data b0 Hb Hc) as HP. simpl in HP.
  fold packet version in HP.
  assert (0 < len packet) as Hpos by (by eapply index_Some_len).
  assert (Hsub : ∀ lo n, lo + n ≤ len packet →
            bytes (Slice (off packet + lo) n (cap packet - lo)) =
            take n (drop lo (bytes packet))).
  { intros lo n Hlo. subst bytes.
    destruct packet as [|o l c] eqn:E; simpl in *; [lia|].
    by apply bytesOf_sub. }
  repeat split.
  - intros Hv Hl. do 2 eexists. rewrite HP.
    rewrite decide_True by done. rewrite decide_False by lia.
    repeat split; apply Hsub; lia.
  - intros Hv Hl. rewrite HP. rewrite decide_True by done.
    by rewrite decide_True by lia.
  - intros Hv Hl. do 2 eexists. rewrite HP.
    rewrite decide_False by lia. rewrite decide_True by done.
    rewrite decide_False by lia.
    repeat split; apply Hsub; lia.
  - intros Hv Hl. rewrite HP. rewrite decide_False by lia.
    rewrite decide_True by done. by rewrite decide_True by lia.
  - intros H4 H6. rewrite HP. by rewrite !decide_False by done.
  - intros H1. rewrite HP. repeat case_decide; try done; lia.
Qed.

Lemma Parse_empty (data : Packet) : len (PacketS data) = 0 → Parse data = None.
Proof.
  intros H. unfold Parse, index.
  destruct (decide (0 < len (PacketS data))); [lia|done].
Qed.

Lemma Parse_nonempty (data : Packet) :
  wf_packet data → 0 < len (PacketS data) → is_Some (Parse data).
Proof.
  intros [Hl _ Hs _ _] Hpos.
  destruct (index_is_Some (Buffer data) (PacketS data) 0 Hl Hs Hpos) as [b0 Hb].
  rewrite (Parse_unfold data b0 Hb).
  - simpl. repeat case_decide; eauto.
  - destruct (PacketS data); simpl in *; lia.
Qed.

Lemma ReadFrom_eof (data : Packet) :
  ReadFrom data [mkStreamRead [] (Some io_EOF)] =
    Some (withPacket data (Slice 4 0 (maxContentSize - 4)), 0%Z, None).
Proof.
  unfold ReadFrom, ReadFrom_loop, arraySlice, tunPacketOffset. simpl.
  pose proof maxContentSize_eq.
  rewrite !decide_True by lia. simpl.
  unfold copy, withBuffer, withPacket. simpl. by destruct data.
Qed.

(** C10: [Parse] reads byte 0 of the packet before any test of its length:
    on an empty packet view the access is out of range and the call panics.
    [ReadFrom] produces exactly such a view from a stream that ends at once.
    The length tests come after the version dispatch, so a packet of at
    least one byte never panics. *)
Theorem Parse_needs_nonempty (data : Packet) :
  (len (PacketS data) = 0 → Parse data = None) ∧
  (∃ data',
     ReadFrom data [mkStreamRead [] (Some io_EOF)] = Some (data', 0%Z, None) ∧
     len (PacketS data') = 0 ∧ Parse data' = None) ∧
  (wf_packet data → (Parse data = None ↔ len (PacketS data) = 0)).
Proof.
  split; [apply Parse_empty|]. split.
  - eexists. split; [apply ReadFrom_eof|]. split; [done|].
    by apply Parse_empty.
  - intros Hwf. split; [|apply Parse_empty].
    intros HN. destruct (decide (len (PacketS data) = 0)) as [|Hne]; [done|].
    destruct (Parse_nonempty data Hwf) as [r Hr]; [lia|congruence].
Qed.

(** ** Machine arithmetic *)

Local Open Scope Z_scope.

Lemma u32_small z : 0 ≤ z < 2 ^ 32 → u32 z = z.
Proof. intros. unfold u32. by apply Z.mod_small. Qed.

Lemma add32_exact a b : 0 ≤ a → 0 ≤ b → a + b < 2 ^ 32 → add32 a b = a + b.
Proof. intros. unfold add32. apply u32_small. lia. Qed.

Lemma shl32_byte b : is_byte b → shl32 b 8 = b * 256.
Proof.
  intros [??]. unfold shl32. rewrite Z.shiftl_mul_pow2 by lia.
  apply u32_small. lia.
Qed.

Lemma shiftl8 b : Z.shiftl b 8 = b * 256.
Proof. by rewrite Z.shiftl_mul_pow2 by lia. Qed.

Lemma lor_word b0 b1 :
  is_byte b0 → is_byte b1 → Z.lor b1 (Z.shiftl b0 8) = b0 * 256 + b1.
Proof.
  intros [??] [??].
  assert (Z.land b1 (Z.shiftl b0 8) = 0) as Hdisj.
  { rewrite <- (Z.mod_small b1 (2 ^ 8)) by lia.
    rewrite <- Z.land_ones by lia.
    rewrite <- Z.land_assoc, (Z.land_comm (Z.ones 8)), Z.land_ones by lia.
    rewrite Z.shiftl_mul_pow2 by lia.
    rewrite Z.mod_mul by lia. apply Z.land_0_r. }
  rewrite <- Z.lxor_lor, <- Z.add_nocarry_lxor by done.
  rewrite shiftl8. lia.
Qed.

Lemma not16_small x : 0 ≤ x ≤ 0xffff → not16 x = 0xffff - x.
Proof.
  intros. unfold not16, u16. rewrite Z.mod_small by lia.
  transitivity (Z.land (Z.lnot x) (Z.ones 16)).
  - rewrite <- (Z.mod_small x (2 ^ 16)) at 1 by lia.
    rewrite <- Z.land_ones by lia.
    change 65535 with (Z.ones 16).
    apply Z.bits_inj'. intros n Hn.
    rewrite Z.lxor_spec, !Z.land_spec, Z.lnot_spec by lia.
    by destruct (Z.testbit x n), (Z.testbit (Z.ones 16) n).
  - rewrite Z.land_ones by lia. unfold Z.lnot. symmetry.
    apply (Z.mod_unique_pos _ _ (-1)); lia.
Qed.

(** One round of the carry fold. *)
Lemma foldRound v :
  0 ≤ v →
  Z.shiftr v 16 + Z.land v 0xffff = v `div` 65536 + v `mod` 65536.
Proof.
  intros. rewrite Z.shiftr_div_pow2 by lia.
  change 65535 with (Z.ones 16). by rewrite Z.land_ones by lia.
Qed.

Lemma foldHalves_eq v :
  RFC1071.foldHalves v =
    if decide (0xffff < v) then
      RFC1071.foldHalves (Z.shiftr v 16 + Z.land v 0xffff)
    else v.
Proof.
  rewrite RFC1071.foldHalves_equation_1.
  destruct (decide (65535 < v)); reflexivity.
Qed.

Lemma foldCarries_foldHalves fuel v :
  0 ≤ v < 2 ^ 32 → foldCarries fuel v ≤ 0xffff →
  foldCarries fuel v = RFC1071.foldHalves v.
Proof.
  revert v. induction fuel as [|fuel IH]; intros v Hv; simpl.
  - intros. rewrite foldHalves_eq. by rewrite decide_False by lia.
  - rewrite (foldHalves_eq v).
    destruct (decide (v > 65535)) as [Hgt|Hle].
    + rewrite decide_True by lia.
      assert (0 ≤ v `div` 65536 < 65536).
      { split; [apply Z.div_pos; lia|apply Z.div_lt_upper_bound; lia]. }
      pose proof (Z.mod_pos_bound v 65536 ltac:(lia)).
      rewrite add32_exact.
      * apply IH. rewrite foldRound by lia. lia.
      * apply Z.shiftr_nonneg. lia.
      * apply Z.land_nonneg. lia.
      * rewrite foldRound by lia. lia.
    + by rewrite decide_False by lia.
Qed.

(** The fuel of the fold loop is never used up: after two rounds a
    [uint32] is below [0x10000], where the loop stops. *)
Lemma foldCarries_exits fuel v :
  0 ≤ v < 2 ^ 32 → (2 ≤ fuel)%nat → 0 ≤ foldCarries fuel v ≤ 0xffff.
Proof.
  intros Hv Hf. destruct fuel as [|[|fuel]]; [lia|lia|]. simpl.
  destruct (decide (v > 65535)) as [Hgt|]; [|lia].
  assert (0 ≤ v `div` 65536 < 65536).
  { split; [apply Z.div_pos; lia|apply Z.div_lt_upper_bound; lia]. }
  pose proof (Z.mod_pos_bound v 65536 ltac:(lia)).
  rewrite add32_exact;
    [|by apply Z.shiftr_nonneg; lia|by apply Z.land_nonneg; lia
     |rewrite foldRound by lia; lia].
  rewrite foldRound by lia.
  set (w := v `div` 65536 + v `mod` 65536) in *.
  assert (0 ≤ w ≤ 131070) by (subst w; lia).
  destruct (decide (w > 65535)) as [Hw|]; [|lia].
  assert (w `div` 65536 = 1).
  { symmetry. apply (Z.div_unique w 65536 1 (w - 65536)); lia. }
  assert (w `mod` 65536 = w - 65536).
  { symmetry. apply (Z.mod_unique w 65536 1 (w - 65536)); lia. }
  rewrite add32_exact;
    [|by apply Z.shiftr_nonneg; lia|by apply Z.land_nonneg; lia
     |rewrite foldRound by lia; lia].
  rewrite foldRound by lia.
  destruct fuel; simpl; [lia|]. rewrite decide_False by lia. lia.
Qed.

Lemma fold_refines v :
  0 ≤ v < 2 ^ 32 →
  not16 (foldCarries foldFuel v) =
    RFC1071.onesComplement (RFC1071.foldHalves v).
Proof.
  intros Hv.
  assert (2 ≤ foldFuel)%nat as Hf by (unfold foldFuel; lia).
  pose proof (foldCarries_exits foldFuel v Hv Hf).
  rewrite not16_small by done.
  rewrite foldCarries_foldHalves by (done || lia). done.
Qed.

(** ** The word sums *)

Lemma list_pair_ind {A} (P : list A → Prop) :
  P [] → (∀ a, P [a]) → (∀ a b l, P l → P (a :: b :: l)) → ∀ l, P l.
Proof.
  intros H0 H1 H2 l.
  assert (P l ∧ ∀ a, P (a :: l)) as [? _]; [|done].
  induction l as [|b l [IHl IHl']]; [by split|].
  split; [apply IHl'|]. intros a. by apply H2.
Qed.

Lemma trailingByte_cons2 a b data v :
  trailingByte (a :: b :: data) v = trailingByte data v.
Proof.
  unfold trailingByte.
  replace (length (a :: b :: data) mod 2)%nat with (length data mod 2)%nat.
  2:{ simpl length. change (S (S (length data))) with (2 + length data)%nat.
      rewrite <- (Nat.Div0.add_mod_idemp_l 2). done. }
  case_decide as Hodd; [|done].
  destruct data as [|c data]; [done|].
  simpl length. replace (S (S (S (length data))) - 1)%nat
    with (S (S (length data))) by lia.
  replace (S (length data) - 1)%nat with (length data) by lia. done.
Qed.

Lemma wordSum_bounds data :
  Forall is_byte data →
  0 ≤ RFC1071.wordSum data ≤ 32768 * (Z.of_nat (length data) + 1).
Proof.
  induction data as [| a | a b data IH] using list_pair_ind; intros Hb.
  - simpl. lia.
  - apply Forall_cons in Hb as [[??] _]. simpl RFC1071.wordSum.
    rewrite shiftl8. simpl length. lia.
  - apply Forall_cons in Hb as [[??] Hb].
    apply Forall_cons in Hb as [[??] Hb]. specialize (IH Hb).
    change (RFC1071.wordSum (a :: b :: data))
      with (Z.shiftl a 8 + b + RFC1071.wordSum data).
    rewrite shiftl8. simpl length. lia.
Qed.

Lemma headerWords_sum data v :
  Forall is_byte data → 0 ≤ v → v + RFC1071.wordSum data < 2 ^ 32 →
  trailingByte data (headerWords data v) = v + RFC1071.wordSum data.
Proof.
  revert v. induction data as [| a | a b data IH] using list_pair_ind;
    intros v Hb Hv Hsum.
  - simpl. unfold trailingByte. simpl. lia.
  - apply Forall_cons in Hb as [Ha _]. simpl in *.
    unfold trailingByte. simpl. rewrite shiftl8 in Hsum.
    rewrite shl32_byte, shiftl8 by done. destruct Ha.
    rewrite add32_exact; lia.
  - apply Forall_cons in Hb as [Ha Hb].
    apply Forall_cons in Hb as [Hb' Hb].
    pose proof (wordSum_bounds data Hb).
    change (RFC1071.wordSum (a :: b :: data))
      with (Z.shiftl a 8 + b + RFC1071.wordSum data) in *.
    rewrite shiftl8 in *. rewrite trailingByte_cons2.
    simpl headerWords. rewrite lor_word by done.
    destruct Ha, Hb'.
    rewrite add32_exact by lia. rewrite IH by (done || lia). lia.
Qed.

Lemma tcpipWords_sum data v :
  Forall is_byte data → 0 ≤ v → v + RFC1071.wordSum data < 2 ^ 32 →
  trailingByte data (tcpipWords data v) = v + RFC1071.wordSum data.
Proof.
  revert v. induction data as [| a | a b data IH] using list_pair_ind;
    intros v Hb Hv Hsum.
  - simpl. unfold trailingByte. simpl. lia.
  - apply Forall_cons in Hb as [Ha _]. simpl in *.
    unfold trailingByte. simpl. rewrite shiftl8 in Hsum.
    rewrite shl32_byte, shiftl8 by done. destruct Ha.
    rewrite add32_exact; lia.
  - apply Forall_cons in Hb as [Ha Hb].
    apply Forall_cons in Hb as [Hb' Hb].
    pose proof (wordSum_bounds data Hb).
    change (RFC1071.wordSum (a :: b :: data))
      with (Z.shiftl a 8 + b + RFC1071.wordSum data) in *.
    rewrite shiftl8 in *. rewrite trailingByte_cons2.
    simpl tcpipWords. rewrite shl32_byte by done.
    destruct Ha, Hb'.
    rewrite (add32_exact v) by lia. rewrite add32_exact by lia.
    rewrite IH by (done || lia). lia.
Qed.

Lemma tcpipChecksum_eq data csum :
  tcpipChecksum data csum =
    not16 (foldCarries foldFuel (trailingByte data (tcpipWords data csum))).
Proof. reflexivity. Qed.

Lemma checksumIPv4Header_eq buf :
  checksumIPv4Header buf =
    not16 (foldCarries foldFuel (trailingByte buf (headerWords buf 0))).
Proof. reflexivity. Qed.

Lemma checksumIPv4Header_refines (buf : list Z) :
  Forall is_byte buf → Z.of_nat (length buf) ≤ 65535 →
  checksumIPv4Header buf = RFC1071.ipv4_header_checksum buf.
Proof.
  intros Hb Hl. pose proof (wordSum_bounds buf Hb).
  rewrite checksumIPv4Header_eq. unfold RFC1071.ipv4_header_checksum.
  rewrite headerWords_sum by (done || lia).
  rewrite fold_refines by lia. done.
Qed.

Lemma shl32_small a : 0 ≤ a → a * 256 < 2 ^ 32 → shl32 a 8 = a * 256.
Proof. intros. unfold shl32. rewrite shiftl8. apply u32_small. lia. Qed.

Lemma wordSum_pseudoHeader s0 s1 s2 s3 d0 d1 d2 d3 protocol l4len :
  0 ≤ l4len →
  RFC1071.wordSum
    (RFC1071.pseudoHeader [s0; s1; s2; s3] [d0; d1; d2; d3] protocol l4len) =
  (s0 + s2) * 256 + (s1 + s3) + (d0 + d2) * 256 + (d1 + d3) + protocol + l4len.
Proof.
  intros. unfold RFC1071.pseudoHeader. simpl. rewrite !shiftl8.
  rewrite Z.shiftr_div_pow2 by lia. change 255 with (Z.ones 8).
  rewrite Z.land_ones by lia. change (2 ^ 8) with 256.
  pose proof (Z.div_mod l4len 256 ltac:(lia)). lia.
Qed.

(** C2 (as amended): for at most 65535 L4 bytes (what the 16-bit length
    field of the pseudo-header can state), a protocol octet and two
    four-octet addresses, [checksumIPv4TCPUDP] returns the one's complement
    of the folded RFC 1071 sum of the pseudo-header (src, dst,
    0x00 || protocol, L4 length) and of the L4 bytes. *)
Theorem checksumIPv4TCPUDP_refines (headerAndPayload : list Z) (protocol : Z)
    (srcIP dstIP : list Z) :
  Forall is_byte headerAndPayload →
  Z.of_nat (length headerAndPayload) ≤ 65535 →
  0 ≤ protocol ≤ 255 →
  length srcIP = 4%nat → Forall is_byte srcIP →
  length dstIP = 4%nat → Forall is_byte dstIP →
  checksumIPv4TCPUDP headerAndPayload protocol srcIP dstIP =
    Some (RFC1071.ipv4_l4_checksum headerAndPayload protocol srcIP dstIP).
Proof.
  intros Hb Hlen Hp Hls Hs Hld Hd.
  destruct srcIP as [|s0 [|s1 [|s2 [|s3 [|]]]]]; try discriminate.
  destruct dstIP as [|d0 [|d1 [|d2 [|d3 [|]]]]]; try discriminate.
  repeat match goal with
         | H : Forall is_byte (_ :: _) |- _ => apply Forall_cons in H as [[??] H]
         end.
  pose proof (wordSum_bounds headerAndPayload Hb) as Hw.
  set (n := Z.of_nat (length headerAndPayload)) in *.
  unfold checksumIPv4TCPUDP, RFC1071.ipv4_l4_checksum.
  fold n. rewrite wordSum_pseudoHeader by lia.
  change ([s0; s1; s2; s3] !! 0%nat) with (Some s0).
  change ([s0; s1; s2; s3] !! 1%nat) with (Some s1).
  change ([s0; s1; s2; s3] !! 2%nat) with (Some s2).
  change ([s0; s1; s2; s3] !! 3%nat) with (Some s3).
  change ([d0; d1; d2; d3] !! 0%nat) with (Some d0).
  change ([d0; d1; d2; d3] !! 1%nat) with (Some d1).
  change ([d0; d1; d2; d3] !! 2%nat) with (Some d2).
  change ([d0; d1; d2; d3] !! 3%nat) with (Some d3).
  cbn [mbind option_bind].
  rewrite (u32_small n) by lia.
  change 65535 with (Z.ones 16). rewrite Z.land_ones by lia.
  rewrite (Z.mod_small n) by lia.
  rewrite Z.shiftr_div_pow2, (Z.div_small n) by lia.
  rewrite (add32_exact s0 s2), (add32_exact s1 s3),
    (add32_exact d0 d2), (add32_exact d1 d3) by lia.
  rewrite !shl32_small by lia.
  repeat match goal with
         | |- context [add32 ?a ?b] => rewrite (add32_exact a b) by lia
         end.
  rewrite tcpipChecksum_eq.
  rewrite tcpipWords_sum by (done || lia).
  rewrite fold_refines by lia. do 3 f_equal. lia.
Qed.

Local Close Scope Z_scope.

(** ** Two-byte stores into the backing array *)

Lemma length_write2 buf i x y : length (write2 buf i x y) = length buf.
Proof. unfold write2. by rewrite !length_insert. Qed.

Lemma lookup_write2_ne buf i x y j :
  j ≠ i → j ≠ i + 1 → write2 buf i x y !! j = buf !! j.
Proof.
  intros. unfold write2. by rewrite !list_lookup_insert_ne by lia.
Qed.

Lemma lookup_write2_0 buf i x y :
  i < length buf → write2 buf i x y !! i = Some x.
Proof.
  intros. unfold write2. rewrite list_lookup_insert_ne by lia.
  by apply list_lookup_insert_eq.
Qed.

Lemma lookup_write2_1 buf i x y :
  i + 1 < length buf → write2 buf i x y !! (i + 1) = Some y.
Proof.
  intros. unfold write2. apply list_lookup_insert_eq.
  rewrite length_insert. lia.
Qed.

Lemma write2_write2_eq buf i x y x' y' :
  write2 (write2 buf i x y) i x' y' = write2 buf i x' y'.
Proof.
  unfold write2. apply list_eq. intros k.
  rewrite !list_lookup_insert, !length_insert.
  repeat case_decide; done || lia.
Qed.

Lemma write2_write2_ne buf i j x y x' y' :
  i + 2 ≤ j ∨ j + 2 ≤ i →
  write2 (write2 buf i x y) j x' y' = write2 (write2 buf j x' y') i x y.
Proof.
  intros. unfold write2. apply list_eq. intros k.
  rewrite !list_lookup_insert, !length_insert.
  repeat case_decide; done || lia.
Qed.

Lemma Forall_write2 buf i x y :
  Forall is_byte buf → is_byte x → is_byte y → Forall is_byte (write2 buf i x y).
Proof. intros. unfold write2. by repeat apply Forall_insert. Qed.

Lemma copy_zero2 buf s :
  2 ≤ len s → copy buf s [0; 0]%Z = write2 buf (off s) 0 0.
Proof.
  intros. unfold copy, write2.
  destruct (len s) as [|[|n]]; [lia|lia|]. simpl. rewrite take_nil. simpl.
  apply list_eq. intros k.
  rewrite !list_lookup_insert, !length_insert.
  repeat case_decide; done || lia.
Qed.

Lemma PutUint16_write2 buf s v :
  2 ≤ len s →
  PutUint16 buf s v =
    Some (write2 buf (off s) (u8 (Z.shiftr v 8)) (u8 v)).
Proof. intros. unfold PutUint16. by rewrite decide_True. Qed.

Lemma PutUint16_None buf s v : len s < 2 → PutUint16 buf s v = None.
Proof. intros. unfold PutUint16. by rewrite decide_False by lia. Qed.

Lemma bytesOf_ext b1 b2 s :
  (∀ i, i < len s → b1 !! (off s + i) = b2 !! (off s + i)) →
  bytesOf b1 s = bytesOf b2 s.
Proof.
  intros H. apply list_eq. intros i. rewrite !lookup_bytesOf.
  case_decide; auto.
Qed.

Lemma bytesOf_write2_disjoint buf i x y s :
  i + 2 ≤ off s ∨ off s + len s ≤ i →
  bytesOf (write2 buf i x y) s = bytesOf buf s.
Proof.
  intros. apply bytesOf_ext. intros j Hj.
  apply lookup_write2_ne; lia.
Qed.

Lemma bytesOf_write2_field buf i x y c :
  i + 2 ≤ length buf → bytesOf (write2 buf i x y) (Slice i 2 c) = [x; y].
Proof.
  intros. apply list_eq. intros j. rewrite lookup_bytesOf. simpl.
  destruct j as [|[|j]]; simpl.
  - rewrite Nat.add_0_r. apply lookup_write2_0. lia.
  - apply lookup_write2_1. lia.
  - done.
Qed.

Lemma length_bytesOf buf s :
  off s + len s ≤ length buf → length (bytesOf buf s) = len s.
Proof.
  intros. unfold bytesOf. rewrite length_take, length_drop. lia.
Qed.

Lemma Forall_bytesOf buf s : Forall is_byte buf → Forall is_byte (bytesOf buf s).
Proof. intros. unfold bytesOf. by apply Forall_take, Forall_drop. Qed.

(** ** RecalculateChecksum, flattened

    With the packet view [Slice o l c] made explicit, every reslice of
    [RecalculateChecksum] becomes a comparison of offsets and every store a
    [write2] into the backing array. *)

Lemma recalcL4_flat data o l c buf ihl protocol ft :
  PacketS data = Slice o l c → l ≤ c →
  recalcL4 data buf ihl protocol ft = l4Flat data o l c buf ihl protocol ft.
Proof.
  intros HP Hlc. unfold recalcL4, l4Flat, sliceFrom. rewrite HP. simpl.
  destruct (decide (ft + 2 ≤ l ∧ ihl ≤ l)) as [[H2 Hihl]|Hno].
  - rewrite (slice3_Some (Slice o l c) ft l) by (simpl; lia).
    rewrite (slice3_Some (Slice o l c) ihl l) by (simpl; lia). simpl.
    rewrite copy_zero2 by (simpl; lia). simpl.
    destruct (checksumIPv4TCPUDP _ _ _ _) as [checksum|]; [|done]. simpl.
    rewrite PutUint16_write2 by (simpl; lia). done.
  - destruct (decide (ft ≤ l)) as [Hft|Hft].
    2:{ rewrite (slice3_None (Slice o l c) ft l) by (simpl; lia). done. }
    rewrite (slice3_Some (Slice o l c) ft l) by (simpl; lia). simpl.
    destruct (decide (ihl ≤ l)) as [Hihl|Hihl].
    2:{ rewrite (slice3_None (Slice o l c) ihl l) by (simpl; lia). done. }
    rewrite (slice3_Some (Slice o l c) ihl l) by (simpl; lia). simpl.
    destruct (checksumIPv4TCPUDP _ _ _ _) as [checksum|]; [|done]. simpl.
    rewrite PutUint16_None by (simpl; lia). done.
Qed.

Lemma RecalculateChecksum_flat data o l c :
  IsIPv6 data = false → PacketS data = Slice o l c → l ≤ c →
  RecalculateChecksum data = rcFlat data o l c.
Proof.
  intros H6 HP Hlc. unfold RecalculateChecksum, rcFlat.
  rewrite H6, HP. unfold index, sliceFrom, sliceTo, ipv4offsetChecksum. simpl.
  rewrite Nat.add_0_r.
  destruct (decide (0 < l)) as [H0|H0].
  2:{ destruct (Buffer data !! o); [|done]. simpl.
      by rewrite decide_False by lia. }
  destruct (Buffer data !! o) as [b0|]; [|done]. simpl.
  fold (ihlOf b0).
  destruct (decide (12 ≤ l ∧ ihlOf b0 ≤ c)) as [[H12 Hihl]|Hno].
  - rewrite (slice3_Some (Slice o l c) 10 l) by (simpl; lia).
    rewrite (slice3_Some (Slice o l c) 0 (ihlOf b0)) by (simpl; lia). simpl.
    rewrite Nat.add_0_r, !Nat.sub_0_r.
    rewrite copy_zero2 by (simpl; lia).
    rewrite PutUint16_write2 by (simpl; lia). simpl.
    rewrite (decide_True (P := 9 < l)) by lia.
    destruct (_ !! (o + 9)) as [protocol|]; [|done]. simpl.
    unfold IPProtocolTCP, IPProtocolUDP.
    repeat case_decide; try done; by apply recalcL4_flat.
  - destruct (decide (10 ≤ l)) as [H10|H10].
    2:{ rewrite (slice3_None (Slice o l c) 10 l) by (simpl; lia). done. }
    rewrite (slice3_Some (Slice o l c) 10 l) by (simpl; lia). simpl.
    destruct (decide (ihlOf b0 ≤ c)) as [Hihl|Hihl].
    2:{ rewrite (slice3_None (Slice o l c) 0 (ihlOf b0)) by (simpl; lia). done. }
    rewrite (slice3_Some (Slice o l c) 0 (ihlOf b0)) by (simpl; lia). simpl.
    rewrite PutUint16_None by (simpl; lia). done.
Qed.

Lemma ihlOf_spec b0 : ∃ k, ihlOf b0 = 4 * k ∧ k ≤ 15.
Proof.
  unfold ihlOf. change 15%Z with (Z.ones 4).
  rewrite Z.land_ones, Z.shiftl_mul_pow2 by lia.
  pose proof (Z.mod_pos_bound b0 (2 ^ 4) ltac:(lia)).
  exists (Z.to_nat (b0 `mod` 2 ^ 4)). split; lia.
Qed.

(** What a successful run of the transport branch leaves in the buffer. *)
Lemma l4Flat_Some data o l c buf ihl protocol ft d1 :
  l4Flat data o l c buf ihl protocol ft = Some d1 →
  ft + 2 ≤ l ∧ ihl ≤ l ∧
  ∃ t,
    checksumIPv4TCPUDP
      (bytesOf (write2 buf (o + ft) 0 0) (Slice (o + ihl) (l - ihl) (c - ihl)))
      (u32 protocol)
      (bytesOf (write2 buf (o + ft) 0 0) (Src data))
      (bytesOf (write2 buf (o + ft) 0 0) (Dst data)) = Some t ∧
    d1 = withBuffer data (write2 buf (o + ft) (u8 (Z.shiftr t 8)) (u8 t)).
Proof.
  unfold l4Flat. case_decide as Hc; [|done]. destruct Hc.
  destruct (checksumIPv4TCPUDP _ _ _ _) as [t|] eqn:Ht; [|done].
  simpl. intros [= <-]. repeat split; try done.
  exists t. split; [done|]. by rewrite write2_write2_eq.
Qed.

Lemma l4Flat_intro data o l c buf ihl protocol ft t :
  ft + 2 ≤ l → ihl ≤ l →
  checksumIPv4TCPUDP
    (bytesOf (write2 buf (o + ft) 0 0) (Slice (o + ihl) (l - ihl) (c - ihl)))
    (u32 protocol)
    (bytesOf (write2 buf (o + ft) 0 0) (Src data))
    (bytesOf (write2 buf (o + ft) 0 0) (Dst data)) = Some t →
  l4Flat data o l c buf ihl protocol ft =
    Some (withBuffer data (write2 buf (o + ft) (u8 (Z.shiftr t 8)) (u8 t))).
Proof.
  intros ?? Ht. unfold l4Flat. rewrite decide_True by done.
  rewrite Ht. simpl. by rewrite write2_write2_eq.
Qed.

(** Running the transport branch on its own result changes nothing. *)
Lemma l4Flat_idem data o l c buf ihl protocol ft d1 :
  l4Flat data o l c buf ihl protocol ft = Some d1 →
  l4Flat d1 o l c (Buffer d1) ihl protocol ft = Some d1.
Proof.
  intros H. apply l4Flat_Some in H as (? & ? & t & Ht & ->).
  erewrite l4Flat_intro; [|done|done|].
  - unfold withBuffer. simpl. by rewrite write2_write2_eq.
  - simpl. rewrite !write2_write2_eq. exact Ht.
Qed.

Lemma l4Flat_withBuffer data B o l c buf ihl protocol ft :
  l4Flat (withBuffer data B) o l c buf ihl protocol ft =
  l4Flat data o l c buf ihl protocol ft.
Proof. reflexivity. Qed.

(** The two cases of a successful [rcFlat]: no transport checksum, or the
    transport branch at offset [ft]. *)
Lemma rcFlat_Some data o l c d1 :
  rcFlat data o l c = Some d1 →
  ∃ b0 protocol,
    Buffer data !! o = Some b0 ∧ 12 ≤ l ∧ ihlOf b0 ≤ c ∧
    let ihl := ihlOf b0 in
    let buf1 := write2 (Buffer data) (o + 10) 0 0 in
    let ck := checksumIPv4Header (bytesOf buf1 (Slice o ihl c)) in
    let buf2 := write2 (Buffer data) (o + 10) (u8 (Z.shiftr ck 8)) (u8 ck) in
    buf2 !! (o + 9) = Some protocol ∧
    ((protocol ≠ 6%Z ∧ protocol ≠ 17%Z ∧ d1 = withBuffer data buf2) ∨
     (∃ ft, (protocol = 6%Z ∧ ft = ihl + 16 ∨ protocol = 17%Z ∧ ft = ihl + 6) ∧
            l4Flat data o l c buf2 ihl protocol ft = Some d1)).
Proof.
  unfold rcFlat. destruct (Buffer data !! o) as [b0|] eqn:Hb0; [|done]. simpl.
  case_decide as Hc; [|done]. destruct Hc as [H12 Hihl].
  rewrite write2_write2_eq.
  destruct (_ !! (o + 9)) as [protocol|] eqn:Hp; [|done]. simpl.
  intros H. exists b0, protocol. repeat split; try done.
  repeat case_decide.
  - right. exists (ihlOf b0 + 16). split; [by left|done].
  - right. exists (ihlOf b0 + 6). split; [by right|done].
  - left. by injection H as <-.
Qed.

Lemma rcFlat_intro data o l c b0 protocol :
  Buffer data !! o = Some b0 → 12 ≤ l → ihlOf b0 ≤ c →
  let ihl := ihlOf b0 in
  let buf1 := write2 (Buffer data) (o + 10) 0 0 in
  let ck := checksumIPv4Header (bytesOf buf1 (Slice o ihl c)) in
  let buf2 := write2 (Buffer data) (o + 10) (u8 (Z.shiftr ck 8)) (u8 ck) in
  buf2 !! (o + 9) = Some protocol →
  rcFlat data o l c =
    if decide (protocol = 6%Z) then l4Flat data o l c buf2 ihl protocol (ihl + 16)
    else if decide (protocol = 17%Z) then l4Flat data o l c buf2 ihl protocol (ihl + 6)
    else Some (withBuffer data buf2).
Proof.
  intros Hb0 H12 Hihl ihl buf1 ck buf2 Hp.
  unfold rcFlat. rewrite Hb0. simpl. rewrite decide_True by done.
  rewrite write2_write2_eq. fold ihl buf1 ck buf2. rewrite Hp. done.
Qed.

(** Regenerating the checksums of a packet whose checksums have just been
    regenerated gives the same packet back. *)
Lemma rcFlat_idem data o l c d1 :
  rcFlat data o l c = Some d1 → rcFlat d1 o l c = Some d1.
Proof.
  intros H. apply rcFlat_Some in H as (b0 & protocol & Hb0 & H12 & Hihl & H).
  destruct (ihlOf_spec b0) as (k & Hk & Hk15). cbv zeta in H.
  set (ihl := ihlOf b0) in *.
  set (buf := Buffer data) in *.
  set (buf1 := write2 buf (o + 10) 0 0) in *.
  set (ck := checksumIPv4Header (bytesOf buf1 (Slice o ihl c))) in *.
  set (buf2 := write2 buf (o + 10) (u8 (Z.shiftr ck 8)) (u8 ck)) in *.
  destruct H as [Hp [(Hn6 & Hn17 & ->) | (ft & Hft & HL)]].
  - (* no transport checksum *)
    assert (buf2 !! o = Some b0) as Hb0'.
    { unfold buf2. rewrite lookup_write2_ne by lia. done. }
    assert (write2 buf2 (o + 10) 0 0 = buf1) as Hz.
    { unfold buf2, buf1. by rewrite write2_write2_eq. }
    assert (write2 buf2 (o + 10) (u8 (Z.shiftr ck 8)) (u8 ck) = buf2) as Hw.
    { unfold buf2. by rewrite write2_write2_eq. }
    rewrite (rcFlat_intro (withBuffer data buf2) o l c b0 protocol);
      simpl; try done.
    + rewrite !decide_False by done. fold ihl.
      rewrite Hz. fold ck. by rewrite Hw.
    + fold ihl. rewrite Hz. fold ck. by rewrite Hw.
  - (* transport checksum at offset ft *)
    pose proof HL as HL0.
    apply l4Flat_Some in HL as (Hft2 & Hil & t & Ht & Hd1).
    set (th := u8 (Z.shiftr t 8)) in *. set (tl := u8 t) in *.
    assert (Buffer d1 = write2 buf2 (o + ft) th tl) as HB1 by (by subst d1).
    assert (Buffer d1 !! o = Some b0) as Hb0'.
    { rewrite HB1. unfold buf2. rewrite !lookup_write2_ne by lia. done. }
    assert (bytesOf (write2 (Buffer d1) (o + 10) 0 0) (Slice o ihl c) =
            bytesOf buf1 (Slice o ihl c)) as Hhdr.
    { rewrite HB1. destruct (decide (ft = 10)) as [->|Hne].
      - unfold buf2, buf1. by rewrite !write2_write2_eq.
      - unfold buf2.
        rewrite (write2_write2_ne _ (o + ft) (o + 10)) by lia.
        rewrite write2_write2_eq. fold buf1.
        apply bytesOf_write2_disjoint. simpl. lia. }
    assert (write2 (Buffer d1) (o + 10) (u8 (Z.shiftr ck 8)) (u8 ck) !! (o + 9)
            = Some protocol) as Hp'.
    { rewrite lookup_write2_ne by lia. rewrite HB1.
      rewrite lookup_write2_ne by lia. exact Hp. }
    rewrite (rcFlat_intro d1 o l c b0 protocol); simpl; fold ihl;
      rewrite ?Hhdr; fold ck; try done.
    assert (l4Flat d1 o l c
              (write2 (Buffer d1) (o + 10) (u8 (Z.shiftr ck 8)) (u8 ck))
              ihl protocol ft = Some d1) as Hgoal.
    { destruct (decide (ft = 10)) as [->|Hne].
      - rewrite HB1. unfold buf2 at 1. rewrite !write2_write2_eq.
        fold buf2. subst d1. by rewrite l4Flat_withBuffer.
      - replace (write2 (Buffer d1) (o + 10) (u8 (Z.shiftr ck 8)) (u8 ck))
          with (Buffer d1).
        + by apply (l4Flat_idem data o l c buf2).
        + rewrite HB1. unfold buf2.
          rewrite (write2_write2_ne _ (o + ft) (o + 10)) by lia.
          by rewrite write2_write2_eq. }
    destruct Hft as [[-> ->]|[-> ->]].
    + by rewrite decide_True by done.
    + rewrite decide_False by done. by rewrite decide_True by done.
Qed.

Lemma rcFlat_withBuffer data o l c d1 :
  rcFlat data o l c = Some d1 → ∃ buf, d1 = withBuffer data buf.
Proof.
  intros H. apply rcFlat_Some in H as (b0 & protocol & _ & _ & _ & H).
  cbv zeta in H. destruct H as [_ [(_ & _ & ->) | (ft & _ & HL)]]; [eauto|].
  apply l4Flat_Some in HL as (_ & _ & t & _ & ->). eauto.
Qed.

Lemma RecalculateChecksum_Nil data :
  IsIPv6 data = false → PacketS data = Nil → RecalculateChecksum data = None.
Proof. intros H6 HP. unfold RecalculateChecksum. by rewrite H6, HP. Qed.

(** Whenever [RecalculateChecksum] completes, a second call completes too
    and leaves the packet as the first call left it. *)
Lemma RecalculateChecksum_idem data d1 :
  len (PacketS data) ≤ cap (PacketS data) →
  RecalculateChecksum data = Some d1 → RecalculateChecksum d1 = Some d1.
Proof.
  intros Hlc H. destruct (IsIPv6 data) eqn:H6.
  - unfold RecalculateChecksum in *. rewrite H6 in H. injection H as <-.
    by rewrite H6.
  - destruct (PacketS data) as [|o l c] eqn:HP.
    { by rewrite RecalculateChecksum_Nil in H. }
    simpl in Hlc.
    rewrite (RecalculateChecksum_flat data o l c) in H by done.
    destruct (rcFlat_withBuffer _ _ _ _ _ H) as [buf Hd1].
    rewrite (RecalculateChecksum_flat d1 o l c); [|by subst d1..].
    by apply (rcFlat_idem data).
Qed.

Lemma checksumIPv4TCPUDP_is_Some l4 protocol src dst :
  4 ≤ length src → 4 ≤ length dst →
  is_Some (checksumIPv4TCPUDP l4 protocol src dst).
Proof.
  intros Hs Hd.
  destruct src as [|s0 [|s1 [|s2 [|s3 src]]]]; simpl in Hs; try lia.
  destruct dst as [|d0 [|d1 [|d2 [|d3 dst]]]]; simpl in Hd; try lia.
  unfold checksumIPv4TCPUDP. simpl. eauto.
Qed.

(** [RecalculateChecksum] completes on a packet that holds its header and,
    for TCP and UDP, the checksum field of the transport header, and whose
    address views hold four bytes. *)
Lemma rcFlat_completes data o l c b0 protocol :
  length (Buffer data) = maxContentSize →
  Buffer data !! o = Some b0 → Buffer data !! (o + 9) = Some protocol →
  12 ≤ l → ihlOf b0 ≤ l → l ≤ c →
  (protocol = 6%Z → ihlOf b0 + 18 ≤ l) →
  (protocol = 17%Z → ihlOf b0 + 8 ≤ l) →
  4 ≤ len (Src data) → off (Src data) + len (Src data) ≤ maxContentSize →
  4 ≤ len (Dst data) → off (Dst data) + len (Dst data) ≤ maxContentSize →
  is_Some (rcFlat data o l c).
Proof.
  intros Hlen Hb0 Hp H12 Hihl Hlc Htcp Hudp Hs Hs' Hd Hd'.
  rewrite (rcFlat_intro data o l c b0 protocol); try done; try lia.
  2:{ simpl. by rewrite lookup_write2_ne by lia. }
  assert (∀ ft, ft + 2 ≤ l →
            is_Some (l4Flat data o l c
              (write2 (Buffer data) (o + 10)
                 (u8 (Z.shiftr (checksumIPv4Header (bytesOf
                    (write2 (Buffer data) (o + 10) 0 0)
                    (Slice o (ihlOf b0) c))) 8))
                 (u8 (checksumIPv4Header (bytesOf
                    (write2 (Buffer data) (o + 10) 0 0)
                    (Slice o (ihlOf b0) c)))))
              (ihlOf b0) protocol ft)) as HL.
  { intros ft Hft. unfold l4Flat. rewrite decide_True by lia.
    match goal with |- is_Some (checksumIPv4TCPUDP ?a ?b ?s ?d ≫= _) =>
      destruct (checksumIPv4TCPUDP_is_Some a b s d) as [t Ht] end.
    - rewrite length_bytesOf; [done|]. rewrite !length_write2. lia.
    - rewrite length_bytesOf; [done|]. rewrite !length_write2. lia.
    - rewrite Ht. simpl. eauto. }
  simpl. repeat case_decide; [apply HL; lia..|eauto].
Qed.

Lemma Parse_fixed_ipv4 data :
  len (PacketS data) ≤ cap (PacketS data) →
  Parse data = Some (true, data) → IsIPv6 data = false →
  ∃ o l c b0,
    PacketS data = Slice o l c ∧ 20 ≤ l ∧ l ≤ c ∧
    Buffer data !! o = Some b0 ∧ Z.shiftr b0 4 = 4%Z ∧
    Src data = Slice (o + 12) 4 (c - 12) ∧
    Dst data = Slice (o + 16) 4 (c - 16).
Proof.
  intros Hlc HP H6.
  destruct (index (Buffer data) (PacketS data) 0) as [b0|] eqn:Hb0.
  2:{ unfold Parse in HP. by rewrite Hb0 in HP. }
  rewrite (Parse_unfold data b0 Hb0 Hlc) in HP. simpl in HP.
  apply index_Some_len in Hb0 as Hpos.
  destruct (PacketS data) as [|o l c] eqn:HPS; simpl in *; [lia|].
  unfold index in Hb0. simpl in Hb0. rewrite decide_True in Hb0 by lia.
  rewrite Nat.add_0_r in Hb0.
  exists o, l, c, b0.
  repeat case_decide; try done.
  - injection HP as HP. rewrite <- HP. simpl. repeat split; (done || lia).
  - injection HP as HP. rewrite <- HP in H6. done.
Qed.

(** ** The properties of RecalculateChecksum *)

(** C6: whenever [RecalculateChecksum] completes, a second call returns
    exactly the packet the first call left (same bytes, same views); and it
    does complete on an IPv4 packet that [Parse] has accepted and that holds
    its header and the checksum field of its TCP or UDP header. *)
Theorem RecalculateChecksum_idempotent (data : Packet) :
  len (PacketS data) ≤ cap (PacketS data) →
  (∀ d1, RecalculateChecksum data = Some d1 →
         RecalculateChecksum d1 = Some d1) ∧
  (∀ b0 protocol,
     wf_packet data →
     Parse data = Some (true, data) → IsIPv6 data = false →
     index (Buffer data) (PacketS data) 0 = Some b0 →
     index (Buffer data) (PacketS data) 9 = Some protocol →
     ihlOf b0 ≤ len (PacketS data) →
     (protocol = 6%Z → ihlOf b0 + 18 ≤ len (PacketS data)) →
     (protocol = 17%Z → ihlOf b0 + 8 ≤ len (PacketS data)) →
     ∃ d1,
       RecalculateChecksum data = Some d1 ∧
       RecalculateChecksum d1 = Some d1).
Proof.
  intros Hlc. split; [intros d1; by apply RecalculateChecksum_idem|].
  intros b0 protocol [Hlen _ Hwf _ _] HP H6 Hb0 Hp Hihl Htcp Hudp.
  destruct (Parse_fixed_ipv4 data Hlc HP H6)
    as (o & l & c & b0' & HPS & H20 & _ & Hb0' & _ & HS & HD).
  rewrite HPS in *. simpl in *.
  unfold index in Hb0, Hp. simpl in *.
  rewrite decide_True in Hb0 by lia. rewrite decide_True in Hp by lia.
  rewrite Nat.add_0_r in Hb0.
  destruct (rcFlat_completes data o l c b0 protocol) as [d1 Hd1];
    try done; try lia; try (rewrite ?HS, ?HD; simpl; lia).
  exists d1.
  assert (RecalculateChecksum data = Some d1) as HR.
  { by rewrite (RecalculateChecksum_flat data o l c). }
  split; [done|]. apply (RecalculateChecksum_idem data); [|done].
  rewrite HPS. simpl. lia.
Qed.

(** C3 (as amended): [checksumIPv4Header] is the RFC 1071 checksum of a
    header (of any bytes up to 65535 of them; a header has at most 60), and
    when [RecalculateChecksum] completes on an IPv4 packet, other than one
    with a header length of 4 and protocol 17, whose UDP checksum field is
    the IP checksum field itself, the two bytes at [ipv4offsetChecksum]
    are, most significant first, that checksum of [packet[:ihl]] with those
    two bytes zeroed. *)
Theorem header_checksum_regenerated (buf : list Z) (data d1 : Packet)
    (o l c : nat) (b0 protocol : Z) :
  (Forall is_byte buf → (Z.of_nat (length buf) ≤ 65535)%Z →
     checksumIPv4Header buf = RFC1071.ipv4_header_checksum buf) ∧
  (wf_packet data → IsIPv6 data = false → PacketS data = Slice o l c →
   index (Buffer data) (PacketS data) 0 = Some b0 →
   index (Buffer data) (PacketS data) 9 = Some protocol →
   ¬ (ihlOf b0 = 4 ∧ protocol = 17%Z) →
   RecalculateChecksum data = Some d1 →
   let header :=
     bytesOf (write2 (Buffer d1) (o + ipv4offsetChecksum) 0 0)
       (Slice o (ihlOf b0) c) in
   PacketS d1 = Slice o l c ∧
   sliceTo (PacketS d1) (ihlOf b0) = Some (Slice o (ihlOf b0) c) ∧
   bytesOf (Buffer d1) (Slice (o + ipv4offsetChecksum) 2 (c - ipv4offsetChecksum)) =
     be16 (checksumIPv4Header header) ∧
   checksumIPv4Header header = RFC1071.ipv4_header_checksum header).
Proof.
  split; [apply checksumIPv4Header_refines|].
  intros [Hlen Hbytes Hwf _ _] H6 HPS Hb0 Hp Hnot HR header.
  rewrite HPS in *. simpl in Hwf. destruct Hwf as [Hlc Hoc].
  apply index_Some_len in Hp as H9. simpl in H9.
  unfold index in Hb0, Hp. simpl in *.
  rewrite decide_True in Hb0 by lia. rewrite decide_True in Hp by lia.
  rewrite Nat.add_0_r in Hb0.
  rewrite (RecalculateChecksum_flat data o l c) in HR by done.
  destruct (rcFlat_withBuffer _ _ _ _ _ HR) as [B HB].
  apply rcFlat_Some in HR as (b0' & protocol' & Hb0' & H12 & Hihl & HR).
  cbv zeta in HR. rewrite Hb0 in Hb0'. injection Hb0' as <-.
  destruct (ihlOf_spec b0) as (k & Hk & Hk15).
  unfold ipv4offsetChecksum in *.
  set (ihl := ihlOf b0) in *.
  set (buf1 := write2 (Buffer data) (o + 10) 0 0) in *.
  set (ck := checksumIPv4Header (bytesOf buf1 (Slice o ihl c))) in *.
  set (buf2 := write2 (Buffer data) (o + 10) (u8 (Z.shiftr ck 8)) (u8 ck)) in *.
  destruct HR as [Hp' HR].
  unfold buf2 in Hp'. rewrite lookup_write2_ne in Hp' by lia.
  rewrite Hp in Hp'. injection Hp' as <-.
  assert (header = bytesOf buf1 (Slice o ihl c) ∧
          bytesOf (Buffer d1) (Slice (o + 10) 2 (c - 10)) = be16 ck)
    as [Hh Hf].
  { subst header. destruct HR as [(_ & _ & ->) | (ft & Hft & HL)].
    - simpl. split.
      + unfold buf2. by rewrite write2_write2_eq.
      + unfold buf2. apply bytesOf_write2_field. lia.
    - apply l4Flat_Some in HL as (Hft2 & Hil & t & Ht & ->). simpl.
      assert (ihl + 6 ≤ ft ∧ (ft + 2 ≤ 10 ∨ 12 ≤ ft)) as [??] by lia.
      split.
      + rewrite (write2_write2_ne _ (o + ft) (o + 10)) by lia.
        unfold buf2. rewrite write2_write2_eq. fold buf1.
        apply bytesOf_write2_disjoint. simpl. lia.
      + rewrite bytesOf_write2_disjoint by (simpl; lia).
        unfold buf2. apply bytesOf_write2_field. lia. }
  split; [by subst d1|]. split.
  { subst d1. simpl. rewrite HPS. unfold sliceTo.
    rewrite slice3_Some by (simpl; lia). simpl.
    by rewrite Nat.add_0_r, !Nat.sub_0_r. }
  split; [by rewrite Hf, Hh|].
  rewrite Hh. apply checksumIPv4Header_refines.
  - apply Forall_bytesOf, Forall_write2; done.
  - rewrite length_bytesOf; simpl; [lia|]. unfold buf1.
    rewrite length_write2. lia.
Qed.

(** ** WritePacket *)

Lemma bytesOf_take buf o l c n :
  n ≤ l → take n (bytesOf buf (Slice o l c)) = bytesOf buf (Slice o n c).
Proof.
  intros. unfold bytesOf. simpl. rewrite take_take. f_equal. lia.
Qed.

Lemma bytesOf_drop buf o l c n :
  drop n (bytesOf buf (Slice o l c)) = bytesOf buf (Slice (o + n) (l - n) (c - n)).
Proof.
  apply list_eq. intros i. rewrite lookup_drop, !lookup_bytesOf. simpl.
  repeat case_decide; try lia; try done. f_equal. lia.
Qed.

Lemma bytesOf_write2_in buf o l c i x y :
  i + 2 ≤ l → o + l ≤ length buf →
  bytesOf (write2 buf (o + i) x y) (Slice o l c) =
    write2 (bytesOf buf (Slice o l c)) i x y.
Proof.
  intros. apply list_eq. intros j. unfold write2.
  rewrite lookup_bytesOf. simpl.
  rewrite !list_lookup_insert, !length_insert, lookup_bytesOf.
  rewrite length_bytesOf by (simpl; lia). simpl.
  repeat case_decide; try lia; try done.
Qed.

Lemma bytesOf_inserts_field buf i k n c :
  length k = n → i + n ≤ length buf →
  bytesOf (list_inserts i k buf) (Slice i n c) = k.
Proof.
  intros <- ?. apply list_eq. intros j. rewrite lookup_bytesOf. simpl.
  case_decide.
  - rewrite list_lookup_inserts by lia. f_equal. lia.
  - symmetry. apply lookup_ge_None. lia.
Qed.

Lemma bytesOf_inserts_disjoint buf i k s :
  i + length k ≤ off s ∨ off s + len s ≤ i →
  bytesOf (list_inserts i k buf) s = bytesOf buf s.
Proof.
  intros. apply bytesOf_ext. intros j Hj.
  destruct (decide (off s + j < i)).
  - by apply list_lookup_inserts_lt.
  - apply list_lookup_inserts_ge. lia.
Qed.

(** [WritePacket] on an IPv4 packet, once [RecalculateChecksum] has
    completed: one call of [tun.Write] with [Buffer[:4+len(Packet)]]. *)
Lemma WritePacket_ipv4 d data senderIP d1 :
  IsIPv6 data = false →
  RecalculateChecksum
    (withBuffer data
       (copy (copy (Buffer data) (Src data) senderIP) (Dst data) (localIP d)))
    = Some d1 →
  tunPacketOffset + len (PacketS d1) ≤ maxContentSize →
  ∃ out,
    WritePacket d data senderIP = Some out ∧ wo_packet out = d1 ∧
    wo_written out =
      [(take (tunPacketOffset + len (PacketS d1)) (Buffer d1), tunPacketOffset)].
Proof.
  intros H6 HR Hle. unfold WritePacket. rewrite H6, HR.
  unfold tunPacketOffset in *. simpl.
  unfold arraySlice. rewrite decide_True by lia. simpl.
  unfold bytesOf. simpl.
  destruct (tun_Write d _ _) as [n [e|]]; [eauto|].
  case_decide; eauto.
Qed.

(** C1 (as amended): for an IPv4 packet that [Parse] has accepted, placed
    at [tunPacketOffset], with a header length of at least 20 bytes that
    lies within the packet and, for TCP and UDP, a transport header that
    holds its checksum field, and for four-byte [senderIP] and [localIP]:
    [WritePacket] overwrites [packet[12:16]] with [senderIP] and
    [packet[16:20]] with [localIP], regenerates the IP header checksum and
    the TCP or UDP checksum (over the pseudo-header of the new addresses),
    and then calls [tun.Write] once, with [Buffer[:4+len(packet)]]. *)
Theorem WritePacket_rewrites (d : Device) (data : Packet) (senderIP : list Z)
    (b0 protocol : Z) :
  wf_packet data →
  Parse data = Some (true, data) → IsIPv6 data = false →
  off (PacketS data) = tunPacketOffset →
  index (Buffer data) (PacketS data) 0 = Some b0 →
  index (Buffer data) (PacketS data) 9 = Some protocol →
  length senderIP = 4 → length (localIP d) = 4 →
  20 ≤ ihlOf b0 ≤ len (PacketS data) →
  (protocol = 6%Z → ihlOf b0 + 18 ≤ len (PacketS data)) →
  (protocol = 17%Z → ihlOf b0 + 8 ≤ len (PacketS data)) →
  ∃ out,
    WritePacket d data senderIP = Some out ∧
    let p := wo_packet out in
    let packet := bytesOf (Buffer p) (PacketS p) in
    let ihl := ihlOf b0 in
    PacketS p = PacketS data ∧
    take 4 (drop 12 packet) = senderIP ∧
    take 4 (drop 16 packet) = localIP d ∧
    take 2 (drop 10 packet) =
      be16 (checksumIPv4Header (take ihl (write2 packet 10 0 0))) ∧
    (protocol = 6%Z →
       ∃ t, checksumIPv4TCPUDP (drop ihl (write2 packet (ihl + 16) 0 0))
              6 senderIP (localIP d) = Some t ∧
            take 2 (drop (ihl + 16) packet) = be16 t) ∧
    (protocol = 17%Z →
       ∃ t, checksumIPv4TCPUDP (drop ihl (write2 packet (ihl + 6) 0 0))
              17 senderIP (localIP d) = Some t ∧
            take 2 (drop (ihl + 6) packet) = be16 t) ∧
    wo_written out =
      [(take (tunPacketOffset + len (PacketS data)) (Buffer p), tunPacketOffset)].
Proof.
  intros [Hlen _ Hwf _ _] HP H6 Hoff Hb0 Hp Hls Hll [H20 Hihl] Htcp Hudp.
  assert (len (PacketS data) ≤ cap (PacketS data)) as Hlc.
  { destruct (PacketS data); simpl in *; lia. }
  destruct (Parse_fixed_ipv4 data Hlc HP H6)
    as (o & l & c & b0' & HPS & Hl20 & _ & _ & _ & HS & HD).
  rewrite HPS in *. simpl in Hwf, Hoff, Hihl, Htcp, Hudp, Hlc.
  destruct Hwf as [_ Hoc]. clear b0'.
  unfold index in Hb0, Hp. simpl in Hb0, Hp.
  rewrite decide_True in Hb0 by lia. rewrite decide_True in Hp by lia.
  rewrite Nat.add_0_r in Hb0.
  set (ihl := ihlOf b0) in *.
  (* the buffer after the two address copies *)
  set (bufA := copy (copy (Buffer data) (Src data) senderIP) (Dst data) (localIP d)).
  assert (bufA = list_inserts (o + 16) (localIP d)
                   (list_inserts (o + 12) senderIP (Buffer data))) as HbufA.
  { unfold bufA, copy. rewrite HS, HD. simpl.
    by rewrite !take_ge by lia. }
  assert (length bufA = maxContentSize) as HlenA.
  { rewrite HbufA. by rewrite !length_inserts. }
  assert (∀ j, j < o + 12 → bufA !! j = Buffer data !! j) as Hlow.
  { intros j Hj. rewrite HbufA. by rewrite !list_lookup_inserts_lt by lia. }
  assert (bytesOf bufA (Slice (o + 12) 4 (c - 12)) = senderIP) as HsA.
  { rewrite HbufA. rewrite bytesOf_inserts_disjoint by (simpl; lia).
    apply bytesOf_inserts_field; [done|lia]. }
  assert (bytesOf bufA (Slice (o + 16) 4 (c - 16)) = localIP d) as HdA.
  { rewrite HbufA. apply bytesOf_inserts_field; [done|].
    rewrite length_inserts. lia. }
  (* RecalculateChecksum completes on it *)
  destruct (rcFlat_completes (withBuffer data bufA) o l c b0 protocol)
    as [d1 HR]; simpl; try done; try lia;
    try (rewrite ?HS, ?HD; simpl; lia);
    try (rewrite Hlow by lia; done).
  assert (RecalculateChecksum (withBuffer data bufA) = Some d1) as HRC.
  { by rewrite (RecalculateChecksum_flat _ o l c). }
  destruct (rcFlat_withBuffer _ _ _ _ _ HR) as [B1 HB1].
  assert (PacketS d1 = Slice o l c) as HPS1 by (by subst d1).
  assert (tunPacketOffset + len (PacketS d1) ≤ maxContentSize) as Hle.
  { rewrite HPS1. unfold tunPacketOffset in *. simpl. lia. }
  destruct (WritePacket_ipv4 d data senderIP d1 H6 HRC Hle)
    as (out & Hout & Hpk & Hwr).
  exists out. split; [done|]. rewrite Hpk, HPS1. cbv zeta.
  rewrite Hwr, HPS1. simpl len.
  (* the bytes the call leaves in the buffer *)
  apply rcFlat_Some in HR as (b0' & protocol' & Hb0' & _ & _ & HR).
  simpl in Hb0'. rewrite Hlow, Hb0 in Hb0' by lia. injection Hb0' as <-.
  cbv zeta in HR. simpl Buffer in HR. fold ihl in HR.
  set (buf1 := write2 bufA (o + 10) 0 0) in *.
  set (ck := checksumIPv4Header (bytesOf buf1 (Slice o ihl c))) in *.
  set (buf2 := write2 bufA (o + 10) (u8 (Z.shiftr ck 8)) (u8 ck)) in *.
  destruct HR as [Hp' HR].
  unfold buf2 in Hp'. rewrite lookup_write2_ne, Hlow, Hp in Hp' by lia.
  injection Hp' as <-.
  set (packet := bytesOf (Buffer d1) (Slice o l c)).
  assert (length (Buffer d1) = maxContentSize) as Hlen1.
  { destruct HR as [(_ & _ & ->) | (ft & _ & HL)].
    - simpl. unfold buf2. by rewrite length_write2.
    - apply l4Flat_Some in HL as (_ & _ & t & _ & ->). simpl.
      unfold buf2. by rewrite !length_write2. }
  assert (∀ i x y, i + 2 ≤ l →
            write2 packet i x y =
            bytesOf (write2 (Buffer d1) (o + i) x y) (Slice o l c)) as Hw2.
  { intros. symmetry. apply bytesOf_write2_in; lia. }
  assert (∀ lo n, lo + n ≤ l →
            take n (drop lo packet) =
            bytesOf (Buffer d1) (Slice (o + lo) n (c - lo))) as Hsub.
  { intros. symmetry. by apply bytesOf_sub. }
  rewrite !Hsub by lia. rewrite Hw2, bytesOf_take by lia.
  (* the four properties, in the two cases of the protocol *)
  destruct HR as [(Hn6 & Hn17 & Hd1) | (ft & Hft & HL)].
  - assert (Buffer d1 = buf2) as -> by (by subst d1).
    repeat split; try done.
    + unfold buf2. by rewrite bytesOf_write2_disjoint by (simpl; lia).
    + unfold buf2. by rewrite bytesOf_write2_disjoint by (simpl; lia).
    + unfold buf2. rewrite write2_write2_eq. fold buf1. fold ck.
      apply bytesOf_write2_field. lia.
  - apply l4Flat_Some in HL as (Hft2 & _ & t & Ht & Hd1).
    assert (Buffer d1 = write2 buf2 (o + ft) (u8 (Z.shiftr t 8)) (u8 t)) as HB
      by (by subst d1).
    assert (ihl + 6 ≤ ft) as Hft6 by lia.
    simpl Src in Ht. simpl Dst in Ht. rewrite HS, HD in Ht.
    rewrite !(bytesOf_write2_disjoint _ (o + ft) _ _ (Slice (o + 12) 4 _))
      in Ht by (simpl; lia).
    rewrite !(bytesOf_write2_disjoint _ (o + ft) _ _ (Slice (o + 16) 4 _))
      in Ht by (simpl; lia).
    unfold buf2 in Ht at 2 3.
    rewrite !(bytesOf_write2_disjoint _ (o + 10)) in Ht by (simpl; lia).
    rewrite HsA, HdA in Ht.
    assert (∀ x y,
              bytesOf (write2 (Buffer d1) (o + ft) x y)
                (Slice (o + ihl) (l - ihl) (c - ihl)) =
              bytesOf (write2 buf2 (o + ft) x y)
                (Slice (o + ihl) (l - ihl) (c - ihl))) as Hl4.
    { intros. rewrite HB. by rewrite write2_write2_eq. }
    assert (∃ t', checksumIPv4TCPUDP (drop ihl (write2 packet ft 0 0))
                    (u32 protocol) senderIP (localIP d) = Some t' ∧
                  take 2 (drop ft packet) = be16 t') as HT.
    { exists t. rewrite Hw2, bytesOf_drop, Hl4 by lia. split; [done|].
      rewrite Hsub by lia. rewrite HB. apply bytesOf_write2_field.
      unfold buf2. rewrite length_write2. lia. }
    rewrite HB. repeat split.
    + rewrite bytesOf_write2_disjoint by (simpl; lia).
      unfold buf2. by rewrite bytesOf_write2_disjoint by (simpl; lia).
    + rewrite bytesOf_write2_disjoint by (simpl; lia).
      unfold buf2. by rewrite bytesOf_write2_disjoint by (simpl; lia).
    + rewrite bytesOf_write2_disjoint by (simpl; lia).
      rewrite (write2_write2_ne _ (o + ft) (o + 10)) by lia.
      rewrite (bytesOf_write2_disjoint _ (o + ft)) by (simpl; lia).
      unfold buf2. rewrite write2_write2_eq. fold buf1. fold ck.
      apply bytesOf_write2_field. lia.
    + intros ->. destruct Hft as [[_ ->]|[? _]]; [|done]. exact HT.
    + intros ->. destruct Hft as [[? _]|[_ ->]]; [done|]. exact HT.
Qed.

(** ** The TUN packet reader *)

(** [Parse] looks at the buffer and the packet view only, and changes
    neither. *)
Lemma Parse_true_inv d p :
  Parse d = Some (true, p) →
  ∃ src dst v6, p = mkPacket (Buffer d) (PacketS d) src dst v6.
Proof.
  unfold Parse. destruct (index _ _ _) as [b0|]; [|done].
  cbn [mbind option_bind].
  repeat case_decide; try done.
  - destruct (slice3 _ IPv4offsetSrc _) as [src|]; [|done].
    destruct (slice3 _ IPv4offsetDst _) as [dst|]; [|done].
    cbn [mbind option_bind]. intros [= <-]. eauto.
  - destruct (slice3 _ IPv6offsetSrc _) as [src|]; [|done].
    destruct (slice3 _ IPv6offsetDst _) as [dst|]; [|done].
    cbn [mbind option_bind]. intros [= <-]. eauto.
Qed.

Lemma Parse_true_shape d p :
  Parse d = Some (true, p) → Buffer p = Buffer d ∧ PacketS p = PacketS d.
Proof. intros H. by destruct (Parse_true_inv d p H) as (? & ? & ? & ->). Qed.

Lemma Parse_same_input d d' :
  Buffer d = Buffer d' → PacketS d = PacketS d' →
  ∀ p, Parse d = Some (true, p) → Parse d' = Some (true, p).
Proof.
  intros HB HPk p. unfold Parse. rewrite <- HB, <- HPk.
  destruct (index _ _ _) as [b0|]; [|done].
  cbn [mbind option_bind].
  repeat case_decide; done.
Qed.

Lemma Parse_false_same d p : Parse d = Some (false, p) → p = d.
Proof.
  unfold Parse. destruct (index _ _ _) as [b0|]; [|done].
  cbn [mbind option_bind].
  repeat case_decide; try (by intros [= <-]).
  - destruct (slice3 _ IPv4offsetSrc _) as [src|]; [|done].
    destruct (slice3 _ IPv4offsetDst _) as [dst|]; done.
  - destruct (slice3 _ IPv6offsetSrc _) as [src|]; [|done].
    destruct (slice3 _ IPv6offsetDst _) as [dst|]; done.
Qed.

Lemma Parse_idem d p : Parse d = Some (true, p) → Parse p = Some (true, p).
Proof.
  intros H. destruct (Parse_true_shape d p H) as [HB HPk].
  by apply (Parse_same_input d p).
Qed.

Lemma readerIter_emit d rd p l :
  length (Buffer d) = maxContentSize →
  readerIter d rd = (IterEmit p, l) → emitted_by rd p.
Proof.
  intros Hlen. unfold readerIter.
  destruct (rd_err rd) as [e|] eqn:He; [by case_decide|].
  case_decide as Hsz; [done|].
  case_decide as Hneg; [done|].
  destruct (arraySlice _ _) as [s|] eqn:Hs; [|done].
  destruct (Parse _) as [[[] p']|] eqn:HP; try done.
  intros [= -> <-].
  destruct (Parse_true_shape _ _ HP) as [HB HPk]. simpl in HB, HPk.
  pose proof (Parse_idem _ _ HP) as HPp.
  pose proof maxContentSize_eq as Hmax.
  unfold emitted_by. split; [done|]. split; [lia|]. split.
  { rewrite HPk, <- Hs. f_equal. lia. }
  split; [done|]. intros H6.
  assert (slice_wf (PacketS p)) as Hwf.
  { rewrite HPk. by eapply arraySlice_wf. }
  assert (len (PacketS p) ≤ cap (PacketS p)) as Hlc.
  { destruct (PacketS p); simpl in *; lia. }
  destruct (Parse_fixed_ipv4 p Hlc HPp H6)
    as (o & l' & c & b0 & HPS & H20 & _ & _ & _ & HS & HD).
  unfold arraySlice in Hs. case_decide as Hc; [|done]. injection Hs as <-.
  rewrite HPk in HPS. injection HPS as <- <- <-.
  assert (length (Buffer p) = maxContentSize) as HlenB.
  { rewrite HB. by rewrite length_inserts. }
  unfold ipv4_HeaderLen, tunPacketOffset in *. rewrite HPk. simpl.
  split; [lia|]. split; [by rewrite HS|]. split; [by rewrite HD|].
  rewrite HS, HD. rewrite !length_bytesOf; simpl; lia.
Qed.

(** A read of size 0, of a size above [maxContentSize], or whose bytes
    [Parse] rejects, is not sent. *)
Lemma readerIter_drop d rd :
  rd_err rd = None →
  (rd_size rd = 0 ∨ rd_size rd > Z.of_nat maxContentSize)%Z ∨
  (∀ s r, arraySlice tunPacketOffset (Z.to_nat (rd_size rd) + tunPacketOffset)
            = Some s →
          Parse (withPacket
                   (withBuffer d
                      (list_inserts tunPacketOffset (rd_bytes rd) (Buffer d))) s)
            = Some r →
          r.1 = false) →
  ∀ p l, readerIter d rd ≠ (IterEmit p, l).
Proof.
  intros He Hdrop p l. unfold readerIter. rewrite He.
  case_decide as Hsz; [done|].
  destruct Hdrop as [Hdrop|Hdrop]; [done|].
  case_decide as Hneg; [done|].
  destruct (arraySlice _ _) as [s|] eqn:Hs; [|done].
  destruct (Parse _) as [[[] p']|] eqn:HP; try done.
  by specialize (Hdrop s _ eq_refl HP).
Qed.

Lemma pool_Get_length pick pool p pool' :
  Forall (λ q, length (Buffer q) = maxContentSize) pool →
  pool_Get pick pool = (p, pool') →
  length (Buffer p) = maxContentSize ∧
  Forall (λ q, length (Buffer q) = maxContentSize) pool'.
Proof.
  intros Hpool. unfold pool_Get.
  assert (length (Buffer newPacket) = maxContentSize) as Hnew.
  { simpl. by rewrite length_replicate. }
  destruct pick as [i|]; [|by intros [= <- <-]].
  destruct (pool !! i) as [q|] eqn:Hq; intros [= <- <-]; [|done].
  split.
  - by apply (Forall_lookup_1 (λ q, length (Buffer q) = maxContentSize) pool i q).
  - by apply Forall_delete.
Qed.

Lemma tunPacketsReader_sent reads :
  ∀ pool data sent log,
    Forall (λ q, length (Buffer q) = maxContentSize) pool →
    (∀ d, data = Some d → length (Buffer d) = maxContentSize) →
    ∃ new,
      rr_sent (tunPacketsReader reads pool data sent log) = sent ++ new ∧
      Forall (λ p, ∃ pick rd, (pick, rd) ∈ reads ∧ emitted_by rd p) new.
Proof.
  induction reads as [|[pick rd] reads IH]; intros pool data sent log Hpool Hdata.
  { simpl. exists []. by rewrite app_nil_r. }
  simpl.
  destruct (match data with
            | Some d => (clear d, pool)
            | None => GetTempPacket pick pool
            end) as [d pool'] eqn:Hget.
  assert (length (Buffer d) = maxContentSize ∧
          Forall (λ q, length (Buffer q) = maxContentSize) pool') as [Hd Hpool'].
  { destruct data as [d0|].
    - injection Hget as <- <-. simpl. auto.
    - by apply (pool_Get_length pick pool). }
  assert (∀ new,
    Forall (λ p, ∃ pick' rd', (pick', rd') ∈ reads ∧ emitted_by rd' p) new →
    Forall (λ p, ∃ pick' rd', (pick', rd') ∈ (pick, rd) :: reads ∧
                              emitted_by rd' p) new) as Hweak.
  { intros new Hnew. eapply Forall_impl; [exact Hnew|].
    intros p (pick' & rd' & Hin & He).
    exists pick', rd'. split; [by right|done]. }
  destruct (readerIter d rd) as [[| d' | p |] l] eqn:Hiter; simpl.
  - exists []. by rewrite app_nil_r.
  - destruct (IH pool' (Some d') sent (log ++ l) Hpool') as (new & -> & Hnew).
    + intros ? [= <-]. unfold readerIter in Hiter.
      destruct (rd_err rd); [by case_decide|].
      case_decide; [injection Hiter as <- <-; simpl; by rewrite length_inserts|].
      case_decide; [done|].
      destruct (arraySlice _ _); [|done].
      destruct (Parse _) as [[[] p']|] eqn:HP; try done.
      injection Hiter as <- <-.
      apply Parse_false_same in HP as ->. simpl. by rewrite length_inserts.
    + exists new. split; [done|]. by apply Hweak.
  - destruct (IH pool' None (sent ++ [p]) (log ++ l) Hpool') as (new & -> & Hnew).
    + done.
    + exists (p :: new). split; [by rewrite <- app_assoc|].
      constructor; [|by apply Hweak].
      exists pick, rd. split; [by left|]. by eapply readerIter_emit.
  - exists []. by rewrite app_nil_r.
Qed.

(** C5: every packet the reader sends on [outboundCh] comes from a read
    without error whose size is above 0 and at most [maxContentSize]; its
    packet view is [Buffer[4 : 4+size]]; [Parse] succeeded on it; and if it
    is an IPv4 packet, [Src] and [Dst] are four bytes inside the packet.  A
    read of size 0, of a size above [maxContentSize], or rejected by
    [Parse], sends nothing. *)
Theorem tunPacketsReader_emits (reads : list (option nat * TunRead))
    (pool : list Packet) :
  Forall (λ q, length (Buffer q) = maxContentSize) pool →
  Forall (λ p, ∃ pick rd, (pick, rd) ∈ reads ∧ emitted_by rd p)
    (rr_sent (tunPacketsReader reads pool None [] [])) ∧
  (∀ d rd,
     rd_err rd = None →
     (rd_size rd = 0 ∨ rd_size rd > Z.of_nat maxContentSize)%Z ∨
     (∀ s r,
        arraySlice tunPacketOffset (Z.to_nat (rd_size rd) + tunPacketOffset)
          = Some s →
        Parse (withPacket
                 (withBuffer d
                    (list_inserts tunPacketOffset (rd_bytes rd) (Buffer d))) s)
          = Some r →
        r.1 = false) →
     ∀ p l, readerIter d rd ≠ (IterEmit p, l)).
Proof.
  intros Hpool. split; [|apply readerIter_drop].
  destruct (tunPacketsReader_sent reads pool None [] [] Hpool)
    as (new & -> & Hnew); [done|]. done.
Qed.

(** ** The packet pool *)

Lemma clean_clear data : clean (clear data).
Proof. by repeat split. Qed.

Lemma clean_newPacket : clean newPacket.
Proof. by repeat split. Qed.

Lemma poolRun_clean ops :
  ∀ pool out,
    Forall clean pool → Forall clean out →
    Forall clean (poolRun ops pool out).1 ∧
    Forall clean (poolRun ops pool out).2.
Proof.
  induction ops as [|[pick|data|i] ops IH]; intros pool out Hpool Hout;
    simpl; [done|..].
  - unfold GetTempPacket, pool_Get.
    destruct pick as [i|].
    + destruct (pool !! i) as [p|] eqn:Hp.
      * apply IH; [by apply Forall_delete|].
        constructor; [|done].
        by apply (Forall_lookup_1 clean pool i p).
      * apply IH; [done|]. constructor; [apply clean_newPacket|done].
    + apply IH; [done|]. constructor; [apply clean_newPacket|done].
  - apply IH; [|done]. constructor; [apply clean_clear|done].
  - apply IH; [by apply Forall_delete|done].
Qed.

Lemma poolRun_app ops ops' :
  ∀ pool out,
    poolRun (ops ++ ops') pool out =
      poolRun ops' (poolRun ops pool out).1 (poolRun ops pool out).2.
Proof.
  induction ops as [|[pick|data|i] ops IH]; intros pool out; simpl; [done|..].
  - destruct (GetTempPacket pick pool) as [p pool']. apply IH.
  - apply IH.
  - apply IH.
Qed.

(** A packet that was handed out stays handed out. *)
Lemma poolRun_out ops :
  ∀ pool out p, p ∈ out → p ∈ (poolRun ops pool out).2.
Proof.
  induction ops as [|[pick|data|i] ops IH]; intros pool out p Hp; simpl;
    [done|..].
  - destruct (GetTempPacket pick pool) as [q pool']. apply IH. by right.
  - by apply IH.
  - by apply IH.
Qed.

(** What [GetTempPacket] hands out: a new packet, or an element of the
    pool, which it removes. *)
Lemma GetTempPacket_cases pick pool p pool' :
  GetTempPacket pick pool = (p, pool') →
  (p = newPacket ∧ pool' = pool) ∨
  (∃ i, pick = Some i ∧ pool !! i = Some p ∧ pool' = delete i pool).
Proof.
  unfold GetTempPacket, pool_Get. destruct pick as [i|].
  - destruct (pool !! i) as [q|] eqn:Hq; intros [= <- <-]; [right|left]; eauto.
  - intros [= <- <-]. by left.
Qed.

(** Where the packets of a run come from: a pooled packet was checked in
    by the run, with the buffer it has; a packet handed out is a new one or
    was pooled. *)
Lemma poolRun_checked_in ops :
  (∀ p, p ∈ (poolRun ops [] []).1 →
     ∃ data, OpPut data ∈ ops ∧ p = clear data) ∧
  (∀ p, p ∈ (poolRun ops [] []).2 →
     p = newPacket ∨ ∃ data, OpPut data ∈ ops ∧ p = clear data).
Proof.
  induction ops as [|op ops [IHpool IHout]] using rev_ind.
  { split; intros p Hp; by apply elem_of_nil in Hp. }
  rewrite poolRun_app.
  destruct (poolRun ops [] []) as [pool out]. simpl in IHpool, IHout.
  assert (∀ p, (∃ data, OpPut data ∈ ops ∧ p = clear data) →
               ∃ data, OpPut data ∈ ops ++ [op] ∧ p = clear data) as Hmono.
  { intros p (data & Hin & ->). exists data. split; [|done].
    apply elem_of_app. by left. }
  destruct op as [pick|data|i]; simpl.
  - destruct (GetTempPacket pick pool) as [q pool'] eqn:Hget. simpl.
    apply GetTempPacket_cases in Hget as [[-> ->]|(i & -> & Hq & ->)].
    + split; [by auto|]. intros p [->|Hp]%elem_of_cons; [by left|].
      destruct (IHout p Hp) as [->|H]; auto.
    + split.
      * intros p Hp%list_elem_of_delete_inv. auto.
      * intros p [->|Hp]%elem_of_cons.
        -- right. apply Hmono, IHpool. by eapply list_elem_of_lookup_2.
        -- destruct (IHout p Hp) as [->|H]; auto.
  - unfold PutTempPacket, pool_Put. split.
    + intros p [->|Hp]%elem_of_cons; [|by auto].
      exists data. split; [|done]. apply elem_of_app. right. by left.
    + intros p Hp. destruct (IHout p Hp) as [->|H]; auto.
  - split.
    + intros p Hp%list_elem_of_delete_inv. auto.
    + intros p Hp. destruct (IHout p Hp) as [->|H]; auto.
Qed.

(** C9 (as amended): in every interleaving of check-outs, check-ins and
    collections, every packet in the pool and every packet checked out is
    clean: nil packet view, nil [Src] and [Dst], [IsIPv6 = false].  Every
    check-out hands out either a new packet, whose buffer is all zero, or
    a packet of the pool, which it removes from the pool; such a reused
    packet was checked in earlier in the run and has the buffer it was
    checked in with. *)
Theorem pool_packets_clean (ops : list PoolOp) :
  Forall clean (poolRun ops [] []).1 ∧
  Forall clean (poolRun ops [] []).2 ∧
  (∀ p, p ∈ (poolRun ops [] []).2 →
     p = newPacket ∨
     ∃ data, OpPut data ∈ ops ∧ p = mkPacket (Buffer data) Nil Nil Nil false) ∧
  (∀ pre pick post, ops = pre ++ OpGet pick :: post →
     let pool := (poolRun pre [] []).1 in
     ∃ p pool',
       GetTempPacket pick pool = (p, pool') ∧
       p ∈ (poolRun ops [] []).2 ∧
       ((p = newPacket ∧ pool' = pool) ∨
        (∃ i data,
           pick = Some i ∧ pool !! i = Some p ∧ pool' = delete i pool ∧
           OpPut data ∈ pre ∧
           p = mkPacket (Buffer data) Nil Nil Nil false))) ∧
  Buffer newPacket = replicate maxContentSize 0%Z.
Proof.
  destruct (poolRun_clean ops [] []) as [H1 H2]; [done..|].
  split; [done|]. split; [done|]. split; [|split; [|done]].
  - apply poolRun_checked_in.
  - intros pre pick post -> pool.
    destruct (GetTempPacket pick pool) as [p pool'] eqn:Hget.
    exists p, pool'. split; [done|]. split.
    + rewrite poolRun_app. simpl. fold pool. rewrite Hget.
      apply poolRun_out. by left.
    + apply GetTempPacket_cases in Hget as [?|(i & -> & Hp & ->)]; [by left|].
      right. destruct (poolRun_checked_in pre) as [Hpool _].
      destruct (Hpool p) as (data & Hin & ->).
      { by eapply list_elem_of_lookup_2. }
      by exists i, data.
Qed.

(** ** Stream counters *)

Local Open Scope Z_scope.

Lemma i64_small z : - 2 ^ 63 ≤ z < 2 ^ 63 → i64 z = z.
Proof. intros. unfold i64. rewrite Z.mod_small; lia. Qed.

Lemma countIf_app f ns ms : countIf f (ns ++ ms) = countIf f ns + countIf f ms.
Proof. induction ns as [|n ns IH]; simpl; lia. Qed.

Lemma countIf_bounds f ns : 0 ≤ countIf f ns ≤ Z.of_nat (length ns).
Proof. induction ns as [|n ns IH]; simpl; [lia|]. destruct (f n); lia. Qed.

Lemma notifyAll_snoc p ns n :
  notifyAll p (ns ++ [n]) = notify (notifyAll p ns) n.
Proof. unfold notifyAll. by rewrite fold_left_app. Qed.

(** As long as no counter can overflow, the counters are the counts. *)
Lemma notifyAll_counts ns :
  Z.of_nat (length ns) < 2 ^ 63 →
  notifyAll zeroCounters ns =
    mkCounters (opened ns - closed ns) (inbound ns) (outbound ns).
Proof.
  induction ns as [|n ns IH] using rev_ind; [done|].
  rewrite length_app. simpl length. intros Hlen.
  rewrite notifyAll_snoc, IH by lia.
  unfold opened, closed, inbound, outbound. rewrite !countIf_app.
  pose proof (countIf_bounds isOpened ns).
  pose proof (countIf_bounds isClosed ns).
  pose proof (countIf_bounds isInbound ns).
  pose proof (countIf_bounds isOutbound ns).
  destruct n as [[[]|]|]; unfold notify, OpenedStreamF, ClosedStreamF; simpl;
    rewrite ?i64_small by lia; f_equal; lia.
Qed.

Lemma reachable_notifyAll p : reachable p ↔ ∃ ns, p = notifyAll zeroCounters ns.
Proof.
  split.
  - induction 1 as [|p q _ [ns ->] [n ->]]; [by exists []|].
    exists (ns ++ [n]). by rewrite notifyAll_snoc.
  - intros [ns ->]. induction ns as [|n ns IH] using rev_ind; [constructor|].
    rewrite notifyAll_snoc. econstructor; [exact IH|]. by exists n.
Qed.

Lemma directed_counts ns : directed ns → opened ns = inbound ns + outbound ns.
Proof.
  unfold directed, opened, inbound, outbound.
  induction 1 as [|n ns Hn _ IH]; simpl; [done|].
  destruct n as [[[]|]|]; simpl; (done || lia).
Qed.

(** C7 (as amended): in a history of fewer than 2^63 notifications that
    starts from zero, the two totals never decrease; [openedStreams] is
    non-negative at all times if every [ClosedStream] answers an earlier
    [OpenedStream] of a non-nil stream; and the totals add up to at least
    [openedStreams] if no stream of unknown direction is opened. *)
Theorem stream_counters_invariant (ns : list Notification) (n : Notification) :
  Z.of_nat (length (ns ++ [n])) < 2 ^ 63 →
  let p := notifyAll zeroCounters ns in
  let q := notify p n in
  reachable p ∧ reachable q ∧
  (totalStreamsInbound p ≤ totalStreamsInbound q)%Z ∧
  (totalStreamsOutbound p ≤ totalStreamsOutbound q)%Z ∧
  (0 ≤ totalStreamsInbound p)%Z ∧ (0 ≤ totalStreamsOutbound p)%Z ∧
  (paired (ns ++ [n]) → (0 ≤ openedStreams p)%Z ∧ (0 ≤ openedStreams q)%Z) ∧
  (directed (ns ++ [n]) →
     (totalStreamsInbound p + totalStreamsOutbound p >= openedStreams p)%Z ∧
     (totalStreamsInbound q + totalStreamsOutbound q >= openedStreams q)%Z).
Proof.
  intros Hlen p q.
  assert (Z.of_nat (length ns) < 2 ^ 63) as Hlen'.
  { rewrite length_app in Hlen. simpl in Hlen. lia. }
  assert (q = notifyAll zeroCounters (ns ++ [n])) as Hq
    by (by rewrite notifyAll_snoc).
  pose proof (notifyAll_counts ns Hlen') as Hp. fold p in Hp.
  pose proof (notifyAll_counts (ns ++ [n]) Hlen) as Hq'. rewrite <- Hq in Hq'.
  split; [apply reachable_notifyAll; by exists ns|].
  split; [apply reachable_notifyAll; by exists (ns ++ [n])|].
  rewrite Hp, Hq'. simpl.
  unfold inbound, outbound. rewrite !countIf_app.
  pose proof (countIf_bounds isInbound ns).
  pose proof (countIf_bounds isOutbound ns).
  pose proof (countIf_bounds isInbound [n]).
  pose proof (countIf_bounds isOutbound [n]).
  repeat split; try lia.
  - specialize (H3 (length ns)). rewrite take_app_length in H3. lia.
  - specialize (H3 (length (ns ++ [n]))). rewrite take_ge in H3 by lia. lia.
  - apply Forall_app in H3 as [Hd _]. apply directed_counts in Hd.
    unfold opened, closed, inbound, outbound in *.
    pose proof (countIf_bounds isClosed ns). lia.
  - apply directed_counts in H3.
    unfold opened, closed, inbound, outbound in *. rewrite !countIf_app in *.
    pose proof (countIf_bounds isClosed (ns ++ [n])).
    rewrite countIf_app in *. lia.
Qed.

Local Close Scope Z_scope.

(** ** Bootstrap *)

Section BootstrapProperties.

Context {Multiaddr AddrInfo : Type}.
Implicit Types (env : @Env Multiaddr AddrInfo) (s : @State Multiaddr AddrInfo).
Implicit Types (evs : list (@Event Multiaddr AddrInfo)).

Lemma dialsStarted_app evs evs' :
  dialsStarted (evs ++ evs') = dialsStarted evs ++ dialsStarted evs'.
Proof. induction evs as [|[] evs IH]; simpl; by rewrite ?IH. Qed.

Lemma dialsReturned_app evs evs' :
  dialsReturned (evs ++ evs') = dialsReturned evs + dialsReturned evs'.
Proof. induction evs as [|[] evs IH]; simpl; by rewrite ?IH. Qed.

Lemma invalidWarned_app evs evs' :
  invalidWarned (evs ++ evs') = invalidWarned evs ++ invalidWarned evs'.
Proof. induction evs as [|[] evs IH]; simpl; by rewrite ?IH. Qed.

Lemma dhtCalls_app evs evs' : dhtCalls (evs ++ evs') = dhtCalls evs + dhtCalls evs'.
Proof. induction evs as [|[] evs IH]; simpl; by rewrite ?IH. Qed.

Lemma parsedPeers_app env l1 l2 :
  parsedPeers env (l1 ++ l2) = parsedPeers env l1 ++ parsedPeers env l2.
Proof.
  induction l1 as [|a l1 IH]; simpl; [done|].
  destruct (AddrInfoFromP2pAddr env a); by rewrite ?IH.
Qed.

Lemma invalidPeers_app env l1 l2 :
  invalidPeers env (l1 ++ l2) = invalidPeers env l1 ++ invalidPeers env l2.
Proof.
  induction l1 as [|a l1 IH]; simpl; [done|].
  destruct (AddrInfoFromP2pAddr env a); by rewrite ?IH.
Qed.

(** A dial goroutine: one [ConnectReturned]; a warning unless the dial
    succeeded or was cancelled; no call of [dht.Bootstrap]. *)
Lemma dial_events env info :
  dialsStarted (dial env info) = [] ∧ dialsReturned (dial env info) = 1 ∧
  invalidWarned (dial env info) = [] ∧ dhtCalls (dial env info) = 0 ∧
  (host_Connect env info = Some context_Canceled →
     dial env info = [ConnectReturned info (Some context_Canceled)]) ∧
  (∀ e, host_Connect env info = Some e → e ≠ context_Canceled →
     dial env info = [ConnectReturned info (Some e); WarnConnect e]) ∧
  (host_Connect env info = None →
     dial env info = [ConnectReturned info None; InfoConnected info]).
Proof.
  unfold dial. destruct (host_Connect env info) as [e|]; simpl.
  - case_decide; simpl; repeat split; try done.
    + by intros [= ->].
    + by intros e' [= ->].
    + by intros [= ->].
    + intros e' [= ->] ?. done.
  - repeat split; done.
Qed.

Lemma inv_init env : inv env (initState env).
Proof.
  split; simpl; try done. by exists [].
Qed.

Lemma inv_exec env c s s' : inv env s → exec env c s = Some s' → inv env s'.
Proof.
  intros [(done & Hpeers & Hstarted & Hwarned) Hdials Hrun Hret].
  unfold exec. destruct (st_result s) eqn:Hres; [done|].
  specialize (Hrun eq_refl). destruct c as [|i].
  - destruct (st_todo s) as [|a todo] eqn:Htodo.
    + destruct (st_dialing s) eqn:Hdialing; [|done].
      assert (∀ r, Some (mkState (Multiaddr:=Multiaddr) [] []
                (st_events s ++ [InfoAllConnected; DhtBootstrapCalled])
                (Some (wrapDht r))) = Some s' → r = dht_Bootstrap env → inv env s')
        as Hfin.
      { intros r [= <-] ->. split; simpl.
        - exists done. rewrite app_nil_r in *.
          rewrite dialsStarted_app, invalidWarned_app. simpl.
          by rewrite !app_nil_r.
        - rewrite dialsStarted_app, dialsReturned_app. simpl.
          rewrite app_nil_r. simpl in Hdials. lia.
        - done.
        - intros r [= <-]. repeat split; eauto. }
      destruct (dht_Bootstrap env) as [e|] eqn:Hdht; intros H.
      * by apply (Hfin (Some e)).
      * by apply (Hfin None).
    + destruct (AddrInfoFromP2pAddr env a) as [info|e] eqn:Hparse;
        intros [= <-]; split; simpl; try done.
      * exists (done ++ [a]). rewrite <- app_assoc. split; [done|].
        rewrite dialsStarted_app, invalidWarned_app,
          parsedPeers_app, invalidPeers_app. simpl. rewrite Hparse.
        by rewrite Hstarted, Hwarned, app_nil_r.
      * rewrite dialsStarted_app, dialsReturned_app, !length_app. simpl. lia.
      * intros _. rewrite dhtCalls_app. simpl. lia.
      * exists (done ++ [a]). rewrite <- app_assoc. split; [done|].
        rewrite dialsStarted_app, invalidWarned_app,
          parsedPeers_app, invalidPeers_app. simpl. rewrite Hparse.
        by rewrite Hstarted, Hwarned, app_nil_r.
      * rewrite dialsStarted_app, dialsReturned_app. simpl.
        rewrite app_nil_r. lia.
      * intros _. rewrite dhtCalls_app. simpl. lia.
  - destruct (st_dialing s !! i) as [info|] eqn:Hi; [|done]. simpl.
    intros [= <-].
    destruct (dial_events env info) as (Hd1 & Hd2 & Hd3 & Hd4 & _).
    split; simpl; try done.
    + exists done. split; [done|].
      rewrite dialsStarted_app, invalidWarned_app, Hd1, Hd3.
      by rewrite !app_nil_r.
    + rewrite dialsStarted_app, dialsReturned_app, Hd1, Hd2, app_nil_r.
      rewrite length_delete by eauto. 
      apply lookup_lt_Some in Hi. lia.
    + intros _. rewrite dhtCalls_app, Hd4. lia.
Qed.

Lemma inv_execAll env sched :
  ∀ s s', inv env s → execAll env sched s = Some s' → inv env s'.
Proof.
  induction sched as [|c sched IH]; intros s s' Hinv; simpl.
  - by intros [= <-].
  - destruct (exec env c s) as [s1|] eqn:Hexec; [|done]. simpl.
    apply IH. by eapply inv_exec.
Qed.

Lemma execAll_app env sched sched' s :
  execAll env (sched ++ sched') s = execAll env sched s ≫= execAll env sched'.
Proof.
  revert s. induction sched as [|c sched IH]; intros s; simpl; [done|].
  destruct (exec env c s); simpl; [apply IH|done].
Qed.

(** Every dial that is still running can run to its end. *)
Lemma drain_dials env n :
  ∀ s, st_result s = None → length (st_dialing s) = n →
       ∃ s', execAll env (replicate n (Worker 0)) s = Some s' ∧
             st_result s' = None ∧ st_dialing s' = [] ∧ st_todo s' = st_todo s.
Proof.
  induction n as [|n IH]; intros [todo dialing evs res]; simpl;
    intros -> Hlen.
  - exists (mkState todo dialing evs None). repeat split.
    by apply nil_length_inv.
  - destruct dialing as [|info dialing]; [done|]. simpl in *.
    apply (IH (mkState todo dialing (evs ++ dial env info) None));
      simpl; [done|lia].
Qed.

(** With no dial running, the loop and the dials it starts run to the
    end of the call. *)
Lemma eager_run env todo :
  ∀ s, st_result s = None → st_dialing s = [] → st_todo s = todo →
       ∃ s', execAll env (eagerSchedule env todo) s = Some s' ∧
             st_result s' = Some (wrapDht (dht_Bootstrap env)).
Proof.
  induction todo as [|a todo IH]; intros [todo' dialing evs res]; simpl;
    intros -> -> ->.
  - unfold exec. simpl. destruct (dht_Bootstrap env); simpl; eauto.
  - destruct (AddrInfoFromP2pAddr env a) as [info|e] eqn:Hparse; simpl.
    + unfold exec. simpl. rewrite Hparse. simpl. by apply IH.
    + unfold exec at 1. simpl. rewrite Hparse. simpl. by apply IH.
Qed.

Lemma dialResults_app evs evs' :
  dialResults (evs ++ evs') = dialResults evs ++ dialResults evs'.
Proof. induction evs as [|[] evs IH]; simpl; by rewrite ?IH. Qed.

Lemma connectWarned_app evs evs' :
  connectWarned (evs ++ evs') = connectWarned evs ++ connectWarned evs'.
Proof. induction evs as [|[] evs IH]; simpl; by rewrite ?IH. Qed.

Lemma connectedLogged_app evs evs' :
  connectedLogged (evs ++ evs') = connectedLogged evs ++ connectedLogged evs'.
Proof. induction evs as [|[] evs IH]; simpl; by rewrite ?IH. Qed.

Lemma dialInv_init env : dialInv env (initState env).
Proof. split; simpl; try done. Qed.

(** A step of the caller logs nothing about a dial. *)
Lemma dialInv_main env s todo dialing evs' res :
  dialInv env s →
  dialResults evs' = [] → connectWarned evs' = [] → connectedLogged evs' = [] →
  st_dialing s ++ dialsStarted evs' = dialing →
  dialInv env (mkState todo dialing (st_events s ++ evs') res).
Proof.
  intros [H1 H2 H3 H4] Hr Hw Hc <-. split; simpl.
  - by rewrite dialResults_app, Hr, app_nil_r.
  - by rewrite connectWarned_app, dialResults_app, Hr, Hw, !app_nil_r.
  - by rewrite connectedLogged_app, dialResults_app, Hr, Hc, !app_nil_r.
  - by rewrite dialResults_app, dialsStarted_app, Hr, app_nil_r, app_assoc, H4.
Qed.

Lemma dialInv_exec env c s s' :
  dialInv env s → exec env c s = Some s' → dialInv env s'.
Proof.
  intros Hinv. unfold exec. destruct (st_result s) eqn:Hres; [done|].
  destruct c as [|i].
  - destruct (st_todo s) as [|a todo] eqn:Htodo.
    + destruct (st_dialing s) eqn:Hdialing; [|done].
      destruct (dht_Bootstrap env); intros [= <-];
        apply dialInv_main; try done; by rewrite Hdialing.
    + destruct (AddrInfoFromP2pAddr env a) as [info|e]; intros [= <-];
        apply dialInv_main; try done. simpl. by rewrite app_nil_r.
  - destruct (st_dialing s !! i) as [info|] eqn:Hi; [|done]. simpl.
    intros [= <-]. destruct Hinv as [H1 H2 H3 H4].
    assert (dialResults (dial env info) = [(info, host_Connect env info)])
      as Hr.
    { unfold dial. destruct (host_Connect env info); [case_decide|]; done. }
    assert (dialsStarted (dial env info) = []) as Hs.
    { unfold dial. destruct (host_Connect env info); [case_decide|]; done. }
    split; simpl.
    + rewrite dialResults_app, Hr. apply Forall_app. split; [done|].
      by constructor.
    + rewrite connectWarned_app, dialResults_app, Hr, omap_app, filter_app, H2.
      f_equal. unfold dial. simpl.
      destruct (host_Connect env info) as [e|]; simpl; [|done].
      rewrite filter_cons. by case_decide.
    + rewrite connectedLogged_app, dialResults_app, Hr, filter_app, fmap_app, H3.
      f_equal. unfold dial. rewrite filter_cons. simpl.
      destruct (host_Connect env info) as [e|]; simpl;
        repeat case_decide; simpl in *; done.
    + rewrite dialResults_app, dialsStarted_app, Hr, Hs, app_nil_r, fmap_app.
      simpl. rewrite <- H4, <- app_assoc. simpl.
      f_equiv. symmetry. by apply delete_Permutation.
Qed.

Lemma dialInv_execAll env sched :
  ∀ s s', dialInv env s → execAll env sched s = Some s' → dialInv env s'.
Proof.
  induction sched as [|c sched IH]; intros s s' Hinv; simpl.
  - by intros [= <-].
  - destruct (exec env c s) as [s1|] eqn:Hexec; [|done]. simpl.
    apply IH. by eapply dialInv_exec.
Qed.


Lemma elem_of_connectWarned evs e : WarnConnect e ∈ evs ↔ e ∈ connectWarned evs.
Proof.
  induction evs as [|ev evs IH]; simpl; [by rewrite !elem_of_nil|].
  rewrite elem_of_cons, IH.
  destruct ev; simpl; rewrite ?elem_of_cons; intuition congruence.
Qed.

Lemma elem_of_connectedLogged evs info :
  InfoConnected info ∈ evs ↔ info ∈ connectedLogged evs.
Proof.
  induction evs as [|ev evs IH]; simpl; [by rewrite !elem_of_nil|].
  rewrite elem_of_cons, IH.
  destruct ev; simpl; rewrite ?elem_of_cons; intuition congruence.
Qed.

(** The lines of the dials, read off a trace in which every dial started
    has returned. *)
Lemma dial_lines env evs peers :
  (dialResults evs).*1 ≡ₚ peers →
  Forall (λ x, x.2 = host_Connect env x.1) (dialResults evs) →
  connectWarned evs =
    filter (λ e, e ≠ context_Canceled) (omap snd (dialResults evs)) →
  connectedLogged evs = (filter (λ x, x.2 = None) (dialResults evs)).*1 →
  (∀ e, WarnConnect e ∈ evs ↔
        e ≠ context_Canceled ∧
        ∃ info, info ∈ peers ∧ host_Connect env info = Some e) ∧
  (∀ info, InfoConnected info ∈ evs ↔
           info ∈ peers ∧ host_Connect env info = None).
Proof.
  intros Hperm Hall Hw Hc.
  assert (∀ info r, (info, r) ∈ dialResults evs ↔
                    info ∈ peers ∧ r = host_Connect env info) as Hres.
  { intros info r. split.
    - intros Hin. split.
      + rewrite <- Hperm. apply list_elem_of_fmap. by exists (info, r).
      + rewrite Forall_forall in Hall. apply (Hall _ Hin).
    - intros [Hin ->]. rewrite <- Hperm in Hin.
      apply list_elem_of_fmap in Hin as ([info' r] & -> & Hin).
      rewrite Forall_forall in Hall. by rewrite <- (Hall _ Hin). }
  split.
  - intros e. rewrite elem_of_connectWarned, Hw, list_elem_of_filter.
    rewrite list_elem_of_omap. split.
    + intros [Hne ([info r] & Hin & Hr)]. simpl in Hr. subst r.
      apply Hres in Hin as [Hin Hr]. eauto.
    + intros [Hne (info & Hin & Hr)]. split; [done|].
      exists (info, Some e). split; [|done]. apply Hres. by rewrite Hr.
  - intros info. rewrite elem_of_connectedLogged, Hc, list_elem_of_fmap.
    split.
    + intros ([info' r] & -> & Hin). apply list_elem_of_filter in Hin as [Hr Hin].
      simpl in *. subst r. apply Hres in Hin as [Hin Hr]. by split.
    + intros [Hin Hr]. exists (info, None). split; [done|].
      apply list_elem_of_filter. split; [done|]. apply Hres. by rewrite Hr.
Qed.

(** C8: [Bootstrap] returns, and what it returns is the error of
    [dht.Bootstrap], wrapped, and nothing else: [nil] exactly when the DHT
    bootstrap succeeds.  In every run that returns, under every schedule:
    an address that does not parse is logged and not dialled; every other
    address is dialled, and every dial returns, exactly once, with what
    [host.Connect] answers; the warnings of the dials are the errors the
    dials returned, other than [context.Canceled], one for each and in the
    order in which the dials returned, and the successes reported are the
    dials that returned [nil]; so a warning for [e] is in the log exactly
    when [e] is not [context.Canceled] and some dialled peer failed with
    [e], and none of these errors is returned; [dht.Bootstrap] is called
    once, after every dial that was started has returned. *)
Theorem Bootstrap_returns_dht_error (env : @Env Multiaddr AddrInfo) :
  (∀ sched s, execAll env sched (initState env) = Some s →
     ∃ sched', Bootstrap env (sched ++ sched')
                 = Some (wrapDht (dht_Bootstrap env))) ∧
  (∀ sched r, Bootstrap env sched = Some r →
     r = wrapDht (dht_Bootstrap env) ∧
     (r = None ↔ dht_Bootstrap env = None) ∧
     ∃ s pre,
       execAll env sched (initState env) = Some s ∧
       st_events s = pre ++ [InfoAllConnected; DhtBootstrapCalled] ∧
       dhtCalls pre = 0 ∧
       dialsStarted pre = parsedPeers env (GetBootstrapPeers env) ∧
       dialsReturned pre = length (dialsStarted pre) ∧
       invalidWarned pre = invalidPeers env (GetBootstrapPeers env) ∧
       (dialResults pre).*1 ≡ₚ parsedPeers env (GetBootstrapPeers env) ∧
       Forall (λ x, x.2 = host_Connect env x.1) (dialResults pre) ∧
       connectWarned pre =
         filter (λ e, e ≠ context_Canceled) (omap snd (dialResults pre)) ∧
       connectedLogged pre =
         (filter (λ x, x.2 = None) (dialResults pre)).*1 ∧
       (∀ e, WarnConnect e ∈ st_events s ↔
             e ≠ context_Canceled ∧
             ∃ info, info ∈ parsedPeers env (GetBootstrapPeers env) ∧
                     host_Connect env info = Some e) ∧
       (∀ info, InfoConnected info ∈ st_events s ↔
                info ∈ parsedPeers env (GetBootstrapPeers env) ∧
                host_Connect env info = None)) ∧
  (∀ info,
     dhtCalls (dial env info) = 0 ∧
     (host_Connect env info = Some context_Canceled →
        dial env info = [ConnectReturned info (Some context_Canceled)]) ∧
     (∀ e, host_Connect env info = Some e → e ≠ context_Canceled →
        dial env info = [ConnectReturned info (Some e); WarnConnect e]) ∧
     (host_Connect env info = None →
        dial env info = [ConnectReturned info None; InfoConnected info])).
Proof.
  split; [|split].
  - intros sched s Hs.
    pose proof (inv_execAll env sched _ _ (inv_init env) Hs) as Hinv.
    destruct (st_result s) as [r|] eqn:Hres.
    + exists []. unfold Bootstrap. rewrite app_nil_r, Hs. simpl.
      destruct (inv_returned env s Hinv r Hres) as (-> & _). done.
    + destruct (drain_dials env (length (st_dialing s)) s Hres eq_refl)
        as (s1 & Hrun1 & Hres1 & Hd1 & Ht1).
      destruct (eager_run env (st_todo s1) s1 Hres1 Hd1 eq_refl)
        as (s2 & Hrun2 & Hres2).
      exists (replicate (length (st_dialing s)) (Worker 0)
                ++ eagerSchedule env (st_todo s1)).
      unfold Bootstrap. rewrite execAll_app, Hs. simpl.
      rewrite execAll_app, Hrun1. simpl. rewrite Hrun2. done.
  - intros sched r. unfold Bootstrap.
    destruct (execAll env sched (initState env)) as [s|] eqn:Hs; [|done].
    simpl. intros Hres.
    pose proof (inv_execAll env sched _ _ (inv_init env) Hs) as Hinv.
    pose proof (dialInv_execAll env sched _ _ (dialInv_init env) Hs)
      as [Hd1 Hd2 Hd3 Hd4].
    destruct (inv_returned env s Hinv r Hres)
      as (-> & Htodo & Hdialing & pre & Hevs & Hpre).
    split; [done|]. split.
    { destruct (dht_Bootstrap env); simpl; split; done. }
    exists s, pre. split; [done|]. split; [done|]. split; [done|].
    destruct (inv_peers env s Hinv) as (done & Hpeers & Hstarted & Hwarned).
    pose proof (inv_dials env s Hinv) as Hdials.
    rewrite Htodo, app_nil_r in Hpeers. subst done.
    rewrite Hdialing, app_nil_r in Hd4.
    assert (dialResults (st_events s) = dialResults pre) as Hr.
    { by rewrite Hevs, dialResults_app, app_nil_r. }
    assert (connectWarned (st_events s) = connectWarned pre) as Hw.
    { by rewrite Hevs, connectWarned_app, app_nil_r. }
    assert (connectedLogged (st_events s) = connectedLogged pre) as Hc.
    { by rewrite Hevs, connectedLogged_app, app_nil_r. }
    destruct (dial_lines env (st_events s)
                (parsedPeers env (GetBootstrapPeers env)))
      as [Hlw Hlc]; try done.
    { by rewrite Hd4, Hstarted. }
    rewrite Hr in Hd1, Hd2, Hd3, Hd4. rewrite Hw in Hd2. rewrite Hc in Hd3.
    rewrite Hstarted in Hd4.
    rewrite Hevs in Hstarted, Hwarned, Hdials.
    rewrite dialsStarted_app in Hstarted, Hdials.
    rewrite invalidWarned_app in Hwarned.
    rewrite dialsReturned_app in Hdials. simpl in *.
    rewrite app_nil_r in *. rewrite Hdialing in Hdials. simpl in Hdials.
    split_and!; try done; lia.
  - intros info.
    destruct (dial_events env info) as (_ & _ & _ & H1 & H2 & H3 & H4).
    done.
Qed.

End BootstrapProperties.

(** * Further properties of the code *)

(** ** Verification of a regenerated checksum *)

Local Open Scope Z_scope.

(** The carry fold keeps the value modulo [0xffff], and keeps it positive. *)
Lemma foldHalves_mod v :
  0 ≤ v →
  0 ≤ RFC1071.foldHalves v ≤ 0xffff ∧
  RFC1071.foldHalves v `mod` 65535 = v `mod` 65535 ∧
  (0 < v → 0 < RFC1071.foldHalves v).
Proof.
  remember (Z.to_nat v) as n eqn:Hn. revert v Hn.
  induction n as [n IH] using lt_wf_ind. intros v Hn Hv.
  rewrite foldHalves_eq. case_decide as Hgt; [|lia].
  rewrite foldRound by done.
  pose proof (Z.div_mod v 65536 ltac:(lia)) as Hdm.
  pose proof (Z.mod_pos_bound v 65536 ltac:(lia)) as Hm.
  assert (1 ≤ v `div` 65536) as Hq by (apply Z.div_le_lower_bound; lia).
  set (w := v `div` 65536 + v `mod` 65536) in *.
  destruct (IH (Z.to_nat w) ltac:(lia) w eq_refl ltac:(lia))
    as (Hb & Hmod & Hpos).
  split; [done|]. split; [|intros; apply Hpos; lia].
  rewrite Hmod.
  transitivity ((w + v `div` 65536 * 65535) `mod` 65535);
    [by rewrite Z.mod_add by lia|f_equal; lia].
Qed.

Lemma foldHalves_full v :
  0 < v → v `mod` 65535 = 0 → RFC1071.foldHalves v = 65535.
Proof.
  intros Hv Hm. destruct (foldHalves_mod v ltac:(lia)) as (Hb & Hmod & Hpos).
  specialize (Hpos Hv). rewrite Hm in Hmod.
  destruct (decide (RFC1071.foldHalves v = 65535)) as [|Hne]; [done|].
  rewrite Z.mod_small in Hmod by lia. lia.
Qed.

(** Adding the complement of its folded sum to a positive sum gives a
    multiple of [0xffff]. *)
Lemma complement_completes s :
  0 < s →
  RFC1071.foldHalves (s + RFC1071.onesComplement (RFC1071.foldHalves s))
    = 65535.
Proof.
  intros Hs. destruct (foldHalves_mod s ltac:(lia)) as (Hb & Hmod & Hpos).
  specialize (Hpos Hs). unfold RFC1071.onesComplement.
  apply foldHalves_full; [lia|].
  set (f := RFC1071.foldHalves s) in *.
  pose proof (Z.div_mod s 65535 ltac:(lia)) as Hs'.
  pose proof (Z.div_mod f 65535 ltac:(lia)) as Hf'.
  rewrite Hmod in Hf'.
  replace (s + (65535 - f))
    with ((s `div` 65535 + 1 - f `div` 65535) * 65535) by lia.
  by apply Z.mod_mul.
Qed.

(** The word sum after a store of one 16-bit word at an even offset. *)
Lemma write2_cons2 (a b : Z) (l : list Z) (i : nat) (x y : Z) :
  write2 (a :: b :: l) (S (S i)) x y = a :: b :: write2 l i x y.
Proof. reflexivity. Qed.

Lemma wordSum_cons2 a b l :
  RFC1071.wordSum (a :: b :: l) = a * 256 + b + RFC1071.wordSum l.
Proof.
  change (RFC1071.wordSum (a :: b :: l))
    with (Z.shiftl a 8 + b + RFC1071.wordSum l).
  by rewrite shiftl8.
Qed.

Lemma wordSum_write2 (k : nat) :
  ∀ (h : list Z) (x y : Z),
    (2 * k + 2 ≤ length h)%nat →
    RFC1071.wordSum (write2 h (2 * k) x y) =
      RFC1071.wordSum (write2 h (2 * k) 0 0) + (x * 256 + y).
Proof.
  induction k as [|k IH]; intros h x y Hl.
  - destruct h as [|a [|b h]]; simpl in Hl; try lia.
    change (write2 (a :: b :: h) (2 * 0) x y) with (x :: y :: h).
    change (write2 (a :: b :: h) (2 * 0) 0 0) with (0 :: 0 :: h).
    rewrite !wordSum_cons2. lia.
  - destruct h as [|a [|b h]]; simpl in Hl; try lia.
    replace (2 * S k)%nat with (S (S (2 * k))) by lia.
    rewrite !write2_cons2, !wordSum_cons2. rewrite IH by lia. lia.
Qed.

Lemma wordSum_write2_eq (h : list Z) (k : nat) (x y : Z) :
  write2 h (2 * k) x y = write2 (write2 h (2 * k) 0 0) (2 * k) x y.
Proof. by rewrite write2_write2_eq. Qed.

Lemma be16_value ck :
  0 ≤ ck ≤ 0xffff → u8 (Z.shiftr ck 8) * 256 + u8 ck = ck.
Proof.
  intros. unfold u8. rewrite Z.shiftr_div_pow2 by lia.
  change (2 ^ 8) with 256.
  pose proof (Z.div_mod ck 256 ltac:(lia)).
  pose proof (Z.mod_pos_bound ck 256 ltac:(lia)).
  assert (0 ≤ ck `div` 256 < 256).
  { split; [apply Z.div_pos; lia|apply Z.div_lt_upper_bound; lia]. }
  rewrite (Z.mod_small (ck `div` 256)) by lia. lia.
Qed.

Lemma u8_is_byte z : is_byte (u8 z).
Proof. unfold is_byte, u8. apply Z.mod_pos_bound. lia. Qed.

Lemma onesComplement_range v :
  0 ≤ v → 0 ≤ RFC1071.onesComplement (RFC1071.foldHalves v) ≤ 0xffff.
Proof.
  intros Hv. destruct (foldHalves_mod v Hv) as (Hb & _).
  unfold RFC1071.onesComplement. lia.
Qed.

(** A header whose checksum field holds the checksum of the header with
    that field zeroed has checksum 0: it passes the receiver's check. *)
Lemma header_verifies (h : list Z) (k : nat) :
  Forall is_byte h → Z.of_nat (length h) ≤ 65535 →
  (2 * k + 2 ≤ length h)%nat →
  0 < RFC1071.wordSum (write2 h (2 * k) 0 0) →
  let ck := checksumIPv4Header (write2 h (2 * k) 0 0) in
  checksumIPv4Header (write2 h (2 * k) (u8 (Z.shiftr ck 8)) (u8 ck)) = 0.
Proof.
  intros Hb Hl Hk Hpos ck.
  assert (Forall is_byte (write2 h (2 * k) 0 0)) as Hb0.
  { apply Forall_write2; done. }
  pose proof (wordSum_bounds _ Hb0) as Hw0.
  assert (ck = RFC1071.ipv4_header_checksum (write2 h (2 * k) 0 0)) as Hck.
  { apply checksumIPv4Header_refines; [done|]. by rewrite length_write2. }
  unfold RFC1071.ipv4_header_checksum in Hck.
  pose proof (onesComplement_range (RFC1071.wordSum (write2 h (2 * k) 0 0))
                ltac:(lia)) as Hr.
  rewrite <- Hck in Hr.
  rewrite checksumIPv4Header_refines.
  2:{ apply Forall_write2; [done|apply u8_is_byte..]. }
  2:{ by rewrite length_write2. }
  unfold RFC1071.ipv4_header_checksum.
  rewrite wordSum_write2 by done. rewrite be16_value by done.
  rewrite Hck. rewrite complement_completes by done. done.
Qed.


Lemma wordSum_first (a : Z) (h : list Z) :
  Forall is_byte h → h !! 0%nat = Some a → a * 256 ≤ RFC1071.wordSum h.
Proof.
  intros Hb Ha. destruct h as [|a' [|b h]]; [done|..]; injection Ha as ->.
  - simpl. rewrite shiftl8. lia.
  - apply Forall_cons in Hb as [[??] Hb]. apply Forall_cons in Hb as [[??] Hb].
    pose proof (wordSum_bounds h Hb). rewrite wordSum_cons2. lia.
Qed.

Lemma ihlOf_le b0 : 0 ≤ b0 → Z.of_nat (ihlOf b0) ≤ 4 * b0.
Proof.
  intros. unfold ihlOf. rewrite Z.shiftl_mul_pow2 by lia.
  change 15 with (Z.ones 4). rewrite Z.land_ones by lia.
  pose proof (Z.mod_pos_bound b0 (2 ^ 4) ltac:(lia)).
  pose proof (Z.mod_le b0 (2 ^ 4) ltac:(lia) ltac:(lia)). lia.
Qed.

(** [checksumIPv4TCPUDP] as a sum over unbounded integers, for what fits an
    IPv4 datagram. *)
Lemma checksumIPv4TCPUDP_sum (l4 : list Z) (protocol : Z) (src dst : list Z) :
  Forall is_byte l4 → Z.of_nat (length l4) ≤ 65535 →
  0 ≤ protocol ≤ 255 →
  length src = 4%nat → Forall is_byte src →
  length dst = 4%nat → Forall is_byte dst →
  checksumIPv4TCPUDP l4 protocol src dst =
    Some (RFC1071.onesComplement
            (RFC1071.foldHalves
               (RFC1071.wordSum
                  (RFC1071.pseudoHeader src dst protocol (Z.of_nat (length l4)))
                + RFC1071.wordSum l4))) ∧
  protocol ≤
    RFC1071.wordSum
      (RFC1071.pseudoHeader src dst protocol (Z.of_nat (length l4))).
Proof.
  intros Hb Hlen Hp Hls Hs Hld Hd.
  destruct src as [|s0 [|s1 [|s2 [|s3 [|]]]]]; try discriminate.
  destruct dst as [|d0 [|d1 [|d2 [|d3 [|]]]]]; try discriminate.
  repeat match goal with
         | H : Forall is_byte (_ :: _) |- _ =>
             apply Forall_cons in H as [[??] H]
         end.
  pose proof (wordSum_bounds l4 Hb) as Hw.
  set (n := Z.of_nat (length l4)) in *.
  rewrite wordSum_pseudoHeader by lia. split; [|lia].
  unfold checksumIPv4TCPUDP. fold n.
  change ([s0; s1; s2; s3] !! 0%nat) with (Some s0).
  change ([s0; s1; s2; s3] !! 1%nat) with (Some s1).
  change ([s0; s1; s2; s3] !! 2%nat) with (Some s2).
  change ([s0; s1; s2; s3] !! 3%nat) with (Some s3).
  change ([d0; d1; d2; d3] !! 0%nat) with (Some d0).
  change ([d0; d1; d2; d3] !! 1%nat) with (Some d1).
  change ([d0; d1; d2; d3] !! 2%nat) with (Some d2).
  change ([d0; d1; d2; d3] !! 3%nat) with (Some d3).
  cbn [mbind option_bind].
  rewrite (u32_small n) by lia.
  change 65535 with (Z.ones 16). rewrite Z.land_ones by lia.
  rewrite (Z.mod_small n) by lia.
  rewrite Z.shiftr_div_pow2, (Z.div_small n) by lia.
  rewrite (add32_exact s0 s2), (add32_exact s1 s3),
    (add32_exact d0 d2), (add32_exact d1 d3) by lia.
  rewrite !shl32_small by lia.
  repeat match goal with
         | |- context [add32 ?a ?b] => rewrite (add32_exact a b) by lia
         end.
  rewrite tcpipChecksum_eq.
  rewrite tcpipWords_sum by (done || lia).
  rewrite fold_refines by lia. do 3 f_equal. lia.
Qed.

(** A segment whose checksum field holds the checksum computed with that
    field zeroed has checksum 0 under the same pseudo-header. *)
Lemma l4_verifies (l4 : list Z) (protocol : Z) (src dst : list Z) (k : nat)
    (t : Z) :
  Forall is_byte l4 → Z.of_nat (length l4) ≤ 65535 →
  0 < protocol ≤ 255 →
  length src = 4%nat → Forall is_byte src →
  length dst = 4%nat → Forall is_byte dst →
  (2 * k + 2 ≤ length l4)%nat →
  checksumIPv4TCPUDP (write2 l4 (2 * k) 0 0) protocol src dst = Some t →
  checksumIPv4TCPUDP (write2 l4 (2 * k) (u8 (Z.shiftr t 8)) (u8 t))
    protocol src dst = Some 0.
Proof.
  intros Hb Hl Hp Hls Hs Hld Hd Hk Ht.
  rewrite (wordSum_write2_eq l4 k (u8 (Z.shiftr t 8)) (u8 t)) by done.
  set (z := write2 l4 (2 * k) 0 0) in *.
  assert (Forall is_byte z) as Hb0 by (apply Forall_write2; done).
  assert (length z = length l4) as Hlz by apply length_write2.
  pose proof (wordSum_bounds _ Hb0) as Hw0.
  destruct (checksumIPv4TCPUDP_sum z protocol src dst)
    as [Hsum Hpos]; try done; try lia.
  rewrite Hsum in Ht. apply (inj Some) in Ht.
  set (P := RFC1071.wordSum
              (RFC1071.pseudoHeader src dst protocol (Z.of_nat (length z))))
    in *.
  pose proof (onesComplement_range (P + RFC1071.wordSum z) ltac:(lia)) as Hr.
  rewrite Ht in Hr.
  set (z' := write2 z (2 * k) (u8 (Z.shiftr t 8)) (u8 t)) in *.
  assert (length z' = length z) as Hlz' by apply length_write2.
  destruct (checksumIPv4TCPUDP_sum z' protocol src dst)
    as [Hsum' _]; try done; try lia.
  { apply Forall_write2; [done|apply u8_is_byte..]. }
  rewrite Hsum'. rewrite Hlz'. fold P. unfold z'.
  rewrite wordSum_write2 by lia.
  replace (write2 z (2 * k) 0 0) with z
    by (unfold z; by rewrite write2_write2_eq).
  rewrite be16_value by done.
  rewrite Z.add_assoc. rewrite <- Ht.
  rewrite complement_completes by lia. done.
Qed.

Local Close Scope Z_scope.

(** What [RecalculateChecksum] leaves, on the flattened form. *)
Lemma rcFlat_header_verifies (data d1 : Packet) (o l c : nat) (b0 : Z) :
  length (Buffer data) = maxContentSize → Forall is_byte (Buffer data) →
  l ≤ c → o + c = maxContentSize →
  Buffer data !! o = Some b0 → 12 ≤ ihlOf b0 →
  rcFlat data o l c = Some d1 →
  checksumIPv4Header (bytesOf (Buffer d1) (Slice o (ihlOf b0) c)) = 0%Z.
Proof.
  intros Hlen Hbytes Hlc Hoc Hb0 H12 HR.
  apply rcFlat_Some in HR as (b0' & protocol & Hb0' & Hl12 & Hihl & HR).
  cbv zeta in HR. rewrite Hb0 in Hb0'. injection Hb0' as <-.
  set (ihl := ihlOf b0) in *.
  set (h := bytesOf (Buffer data) (Slice o ihl c)).
  set (buf1 := write2 (Buffer data) (o + 10) 0 0) in *.
  set (ck := checksumIPv4Header (bytesOf buf1 (Slice o ihl c))) in *.
  set (buf2 := write2 (Buffer data) (o + 10) (u8 (Z.shiftr ck 8)) (u8 ck)) in *.
  destruct HR as [_ HR].
  assert (bytesOf (Buffer d1) (Slice o ihl c) = bytesOf buf2 (Slice o ihl c))
    as ->.
  { destruct HR as [(_ & _ & ->) | (ft & Hft & HL)]; [done|].
    apply l4Flat_Some in HL as (Hft2 & Hil & t & Ht & ->). simpl.
    apply bytesOf_write2_disjoint. simpl. lia. }
  assert (length h = ihl) as Hlh.
  { unfold h. rewrite length_bytesOf; simpl; lia. }
  assert (bytesOf buf1 (Slice o ihl c) = write2 h (2 * 5) 0 0) as Hh1.
  { unfold buf1, h. apply bytesOf_write2_in; lia. }
  unfold buf2. rewrite bytesOf_write2_in by lia. fold h.
  unfold ck. rewrite Hh1.
  assert (Forall is_byte h) as Hbh by (by apply Forall_bytesOf).
  assert (is_byte b0) as [Hb00 Hb01].
  { by apply (Forall_lookup_1 is_byte (Buffer data) o b0). }
  pose proof maxContentSize_eq.
  apply (header_verifies h 5); try done; try lia.
  assert (write2 h (2 * 5) 0 0 !! 0 = Some b0) as H0.
  { rewrite lookup_write2_ne by lia. unfold h. rewrite lookup_bytesOf. simpl.
    rewrite decide_True by lia. by rewrite Nat.add_0_r. }
  pose proof (wordSum_first b0 _ (Forall_write2 h (2 * 5) 0%Z 0%Z Hbh
                ltac:(done) ltac:(done)) H0) as Hfirst.
  pose proof (ihlOf_le b0 Hb00) as Hle. fold ihl in Hle. lia.
Qed.

Lemma rcFlat_transport_verifies (data d1 : Packet) (o l c : nat)
    (b0 protocol : Z) :
  length (Buffer data) = maxContentSize → Forall is_byte (Buffer data) →
  l ≤ c → o + c = maxContentSize →
  Buffer data !! o = Some b0 → Buffer data !! (o + 9) = Some protocol →
  Src data = Slice (o + 12) 4 (c - 12) →
  Dst data = Slice (o + 16) 4 (c - 16) →
  protocol = 6%Z ∨ protocol = 17%Z → 20 ≤ ihlOf b0 →
  rcFlat data o l c = Some d1 →
  checksumIPv4TCPUDP
    (bytesOf (Buffer d1) (Slice (o + ihlOf b0) (l - ihlOf b0) (c - ihlOf b0)))
    protocol (bytesOf (Buffer d1) (Src d1)) (bytesOf (Buffer d1) (Dst d1))
    = Some 0%Z.
Proof.
  intros Hlen Hbytes Hlc Hoc Hb0 Hp HS HD Hproto H20 HR.
  apply rcFlat_Some in HR as (b0' & protocol' & Hb0' & Hl12 & Hihl & HR).
  cbv zeta in HR. rewrite Hb0 in Hb0'. injection Hb0' as <-.
  destruct (ihlOf_spec b0) as (k & Hk & Hk15).
  set (ihl := ihlOf b0) in *.
  set (ck := checksumIPv4Header _) in HR.
  set (buf2 := write2 (Buffer data) (o + 10) (u8 (Z.shiftr ck 8)) (u8 ck)) in *.
  destruct HR as [Hp' HR].
  unfold buf2 in Hp'. rewrite lookup_write2_ne in Hp' by lia.
  rewrite Hp in Hp'. injection Hp' as <-.
  destruct HR as [(Hn6 & Hn17 & _) | (ft & Hft & HL)]; [by destruct Hproto|].
  apply l4Flat_Some in HL as (Hft2 & Hil & t & Ht & ->).
  assert (∃ j, ft = ihl + 2 * j) as [j Hj].
  { destruct Hft as [[_ ->]|[_ ->]]; [by exists 8|by exists 3]. }
  assert (length buf2 = maxContentSize) as Hlen2.
  { unfold buf2. by rewrite length_write2. }
  assert (Forall is_byte buf2) as Hbytes2.
  { apply Forall_write2; [done|apply u8_is_byte..]. }
  set (L4 := Slice (o + ihl) (l - ihl) (c - ihl)) in *.
  set (seg := bytesOf buf2 L4).
  assert (length seg = l - ihl) as Hlseg.
  { unfold seg. rewrite length_bytesOf; simpl; lia. }
  assert (∀ x y,
            bytesOf (write2 buf2 (o + ft) x y) L4 = write2 seg (2 * j) x y)
    as Hseg.
  { intros x y. unfold seg, L4. replace (o + ft) with (o + ihl + 2 * j) by lia.
    apply bytesOf_write2_in; lia. }
  assert (∀ x y s, s = Src data ∨ s = Dst data →
            bytesOf (write2 buf2 (o + ft) x y) s = bytesOf buf2 s ∧
            length (bytesOf buf2 s) = 4) as Haddr.
  { intros x y s [->| ->]; rewrite ?HS, ?HD; (split;
      [apply bytesOf_write2_disjoint; simpl; lia
      |rewrite length_bytesOf; simpl; lia]). }
  destruct (Haddr 0%Z 0%Z (Src data)) as [Hs0 Hsl]; [by left|].
  destruct (Haddr 0%Z 0%Z (Dst data)) as [Hd0 Hdl]; [by right|].
  rewrite Hseg, Hs0, Hd0 in Ht.
  assert (u32 protocol = protocol) as Hu.
  { apply u32_small. destruct Hproto as [-> | ->]; lia. }
  rewrite Hu in Ht. simpl.
  destruct (Haddr (u8 (Z.shiftr t 8)) (u8 t) (Src data)) as [-> _]; [by left|].
  destruct (Haddr (u8 (Z.shiftr t 8)) (u8 t) (Dst data)) as [-> _]; [by right|].
  rewrite Hseg.
  apply l4_verifies; try done; try lia.
  - by apply Forall_bytesOf.
  - pose proof maxContentSize_eq. lia.
  - by apply Forall_bytesOf.
  - by apply Forall_bytesOf.
Qed.

Lemma rcFlat_frame (data d1 : Packet) (o l c : nat) (b0 protocol : Z) :
  Buffer data !! o = Some b0 → Buffer data !! (o + 9) = Some protocol →
  rcFlat data o l c = Some d1 →
  PacketS d1 = PacketS data ∧ Src d1 = Src data ∧ Dst d1 = Dst data ∧
  IsIPv6 d1 = IsIPv6 data ∧ length (Buffer d1) = length (Buffer data) ∧
  ∀ i, Buffer d1 !! i ≠ Buffer data !! i →
    i = o + 10 ∨ i = o + 11 ∨
    (protocol = 6%Z ∧ (i = o + ihlOf b0 + 16 ∨ i = o + ihlOf b0 + 17)) ∨
    (protocol = 17%Z ∧ (i = o + ihlOf b0 + 6 ∨ i = o + ihlOf b0 + 7)).
Proof.
  intros Hb0 Hp HR.
  apply rcFlat_Some in HR as (b0' & protocol' & Hb0' & Hl12 & Hihl & HR).
  cbv zeta in HR. rewrite Hb0 in Hb0'. injection Hb0' as <-.
  set (ihl := ihlOf b0) in *.
  set (ck := checksumIPv4Header _) in HR.
  set (buf2 := write2 (Buffer data) (o + 10) (u8 (Z.shiftr ck 8)) (u8 ck)) in *.
  destruct HR as [Hp' HR].
  unfold buf2 in Hp'. rewrite lookup_write2_ne in Hp' by lia.
  rewrite Hp in Hp'. injection Hp' as <-.
  destruct HR as [(Hn6 & Hn17 & ->) | (ft & Hft & HL)].
  - simpl. repeat split; try done.
    + unfold buf2. by rewrite length_write2.
    + intros i Hi. destruct (decide (i = o + 10)); [by left|].
      destruct (decide (i = o + 11)); [by right; left|].
      exfalso. apply Hi. unfold buf2. apply lookup_write2_ne; lia.
  - apply l4Flat_Some in HL as (Hft2 & Hil & t & Ht & ->).
    simpl. repeat split; try done.
    + unfold buf2. by rewrite !length_write2.
    + intros i Hi. destruct (decide (i = o + 10)); [by left|].
      destruct (decide (i = o + 11)); [by right; left|].
      destruct (decide (i = o + ft)) as [->|].
      { right; right. destruct Hft as [[-> ->]|[-> ->]];
          [left|right]; (split; [done|left; lia]). }
      destruct (decide (i = o + ft + 1)) as [->|].
      { right; right. destruct Hft as [[-> ->]|[-> ->]];
          [left|right]; (split; [done|right; lia]). }
      exfalso. apply Hi. rewrite lookup_write2_ne by lia.
      unfold buf2. apply lookup_write2_ne; lia.
Qed.

Lemma index_Slice buf o l c i b :
  index buf (Slice o l c) i = Some b → i < l ∧ buf !! (o + i) = Some b.
Proof.
  unfold index. simpl. case_decide; [|done]. intros. split; [lia|done].
Qed.

(** X1: after [RecalculateChecksum] the IPv4 header passes the receiver's
    check: the checksum of [packet[:ihl]], checksum field included, is 0.
    The header must hold its checksum field ([ihl >= 12]). *)
Theorem header_checksum_verifies (data d1 : Packet) (o l c : nat) (b0 : Z) :
  wf_packet data → IsIPv6 data = false → PacketS data = Slice o l c →
  index (Buffer data) (PacketS data) 0 = Some b0 →
  12 ≤ ihlOf b0 →
  RecalculateChecksum data = Some d1 →
  ∃ header,
    sliceTo (PacketS d1) (ihlOf b0) = Some header ∧
    checksumIPv4Header (bytesOf (Buffer d1) header) = 0%Z.
Proof.
  intros [Hlen Hbytes Hwf _ _] H6 HPS Hb0 H12 HR.
  rewrite HPS in *. simpl in Hwf. destruct Hwf as [Hlc Hoc].
  apply index_Slice in Hb0 as [_ Hb0]. rewrite Nat.add_0_r in Hb0.
  rewrite (RecalculateChecksum_flat data o l c) in HR by done.
  exists (Slice o (ihlOf b0) c). split.
  - destruct (rcFlat_withBuffer _ _ _ _ _ HR) as [B ->]. simpl. rewrite HPS.
    apply rcFlat_Some in HR as (b0' & _ & Hb0' & _ & Hihl & _).
    rewrite Hb0 in Hb0'. injection Hb0' as <-.
    unfold sliceTo. rewrite slice3_Some by (simpl; lia). simpl.
    by rewrite Nat.add_0_r, !Nat.sub_0_r.
  - by apply (rcFlat_header_verifies data d1 o l c b0).
Qed.

(** X2: after [RecalculateChecksum] on a parsed IPv4 packet that carries
    TCP or UDP behind a header of at least 20 bytes, the transport checksum
    verifies: computed over [packet[ihl:]], checksum field included, and
    the pseudo-header of the packet's own addresses, it is 0. *)
Theorem transport_checksum_verifies (data d1 : Packet) (b0 protocol : Z) :
  wf_packet data → Parse data = Some (true, data) → IsIPv6 data = false →
  index (Buffer data) (PacketS data) 0 = Some b0 →
  index (Buffer data) (PacketS data) 9 = Some protocol →
  protocol = 6%Z ∨ protocol = 17%Z →
  20 ≤ ihlOf b0 →
  RecalculateChecksum data = Some d1 →
  ∃ l4,
    sliceFrom (PacketS d1) (ihlOf b0) = Some l4 ∧
    checksumIPv4TCPUDP (bytesOf (Buffer d1) l4) protocol
      (bytesOf (Buffer d1) (Src d1)) (bytesOf (Buffer d1) (Dst d1)) = Some 0%Z.
Proof.
  intros [Hlen Hbytes Hwf _ _] HP H6 Hb0 Hp Hproto H20 HR.
  assert (len (PacketS data) ≤ cap (PacketS data)) as Hlc.
  { destruct (PacketS data); simpl in *; lia. }
  destruct (Parse_fixed_ipv4 data Hlc HP H6)
    as (o & l & c & b0' & HPS & Hl20 & _ & _ & _ & HS & HD).
  rewrite HPS in *. simpl in Hwf, Hlc. destruct Hwf as [_ Hoc]. clear b0'.
  apply index_Slice in Hb0 as [_ Hb0]. rewrite Nat.add_0_r in Hb0.
  apply index_Slice in Hp as [_ Hp].
  rewrite (RecalculateChecksum_flat data o l c) in HR by done.
  exists (Slice (o + ihlOf b0) (l - ihlOf b0) (c - ihlOf b0)). split.
  - destruct (rcFlat_withBuffer _ _ _ _ _ HR) as [B ->]. simpl. rewrite HPS.
    apply rcFlat_Some in HR as (b0' & p' & Hb0' & _ & _ & Hp' & HR).
    rewrite Hb0 in Hb0'. injection Hb0' as <-.
    rewrite lookup_write2_ne in Hp' by lia.
    rewrite Hp in Hp'. injection Hp' as <-.
    destruct HR as [(? & ? & _)|(ft & _ & HL)]; [by destruct Hproto|].
    apply l4Flat_Some in HL as (_ & Hil & _).
    unfold sliceFrom. by rewrite slice3_Some by (simpl; lia).
  - by apply (rcFlat_transport_verifies data d1 o l c b0 protocol).
Qed.

(** X3: [RecalculateChecksum] stores into the two checksum fields and
    nowhere else: the views and the length of the buffer are kept, and a
    byte of the buffer that differs afterwards is one of the two bytes at
    [packet[10:12]] or, for TCP and UDP, of the two bytes of the transport
    checksum.  No validity of the packet is needed. *)
Theorem RecalculateChecksum_frame (data d1 : Packet) (o l c : nat)
    (b0 protocol : Z) :
  IsIPv6 data = false → PacketS data = Slice o l c → l ≤ c →
  index (Buffer data) (PacketS data) 0 = Some b0 →
  index (Buffer data) (PacketS data) 9 = Some protocol →
  RecalculateChecksum data = Some d1 →
  PacketS d1 = PacketS data ∧ Src d1 = Src data ∧ Dst d1 = Dst data ∧
  IsIPv6 d1 = false ∧ length (Buffer d1) = length (Buffer data) ∧
  ∀ i, Buffer d1 !! i ≠ Buffer data !! i →
    i = o + 10 ∨ i = o + 11 ∨
    (protocol = 6%Z ∧ (i = o + ihlOf b0 + 16 ∨ i = o + ihlOf b0 + 17)) ∨
    (protocol = 17%Z ∧ (i = o + ihlOf b0 + 6 ∨ i = o + ihlOf b0 + 7)).
Proof.
  intros H6 HPS Hlc Hb0 Hp HR. rewrite HPS in *.
  apply index_Slice in Hb0 as [_ Hb0]. rewrite Nat.add_0_r in Hb0.
  apply index_Slice in Hp as [_ Hp].
  rewrite (RecalculateChecksum_flat data o l c) in HR by done.
  destruct (rcFlat_frame data d1 o l c b0 protocol Hb0 Hp HR)
    as (H1 & H2 & H3 & H4 & H5 & Hi).
  rewrite HPS in H1. rewrite H6 in H4. done.
Qed.

(** ** Detection of a changed byte *)

Local Open Scope Z_scope.

Lemma wordSum_insert (h : list Z) :
  ∀ (i : nat) (b b' : Z),
    h !! i = Some b →
    RFC1071.wordSum (<[i := b']> h) =
      RFC1071.wordSum h + (b' - b) * byteWeight i.
Proof.
  induction h as [| a | a a' h IH] using list_pair_ind; intros i b b' Hi.
  - done.
  - destruct i as [|i]; [|done]. injection Hi as ->.
    simpl. rewrite !shiftl8. unfold byteWeight. simpl. lia.
  - destruct i as [|[|i]].
    + injection Hi as ->. simpl insert. rewrite !wordSum_cons2.
      unfold byteWeight. simpl. lia.
    + injection Hi as ->. simpl insert. rewrite !wordSum_cons2.
      unfold byteWeight. simpl. lia.
    + simpl insert. rewrite !wordSum_cons2.
      rewrite (IH i b b') by done.
      unfold byteWeight. rewrite Nat.even_succ_succ. lia.
Qed.

Lemma checksum_zero_iff s :
  0 ≤ s →
  RFC1071.onesComplement (RFC1071.foldHalves s) = 0 → s `mod` 65535 = 0.
Proof.
  intros Hs H0. destruct (foldHalves_mod s Hs) as (Hb & Hmod & _).
  unfold RFC1071.onesComplement in H0.
  replace (RFC1071.foldHalves s) with 65535 in Hmod by lia.
  rewrite <- Hmod. done.
Qed.

Lemma changed_byte_changes_sum (s s' b b' : Z) (i : nat) :
  is_byte b → is_byte b' → b' ≠ b →
  s' = s + (b' - b) * byteWeight i →
  s `mod` 65535 = 0 → s' `mod` 65535 ≠ 0.
Proof.
  intros [??] [??] Hne -> Hs Hs'.
  pose proof (Z.div_mod s 65535 ltac:(lia)) as Hd.
  pose proof (Z.div_mod (s + (b' - b) * byteWeight i) 65535 ltac:(lia)) as Hd'.
  rewrite Hs in Hd. rewrite Hs' in Hd'.
  unfold byteWeight in *. destruct (Nat.even i); lia.
Qed.

(** X4: a changed byte is detected.  If a header passes the check
    ([checksumIPv4Header] gives 0), the header with any one byte changed
    does not; and likewise for a TCP or UDP segment under a fixed
    pseudo-header. *)
Theorem checksum_detects_changed_byte (h : list Z) (i : nat) (b b' : Z) :
  Forall is_byte h → Z.of_nat (length h) ≤ 65535 →
  h !! i = Some b → is_byte b' → b' ≠ b →
  (checksumIPv4Header h = 0 → checksumIPv4Header (<[i := b']> h) ≠ 0) ∧
  (∀ protocol src dst,
     0 ≤ protocol ≤ 255 →
     length src = 4%nat → Forall is_byte src →
     length dst = 4%nat → Forall is_byte dst →
     checksumIPv4TCPUDP h protocol src dst = Some 0 →
     checksumIPv4TCPUDP (<[i := b']> h) protocol src dst ≠ Some 0).
Proof.
  intros Hb Hl Hi Hb' Hne.
  assert (is_byte b) as Hbb by (by apply (Forall_lookup_1 is_byte h i b)).
  assert (Forall is_byte (<[i := b']> h)) as Hbh' by (by apply Forall_insert).
  pose proof (wordSum_bounds h Hb) as Hw.
  pose proof (wordSum_bounds _ Hbh') as Hw'.
  pose proof (wordSum_insert h i b b' Hi) as Hins.
  split.
  - rewrite !checksumIPv4Header_refines by (done || by rewrite length_insert).
    unfold RFC1071.ipv4_header_checksum. intros H0 H0'.
    apply checksum_zero_iff in H0; [|lia].
    apply checksum_zero_iff in H0'; [|lia].
    by apply (changed_byte_changes_sum _ _ b b' i Hbb Hb' Hne Hins H0).
  - intros protocol src dst Hp Hls Hs Hld Hd.
    destruct (checksumIPv4TCPUDP_sum h protocol src dst) as [-> Hpos];
      try done.
    destruct (checksumIPv4TCPUDP_sum (<[i := b']> h) protocol src dst)
      as [-> Hpos']; try done.
    { by rewrite length_insert. }
    rewrite length_insert in *.
    set (P := RFC1071.wordSum (RFC1071.pseudoHeader src dst protocol _)) in *.
    intros H0 H0'. apply (inj Some) in H0. apply (inj Some) in H0'.
    apply checksum_zero_iff in H0; [|lia].
    apply checksum_zero_iff in H0'; [|lia].
    apply (changed_byte_changes_sum
             (P + RFC1071.wordSum h) (P + RFC1071.wordSum (<[i := b']> h))
             b b' i); try done.
    rewrite Hins. lia.
Qed.

Local Close Scope Z_scope.

(** ** ReadFrom *)

Lemma list_inserts_inserts (buf a b : list Z) (t : nat) :
  list_inserts (t + length a) b (list_inserts t a buf) =
    list_inserts t (a ++ b) buf.
Proof.
  apply list_eq. intros j.
  destruct (decide (j < t)) as [Hlt|Hge].
  { rewrite !list_lookup_inserts_lt by lia. done. }
  destruct (decide (length buf ≤ j)) as [Hout|Hin].
  { rewrite !(proj2 (lookup_ge_None _ _)); [done|..];
      rewrite ?length_inserts; lia. }
  destruct (decide (j < t + length a)) as [Ha|Ha].
  - rewrite list_lookup_inserts_lt by lia.
    rewrite !list_lookup_inserts by (rewrite ?length_app; lia).
    by rewrite lookup_app_l by lia.
  - destruct (decide (j < t + length a + length b)) as [Hb|Hb].
    + rewrite list_lookup_inserts by (rewrite ?length_inserts; lia).
      rewrite list_lookup_inserts by (rewrite ?length_app; lia).
      rewrite lookup_app_r by lia. f_equal. lia.
    + rewrite !list_lookup_inserts_ge by (rewrite ?length_app; lia). done.
Qed.

Lemma arraySlice_Some lo hi :
  lo ≤ hi → hi ≤ maxContentSize →
  arraySlice lo hi = Some (Slice lo (hi - lo) (maxContentSize - lo)).
Proof. intros. unfold arraySlice. by rewrite decide_True. Qed.

Lemma ReadFrom_loop_run (stream : list StreamRead) :
  ∀ (data : Packet) (t : nat),
    length (Buffer data) = maxContentSize →
    tunPacketOffset ≤ t →
    t + length (received stream) ≤ maxContentSize →
    let buf := list_inserts t (received stream) (Buffer data) in
    let n := (Z.of_nat (t + length (received stream))
              - Z.of_nat tunPacketOffset)%Z in
    ReadFrom_loop stream data t =
      if decide (ending stream = io_EOF) then
        Some (mkPacket buf
                (Slice tunPacketOffset
                   (t + length (received stream) - tunPacketOffset)
                   (maxContentSize - tunPacketOffset))
                (Src data) (Dst data) (IsIPv6 data), n, None)
      else Some (withBuffer data buf, n, Some (ending stream)).
Proof.
  induction stream as [|r stream IH]; intros data t Hlen Ht Hfit;
    cbn [ReadFrom_loop received ending] in *.
  - rewrite !arraySlice_Some by (simpl in *; lia). cbn [mbind option_bind].
    simpl. rewrite Nat.add_0_r. destruct data; done.
  - rewrite length_app in Hfit.
    rewrite (arraySlice_Some t maxContentSize) by lia. cbn [mbind option_bind].
    assert (copy (Buffer data)
              (Slice t (maxContentSize - t) (maxContentSize - t)) (sr_bytes r)
            = list_inserts t (sr_bytes r) (Buffer data)) as Hcopy.
    { unfold copy. simpl. by rewrite take_ge by lia. }
    rewrite Hcopy.
    destruct (sr_err r) as [e|] eqn:He.
    + rewrite app_nil_r. simpl in Hfit.
      destruct (decide (e = io_EOF)) as [->|Hne]; [|done].
      rewrite (arraySlice_Some tunPacketOffset) by lia. done.
    + rewrite IH; simpl; rewrite ?length_inserts; try lia.
      rewrite list_inserts_inserts, length_app, Nat.add_assoc.
      done.
Qed.


Lemma take_inserts_before (buf k : list Z) (t : nat) :
  take t (list_inserts t k buf) = take t buf.
Proof.
  apply list_eq. intros j. rewrite !lookup_take.
  case_decide; [|done]. by rewrite list_lookup_inserts_lt by lia.
Qed.

Lemma drop_inserts_after (buf k : list Z) (t : nat) :
  drop (t + length k) (list_inserts t k buf) = drop (t + length k) buf.
Proof.
  apply list_eq. intros j. rewrite !lookup_drop.
  by rewrite list_lookup_inserts_ge by lia.
Qed.

Lemma bytesOf_received (buf k : list Z) (t c : nat) :
  t + length k ≤ length buf →
  bytesOf (list_inserts t k buf) (Slice t (length k) c) = k.
Proof. intros. by apply bytesOf_inserts_field. Qed.

(** X5: [ReadFrom] on a stream that ends with [io.EOF] and fits the
    buffer returns the number of bytes received and no error; the packet
    view is [Buffer[4 : 4+n]] and holds exactly the bytes received, in
    order, whatever the buffer held before; the four bytes before the
    view and the bytes after it are kept, and so are [Src], [Dst] and
    [IsIPv6], which [ReadFrom] does not reset. *)
Theorem ReadFrom_until_eof (data : Packet) (stream : list StreamRead) :
  length (Buffer data) = maxContentSize →
  tunPacketOffset + length (received stream) ≤ maxContentSize →
  ending stream = io_EOF →
  let n := length (received stream) in
  ∃ d',
    ReadFrom data stream = Some (d', Z.of_nat n, None) ∧
    arraySlice tunPacketOffset (tunPacketOffset + n) = Some (PacketS d') ∧
    bytesOf (Buffer d') (PacketS d') = received stream ∧
    take tunPacketOffset (Buffer d') = take tunPacketOffset (Buffer data) ∧
    drop (tunPacketOffset + n) (Buffer d') =
      drop (tunPacketOffset + n) (Buffer data) ∧
    Src d' = Src data ∧ Dst d' = Dst data ∧ IsIPv6 d' = IsIPv6 data.
Proof.
  intros Hlen Hfit Heof n. unfold ReadFrom.
  rewrite ReadFrom_loop_run by (done || lia). rewrite decide_True by done.
  fold n. replace (tunPacketOffset + n - tunPacketOffset) with n by lia.
  eexists. split.
  { repeat f_equal. lia. }
  cbn [Buffer PacketS Src Dst IsIPv6].
  split.
  { rewrite arraySlice_Some by lia. repeat f_equal. lia. }
  split; [apply bytesOf_received; lia|].
  split; [apply take_inserts_before|].
  split; [apply drop_inserts_after|done].
Qed.

Lemma ReadFrom_loop_stops (pre : list StreamRead) :
  ∀ (r : StreamRead) (rest : list StreamRead) (data : Packet) (t : nat),
    is_Some (sr_err r) →
    ReadFrom_loop (pre ++ r :: rest) data t = ReadFrom_loop (pre ++ [r]) data t.
Proof.
  induction pre as [|q pre IH]; intros r rest data t [e He]; simpl.
  - rewrite He. done.
  - destruct (arraySlice t maxContentSize) as [p|]; [|done]. simpl.
    destruct (sr_err q); [done|]. apply IH. eauto.
Qed.

(** X6: when a read fails with an error other than [io.EOF], [ReadFrom]
    returns that error as it is, with the number of bytes received so far;
    those bytes are in the buffer, but the packet view is not set: it is
    what it was before the call.  Nothing is read after the first read that
    returns an error. *)
Theorem ReadFrom_error (data : Packet) (stream : list StreamRead) :
  length (Buffer data) = maxContentSize →
  tunPacketOffset + length (received stream) ≤ maxContentSize →
  ending stream ≠ io_EOF →
  ReadFrom data stream =
    Some (withBuffer data
            (list_inserts tunPacketOffset (received stream) (Buffer data)),
          Z.of_nat (length (received stream)), Some (ending stream)) ∧
  ∀ pre r rest,
    stream = pre ++ r :: rest → is_Some (sr_err r) →
    ReadFrom data stream = ReadFrom data (pre ++ [r]).
Proof.
  intros Hlen Hfit Herr. split.
  - unfold ReadFrom. rewrite ReadFrom_loop_run by (done || lia).
    rewrite decide_False by done. repeat f_equal. lia.
  - intros pre r rest -> Hr. by apply ReadFrom_loop_stops.
Qed.

(** ** From the stream to the TUN device *)

Lemma Forall_inserts (P : Z → Prop) (buf k : list Z) (i : nat) :
  Forall P buf → Forall P k → Forall P (list_inserts i k buf).
Proof.
  intros Hb Hk. revert i. induction Hk as [|x k Hx Hk IH]; intros i; [done|].
  simpl. apply Forall_insert; [apply IH|done].
Qed.

(** X7: a stream that delivers at least 20 bytes, the first of version 4,
    and ends with [io.EOF], gives after [ReadFrom] and [Parse] a packet as
    [WritePacket] and [RecalculateChecksum] expect it: parsed, IPv4, placed
    at [tunPacketOffset], holding exactly the bytes received. *)
Theorem ReadFrom_then_Parse (data : Packet) (stream : list StreamRead)
    (b0 : Z) :
  wf_packet data → Forall is_byte (received stream) →
  tunPacketOffset + length (received stream) ≤ maxContentSize →
  ending stream = io_EOF →
  received stream !! 0 = Some b0 → Z.shiftr b0 4 = 4%Z →
  20 ≤ length (received stream) →
  ∃ d1 d2,
    ReadFrom data stream =
      Some (d1, Z.of_nat (length (received stream)), None) ∧
    Parse d1 = Some (true, d2) ∧
    wf_packet d2 ∧ Parse d2 = Some (true, d2) ∧ IsIPv6 d2 = false ∧
    off (PacketS d2) = tunPacketOffset ∧
    bytesOf (Buffer d2) (PacketS d2) = received stream ∧
    bytesOf (Buffer d2) (Src d2) = take 4 (drop 12 (received stream)) ∧
    bytesOf (Buffer d2) (Dst d2) = take 4 (drop 16 (received stream)).
Proof.
  intros [Hlen Hbytes _ _ _] Hrb Hfit Heof Hb0 Hv H20.
  pose proof maxContentSize_eq as Hmax.
  set (pkt := received stream) in *. set (n := length pkt) in *.
  set (buf := list_inserts tunPacketOffset pkt (Buffer data)).
  set (d1 := mkPacket buf
               (Slice tunPacketOffset n (maxContentSize - tunPacketOffset))
               (Src data) (Dst data) (IsIPv6 data)).
  assert (ReadFrom data stream = Some (d1, Z.of_nat n, None)) as HR.
  { unfold ReadFrom. rewrite ReadFrom_loop_run by (done || lia).
    rewrite decide_True by done. fold pkt n buf. unfold d1.
    repeat f_equal; lia. }
  assert (bytesOf buf
            (Slice tunPacketOffset n (maxContentSize - tunPacketOffset))
          = pkt) as Hpkt.
  { apply bytesOf_received. lia. }
  assert (index (Buffer d1) (PacketS d1) 0 = Some b0) as Hi0.
  { unfold index. simpl. rewrite decide_True by lia.
    rewrite <- Hb0, <- Hpkt at 1. rewrite lookup_bytesOf. simpl.
    by rewrite decide_True by lia. }
  unfold tunPacketOffset in *.
  assert (Parse d1 =
          Some (true, mkPacket buf (Slice 4 n (maxContentSize - 4))
                        (Slice (4 + 12) 4 (maxContentSize - 4 - 12))
                        (Slice (4 + 16) 4 (maxContentSize - 4 - 16)) false))
    as HP1.
  { rewrite (Parse_unfold d1 b0 Hi0) by (simpl; lia). simpl.
    rewrite decide_True by done. by rewrite decide_False by lia. }
  set (d2 := mkPacket buf (Slice 4 n (maxContentSize - 4))
               (Slice (4 + 12) 4 (maxContentSize - 4 - 12))
               (Slice (4 + 16) 4 (maxContentSize - 4 - 16)) false) in *.
  exists d1, d2. split; [done|]. split; [done|].
  assert (length buf = maxContentSize) as Hlb.
  { unfold buf. by rewrite length_inserts. }
  split.
  { split; simpl; try done; try lia. by apply Forall_inserts. }
  split; [by apply (Parse_idem d1)|]. split; [done|]. split; [done|].
  split; [done|]. cbn [Buffer PacketS Src Dst].
  assert (∀ lo, lo + 4 ≤ n →
            bytesOf buf (Slice (4 + lo) 4 (maxContentSize - 4 - lo)) =
            take 4 (drop lo pkt)) as Hsub.
  { intros lo Hlo. rewrite <- Hpkt. by apply bytesOf_sub. }
  split; apply Hsub; lia.
Qed.


(** [WritePacket] on a parsed IPv4 packet, in flattened form: the two
    address copies, then [RecalculateChecksum], which completes, then one
    call of [tun.Write]; the error and the log line follow its answer. *)
Lemma WritePacket_run (d : Device) (data : Packet) (senderIP : list Z)
    (o l c : nat) (b0 protocol : Z) :
  length (Buffer data) = maxContentSize → IsIPv6 data = false →
  PacketS data = Slice o l c → l ≤ c → o + c = maxContentSize →
  tunPacketOffset + l ≤ maxContentSize →
  Src data = Slice (o + 12) 4 (c - 12) →
  Dst data = Slice (o + 16) 4 (c - 16) →
  Buffer data !! o = Some b0 → Buffer data !! (o + 9) = Some protocol →
  length senderIP = 4 → length (localIP d) = 4 →
  20 ≤ l → ihlOf b0 ≤ l →
  (protocol = 6%Z → ihlOf b0 + 18 ≤ l) →
  (protocol = 17%Z → ihlOf b0 + 8 ≤ l) →
  let bufA := list_inserts (o + 16) (localIP d)
                (list_inserts (o + 12) senderIP (Buffer data)) in
  ∃ d1,
    rcFlat (withBuffer data bufA) o l c = Some d1 ∧
    let bytes := take (tunPacketOffset + l) (Buffer d1) in
    WritePacket d data senderIP =
      Some (match tun_Write d bytes tunPacketOffset with
            | (_, Some e) =>
                mkWriteOutcome d1 [(bytes, tunPacketOffset)] []
                  (Some (Errorf "write packet to tun" e))
            | (n, None) =>
                mkWriteOutcome d1 [(bytes, tunPacketOffset)]
                  (if decide (n < Z.of_nat l)%Z
                   then [WarnShortWrite n l] else [])
                  None
            end).
Proof.
  intros Hlen H6 HPS Hlc Hoc Hfit HS HD Hb0 Hp Hls Hll H20 Hihl Htcp Hudp bufA.
  assert (copy (copy (Buffer data) (Src data) senderIP) (Dst data) (localIP d)
          = bufA) as HbufA.
  { unfold bufA, copy. rewrite HS, HD. simpl. by rewrite !take_ge by lia. }
  assert (∀ j, j < o + 12 → bufA !! j = Buffer data !! j) as Hlow.
  { intros j Hj. unfold bufA. by rewrite !list_lookup_inserts_lt by lia. }
  assert (is_Some (rcFlat (withBuffer data bufA) o l c)) as [d1 HR].
  { apply (rcFlat_completes _ o l c b0 protocol); simpl; try done; try lia;
      try (rewrite ?HS, ?HD; simpl; lia);
      try (rewrite Hlow by lia; done).
    unfold bufA. by rewrite !length_inserts. }
  exists d1. split; [done|]. cbv zeta.
  set (bytes := take (tunPacketOffset + l) (Buffer d1)).
  assert (PacketS d1 = Slice o l c) as HPS1.
  { destruct (rcFlat_withBuffer _ _ _ _ _ HR) as [B ->]. done. }
  unfold WritePacket. rewrite H6, HbufA.
  rewrite (RecalculateChecksum_flat _ o l c) by done. rewrite HR.
  cbn [mbind option_bind]. rewrite HPS1. cbn [len].
  rewrite arraySlice_Some by lia. cbn [mbind option_bind].
  replace (bytesOf (Buffer d1)
             (Slice 0 (tunPacketOffset + l - 0) (maxContentSize - 0)))
    with bytes.
  2:{ unfold bytes, bytesOf. cbn [len off]. by rewrite Nat.sub_0_r, drop_0. }
  destruct (tun_Write d bytes tunPacketOffset) as [n [e|]]; [done|].
  by case_decide.
Qed.

(** X8: what [WritePacket] hands to the TUN device, for a packet it can
    rewrite: a parsed IPv4 packet placed at [tunPacketOffset], whose header
    length is at least 20 and lies within the packet, with room behind the
    header for the checksum field of TCP (18 bytes) or UDP (8 bytes) when
    it carries one of them, and with [senderIP] and [localIP] of four
    octets.  The device is handed the four bytes in front of the packet as
    they are in the buffer, then the packet, of unchanged length, whose
    header checksum verifies, whose TCP or UDP checksum verifies against the
    pseudo-header of [senderIP] and [localIP], and which differs from the
    packet received only in bytes 10 to 19 (the header checksum and the two
    addresses) and in the transport checksum. *)
Theorem WritePacket_delivers (d : Device) (data : Packet) (senderIP : list Z)
    (b0 protocol : Z) :
  wf_packet data →
  Parse data = Some (true, data) → IsIPv6 data = false →
  off (PacketS data) = tunPacketOffset →
  index (Buffer data) (PacketS data) 0 = Some b0 →
  index (Buffer data) (PacketS data) 9 = Some protocol →
  length senderIP = 4 → Forall is_byte senderIP →
  length (localIP d) = 4 → Forall is_byte (localIP d) →
  20 ≤ ihlOf b0 ≤ len (PacketS data) →
  (protocol = 6%Z → ihlOf b0 + 18 ≤ len (PacketS data)) →
  (protocol = 17%Z → ihlOf b0 + 8 ≤ len (PacketS data)) →
  let before := bytesOf (Buffer data) (PacketS data) in
  let ihl := ihlOf b0 in
  ∃ out packet,
    WritePacket d data senderIP = Some out ∧
    wo_written out =
      [(take tunPacketOffset (Buffer data) ++ packet, tunPacketOffset)] ∧
    length packet = length before ∧
    checksumIPv4Header (take ihl packet) = 0%Z ∧
    (protocol = 6%Z ∨ protocol = 17%Z →
       checksumIPv4TCPUDP (drop ihl packet) protocol senderIP (localIP d)
         = Some 0%Z) ∧
    ∀ i, packet !! i ≠ before !! i →
      10 ≤ i < 20 ∨
      (protocol = 6%Z ∧ (i = ihl + 16 ∨ i = ihl + 17)) ∨
      (protocol = 17%Z ∧ (i = ihl + 6 ∨ i = ihl + 7)).
Proof.
  intros [Hlen Hbytes Hwf _ _] HP H6 Hoff Hb0 Hp Hls Hsb Hll Hlb
    [H20 Hihl] Htcp Hudp before ihl.
  assert (len (PacketS data) ≤ cap (PacketS data)) as Hlc.
  { destruct (PacketS data); simpl in *; lia. }
  destruct (Parse_fixed_ipv4 data Hlc HP H6)
    as (o & l & c & b0' & HPS & Hl20 & _ & _ & _ & HS & HD).
  subst before. rewrite HPS in *. simpl in Hwf, Hoff, Hihl, Htcp, Hudp, Hlc.
  destruct Hwf as [_ Hoc]. clear b0'. subst o.
  apply index_Slice in Hb0 as [_ Hb0]. rewrite Nat.add_0_r in Hb0.
  apply index_Slice in Hp as [_ Hp].
  unfold tunPacketOffset in *. fold ihl in Hihl, Htcp, Hudp, H20.
  pose proof maxContentSize_eq as Hmax.
  destruct (WritePacket_run d data senderIP 4 l c b0 protocol)
    as (d1 & HR & HW); try done; try (unfold tunPacketOffset; lia).
  cbv zeta in HW. unfold tunPacketOffset in HW.
  set (bufA := list_inserts (4 + 16) (localIP d)
                 (list_inserts (4 + 12) senderIP (Buffer data))) in *.
  set (dA := withBuffer data bufA) in *.
  assert (length bufA = maxContentSize) as HlenA.
  { unfold bufA. by rewrite !length_inserts. }
  assert (Forall is_byte bufA) as HbytesA.
  { unfold bufA. by repeat apply Forall_inserts. }
  assert (∀ j, j < 4 + 12 ∨ 4 + 20 ≤ j → bufA !! j = Buffer data !! j)
    as HA.
  { intros j [Hj|Hj]; unfold bufA.
    - by rewrite !list_lookup_inserts_lt by lia.
    - by rewrite !list_lookup_inserts_ge by lia. }
  assert (bytesOf bufA (Slice (4 + 12) 4 (c - 12)) = senderIP) as HsA.
  { unfold bufA. rewrite bytesOf_inserts_disjoint by (simpl; lia).
    apply bytesOf_inserts_field; [done|lia]. }
  assert (bytesOf bufA (Slice (4 + 16) 4 (c - 16)) = localIP d) as HdA.
  { unfold bufA. apply bytesOf_inserts_field; [done|].
    rewrite length_inserts. lia. }
  assert (Buffer dA !! 4 = Some b0) as Hb0A by (simpl; rewrite HA by lia; done).
  assert (Buffer dA !! (4 + 9) = Some protocol) as HpA
    by (simpl; rewrite HA by lia; done).
  destruct (rcFlat_frame dA d1 4 l c b0 protocol Hb0A HpA HR)
    as (HPS1 & HS1 & HD1 & _ & Hlen1 & Hframe).
  fold ihl in Hframe. simpl in HPS1, HS1, HD1, Hlen1.
  assert (∀ i, ¬ (i = 4 + 10 ∨ i = 4 + 11 ∨
                  protocol = 6%Z ∧ (i = 4 + ihl + 16 ∨ i = 4 + ihl + 17) ∨
                  protocol = 17%Z ∧ (i = 4 + ihl + 6 ∨ i = 4 + ihl + 7)) →
               Buffer d1 !! i = bufA !! i) as Hsame.
  { intros i Hi. destruct (decide (Buffer d1 !! i = bufA !! i)) as [|Hne];
      [done|]. by apply Hframe in Hne. }
  set (packet := bytesOf (Buffer d1) (Slice 4 l c)).
  set (bytes := take (4 + l) (Buffer d1)) in *.
  exists (match tun_Write d bytes 4 with
          | (_, Some e) =>
              mkWriteOutcome d1 [(bytes, 4)] []
                (Some (Errorf "write packet to tun" e))
          | (n, None) =>
              mkWriteOutcome d1 [(bytes, 4)]
                (if decide (n < Z.of_nat l)%Z then [WarnShortWrite n l] else [])
                None
          end), packet.
  split; [done|]. split.
  { assert (bytes = take 4 (Buffer data) ++ packet) as ->.
    { unfold bytes. apply list_eq. intros j. rewrite lookup_take.
      assert (length (take 4 (Buffer data)) = 4) as Hl4.
      { rewrite length_take. lia. }
      destruct (decide (j < 4)) as [Hj|Hj].
      - rewrite lookup_app_l by lia. rewrite lookup_take.
        rewrite !decide_True by lia. rewrite Hsame by lia. apply HA. lia.
      - rewrite lookup_app_r by lia. rewrite Hl4. unfold packet.
        rewrite lookup_bytesOf. cbn [len off].
        repeat case_decide; try lia; try done. f_equal. lia. }
    by destruct (tun_Write d _ 4) as [n [e|]]. }
  split.
  { unfold packet. rewrite !length_bytesOf; simpl; lia. }
  split.
  { unfold packet. rewrite bytesOf_take by lia.
    apply (rcFlat_header_verifies dA d1 4 l c b0); try done; lia. }
  split.
  { intros Hproto. unfold packet. rewrite bytesOf_drop.
    pose proof (rcFlat_transport_verifies dA d1 4 l c b0 protocol
                  HlenA HbytesA Hlc Hoc Hb0A HpA HS HD Hproto H20 HR) as HT.
    rewrite HS1, HD1, HS, HD in HT. fold ihl in HT.
    assert (bytesOf (Buffer d1) (Slice (4 + 12) 4 (c - 12)) = senderIP) as Hs1.
    { rewrite <- HsA. apply bytesOf_ext. simpl. intros j Hj.
      apply Hsame. lia. }
    assert (bytesOf (Buffer d1) (Slice (4 + 16) 4 (c - 16)) = localIP d) as Hd1.
    { rewrite <- HdA. apply bytesOf_ext. simpl. intros j Hj.
      apply Hsame. lia. }
    by rewrite Hs1, Hd1 in HT. }
  intros i Hi. unfold packet in Hi. rewrite !lookup_bytesOf in Hi. simpl in Hi.
  case_decide as Hil; [|done].
  destruct (decide (10 ≤ i < 20)) as [|Hout]; [by left|right].
  destruct (decide (protocol = 6%Z ∧ (i = ihl + 16 ∨ i = ihl + 17)))
    as [|Hn6]; [by left|].
  destruct (decide (protocol = 17%Z ∧ (i = ihl + 6 ∨ i = ihl + 7)))
    as [|Hn17]; [by right|].
  exfalso. apply Hi. rewrite Hsame by lia. apply HA. lia.
Qed.



(** ** The TUN packet reader, continued *)

Lemma readerIter_length d rd :
  length (Buffer d) = maxContentSize →
  match (readerIter d rd).1 with
  | IterContinue d' | IterEmit d' => length (Buffer d') = maxContentSize
  | _ => True
  end.
Proof.
  intros Hlen. unfold readerIter.
  destruct (rd_err rd); [by case_decide|].
  case_decide; [simpl; by rewrite length_inserts|].
  case_decide; [done|].
  destruct (arraySlice _ _); [|done].
  destruct (Parse _) as [[[] p']|] eqn:HP; try done; simpl.
  - apply Parse_true_shape in HP as [-> _]. simpl. by rewrite length_inserts.
  - apply Parse_false_same in HP as ->. simpl. by rewrite length_inserts.
Qed.

Lemma pool_Get_sublist pick pool :
  sublist (pool_Get pick pool).2 pool ∧
  length pool ≤ length (pool_Get pick pool).2 + 1.
Proof.
  unfold pool_Get. destruct pick as [i|]; [|simpl; split; [done|lia]].
  destruct (pool !! i) as [p|] eqn:Hp; simpl; [|split; [done|lia]].
  split; [apply sublist_delete|].
  rewrite length_delete by eauto. lia.
Qed.

(** The reader over two lists of reads, one after the other. *)
Lemma tunPacketsReader_app reads1 reads2 :
  ∀ pool data sent log,
    tunPacketsReader (reads1 ++ reads2) pool data sent log =
      match rr_status (tunPacketsReader reads1 pool data sent log) with
      | AwaitingRead data' =>
          tunPacketsReader reads2
            (rr_pool (tunPacketsReader reads1 pool data sent log)) data'
            (rr_sent (tunPacketsReader reads1 pool data sent log))
            (rr_log (tunPacketsReader reads1 pool data sent log))
      | _ => tunPacketsReader reads1 pool data sent log
      end.
Proof.
  induction reads1 as [|[pick rd] reads1 IH]; intros pool data sent log;
    [done|].
  cbn [app tunPacketsReader].
  destruct (match data with
            | Some d => (clear d, pool)
            | None => GetTempPacket pick pool
            end) as [d pool'].
  destruct (readerIter d rd) as [[| d' | p |] l]; try done; apply IH.
Qed.

Lemma take_inserts_field (buf k : list Z) (t n : nat) :
  n ≤ length k → t + n ≤ length buf →
  take n (drop t (list_inserts t k buf)) = take n k.
Proof.
  intros Hn Hfit. apply list_eq. intros j.
  rewrite !lookup_take, lookup_drop. case_decide; [|done].
  rewrite list_lookup_inserts by lia. f_equal. lia.
Qed.

Lemma readerIter_carries d rd p l :
  length (Buffer d) = maxContentSize →
  readerIter d rd = (IterEmit p, l) → carries rd p.
Proof.
  intros Hlen Hiter. split; [by eapply readerIter_emit|].
  pose proof maxContentSize_eq as Hmax.
  unfold readerIter in Hiter.
  destruct (rd_err rd) as [e|]; [by case_decide|].
  case_decide as Hsz; [done|]. case_decide as Hneg; [done|].
  destruct (arraySlice _ _) as [s|] eqn:Hs; [|done].
  destruct (Parse _) as [[[] p']|] eqn:HP; try done.
  injection Hiter as <- <-.
  apply Parse_true_shape in HP as [HB HPk]. simpl in HB, HPk.
  unfold arraySlice in Hs. case_decide as Hc; [|done]. injection Hs as <-.
  intros Hbytes. rewrite HB, HPk. unfold bytesOf. cbn [len off].
  replace (Z.to_nat (rd_size rd) + tunPacketOffset - tunPacketOffset)
    with (Z.to_nat (rd_size rd)) by lia.
  apply take_inserts_field; lia.
Qed.

Lemma tunPacketsReader_ordered reads :
  ∀ pool data sent log,
    Forall (λ q, length (Buffer q) = maxContentSize) pool →
    (∀ d, data = Some d → length (Buffer d) = maxContentSize) →
    ∃ rds new,
      rr_sent (tunPacketsReader reads pool data sent log) = sent ++ new ∧
      sublist rds (reads.*2) ∧ Forall2 carries rds new.
Proof.
  induction reads as [|[pick rd] reads IH];
    intros pool data sent log Hpool Hdata.
  { exists [], []. simpl. by rewrite app_nil_r. }
  cbn [tunPacketsReader fmap list_fmap snd].
  destruct (match data with
            | Some d => (clear d, pool)
            | None => GetTempPacket pick pool
            end) as [d pool'] eqn:Hget.
  assert (length (Buffer d) = maxContentSize ∧
          Forall (λ q, length (Buffer q) = maxContentSize) pool')
    as [Hd Hpool'].
  { destruct data as [d0|].
    - injection Hget as <- <-. simpl. auto.
    - by apply (pool_Get_length pick pool). }
  pose proof (readerIter_length d rd Hd) as Hl.
  destruct (readerIter d rd) as [[| d' | p |] l] eqn:Hiter; simpl in Hl.
  - exists [], []. simpl. split; [by rewrite app_nil_r|].
    split; [apply sublist_nil_l|done].
  - destruct (IH pool' (Some d') sent (log ++ l) Hpool')
      as (rds & new & -> & Hsub & Hall); [by intros ? [= <-]|].
    exists rds, new. split; [done|]. split; [by apply sublist_cons|done].
  - destruct (IH pool' None (sent ++ [p]) (log ++ l) Hpool')
      as (rds & new & -> & Hsub & Hall); [done|].
    exists (rd :: rds), (p :: new). split; [by rewrite <- app_assoc|].
    split; [by apply sublist_skip|].
    constructor; [exact (readerIter_carries d rd p l Hd Hiter)|done].
  - exists [], []. simpl. split; [by rewrite app_nil_r|].
    split; [apply sublist_nil_l|done].
Qed.

(** X10: the packets on [outboundCh] are in the order of the reads they
    come from: they match, one to one and in order, a subsequence of the
    reads, and each packet holds exactly the bytes of its read, whatever an
    earlier, dropped read has left in the reused buffer. *)
Theorem tunPacketsReader_in_order (reads : list (option nat * TunRead))
    (pool : list Packet) :
  Forall (λ q, length (Buffer q) = maxContentSize) pool →
  ∃ rds,
    sublist rds (reads.*2) ∧
    Forall2 carries rds (rr_sent (tunPacketsReader reads pool None [] [])).
Proof.
  intros Hpool.
  destruct (tunPacketsReader_ordered reads pool None [] [] Hpool)
    as (rds & new & -> & Hsub & Hall); [done|].
  by exists rds.
Qed.

(** X11: the reader ends at the first read that returns an error: it sends
    nothing more, logs the error unless it is [io.EOF], and returns; what
    the device would answer afterwards plays no part.  The same holds after
    a panic. *)
Theorem tunPacketsReader_ends_at_error
    (reads1 reads2 : list (option nat * TunRead))
    (pick : option nat) (rd : TunRead) (e : error) (pool : list Packet) :
  rd_err rd = Some e →
  let run1 := tunPacketsReader reads1 pool None [] [] in
  let run :=
    tunPacketsReader (reads1 ++ (pick, rd) :: reads2) pool None [] [] in
  (∀ data, rr_status run1 = AwaitingRead data →
     rr_status run = Returned ∧ rr_sent run = rr_sent run1 ∧
     rr_log run =
       rr_log run1 ++
       (if decide (e = io_EOF) then [] else [ErrorReadFailed e])) ∧
  (rr_status run1 = Returned ∨ rr_status run1 = Panicked → run = run1).
Proof.
  intros He run1 run. unfold run. rewrite tunPacketsReader_app. fold run1.
  split.
  - intros data ->. cbn [tunPacketsReader].
    destruct (match data with
              | Some d => (clear d, rr_pool run1)
              | None => GetTempPacket pick (rr_pool run1)
              end) as [d pool'].
    unfold readerIter. rewrite He.
    case_decide; simpl; by rewrite ?app_nil_r.
  - by intros [-> | ->].
Qed.

Lemma Parse_is_Some data :
  len (PacketS data) ≤ cap (PacketS data) →
  off (PacketS data) + len (PacketS data) ≤ length (Buffer data) →
  0 < len (PacketS data) → is_Some (Parse data).
Proof.
  intros Hlc Hfit Hpos.
  assert (is_Some (index (Buffer data) (PacketS data) 0)) as [b0 Hb0].
  { unfold index. rewrite decide_True by done. apply lookup_lt_is_Some. lia. }
  rewrite (Parse_unfold data b0 Hb0 Hlc). simpl. repeat case_decide; eauto.
Qed.

Lemma readerIter_fits d rd :
  length (Buffer d) = maxContentSize → fits rd →
  (readerIter d rd).1 ≠ IterPanic.
Proof.
  intros Hlen Hfits. unfold readerIter.
  destruct (rd_err rd) as [e|] eqn:He; [by case_decide|].
  specialize (Hfits He). pose proof maxContentSize_eq as Hmax.
  unfold tunPacketOffset in *.
  case_decide as Hsz; [done|]. rewrite decide_False by lia.
  rewrite arraySlice_Some by lia.
  match goal with |- context [Parse ?x] =>
    destruct (Parse_is_Some x) as [[[] p] ->]; try done end.
  - simpl. lia.
  - simpl. rewrite length_inserts. lia.
  - simpl. lia.
Qed.

Lemma tunPacketsReader_fits reads :
  ∀ pool data sent log,
    Forall (λ q, length (Buffer q) = maxContentSize) pool →
    (∀ d, data = Some d → length (Buffer d) = maxContentSize) →
    Forall (λ x, fits x.2) reads →
    rr_status (tunPacketsReader reads pool data sent log) ≠ Panicked.
Proof.
  induction reads as [|[pick rd] reads IH];
    intros pool data sent log Hpool Hdata Hfits; [done|].
  apply Forall_cons in Hfits as [Hfit Hfits]. simpl in Hfit.
  cbn [tunPacketsReader].
  destruct (match data with
            | Some d => (clear d, pool)
            | None => GetTempPacket pick pool
            end) as [d pool'] eqn:Hget.
  assert (length (Buffer d) = maxContentSize ∧
          Forall (λ q, length (Buffer q) = maxContentSize) pool')
    as [Hd Hpool'].
  { destruct data as [d0|].
    - injection Hget as <- <-. simpl. auto.
    - by apply (pool_Get_length pick pool). }
  pose proof (readerIter_length d rd Hd) as Hl.
  pose proof (readerIter_fits d rd Hd Hfit) as Hnp.
  destruct (readerIter d rd) as [[| d' | p |] l]; simpl in *; try done.
  - apply IH; try done. by intros ? [= <-].
  - by apply IH.
Qed.

(** X12: the reader does not panic as long as every read reports a size
    that fits the buffer behind the offset, [0 <= size <= maxContentSize - 4].
    The size test of the loop lets more through: a size above
    [maxContentSize - 4] and up to [maxContentSize], or a negative one,
    passes the test and panics in the reslice [Buffer[4 : size+4]]. *)
Theorem tunPacketsReader_panics (reads : list (option nat * TunRead))
    (pool : list Packet) :
  Forall (λ q, length (Buffer q) = maxContentSize) pool →
  (Forall (λ x, fits x.2) reads →
   rr_status (tunPacketsReader reads pool None [] []) ≠ Panicked) ∧
  (∀ d rd,
     rd_err rd = None →
     (Z.of_nat (maxContentSize - tunPacketOffset) < rd_size rd
        ≤ Z.of_nat maxContentSize ∨ rd_size rd < 0)%Z →
     readerIter d rd = (IterPanic, [])).
Proof.
  intros Hpool. split.
  - intros Hfits. by apply tunPacketsReader_fits.
  - intros d rd He Hsz. unfold readerIter. rewrite He.
    pose proof maxContentSize_eq as Hmax. unfold tunPacketOffset in *.
    rewrite decide_False by lia.
    case_decide; [done|]. unfold arraySlice. by rewrite decide_False by lia.
Qed.

Lemma tunPacketsReader_pool_acc reads :
  ∀ pool data sent log,
    let run := tunPacketsReader reads pool data sent log in
    sublist (rr_pool run) pool ∧
    length pool + length sent ≤
      length (rr_pool run) + length (rr_sent run) +
      (if data is None then 1 else 0).
Proof.
  induction reads as [|[pick rd] reads IH]; intros pool data sent log.
  { simpl. split; [done|]. destruct data; lia. }
  cbn [tunPacketsReader]. cbv zeta.
  assert (∃ d pool',
            match data with
            | Some d => (clear d, pool)
            | None => GetTempPacket pick pool
            end = (d, pool') ∧ sublist pool' pool ∧
            length pool ≤ length pool' + (if data is None then 1 else 0))
    as (d & pool' & -> & Hsub & Hle).
  { destruct data as [d0|].
    - exists (clear d0), pool. split; [done|]. split; [done|lia].
    - unfold GetTempPacket. destruct (pool_Get pick pool) as [d pool'] eqn:Hg.
      exists d, pool'. split; [done|].
      pose proof (pool_Get_sublist pick pool) as Hs. by rewrite Hg in Hs. }
  destruct (readerIter d rd) as [[| d' | p |] l]; simpl.
  - split; [done|lia].
  - destruct (IH pool' (Some d') sent (log ++ l)) as [Hs Hl].
    split; [by etrans|]. lia.
  - destruct (IH pool' None (sent ++ [p]) (log ++ l)) as [Hs Hl].
    split; [by etrans|]. rewrite length_app in Hl. simpl in Hl.
    destruct data; lia.
  - split; [done|lia].
Qed.

(** X13: the reader takes a buffer out of the pool only to hold the packet
    it is about to send: it never puts one back, and the pool loses at most
    one buffer per packet sent, and one more for the read in progress.  A
    dropped read reuses the buffer it was read into. *)
Theorem tunPacketsReader_pool (reads : list (option nat * TunRead))
    (pool : list Packet) :
  let run := tunPacketsReader reads pool None [] [] in
  sublist (rr_pool run) pool ∧
  length pool ≤ length (rr_pool run) + length (rr_sent run) + 1.
Proof.
  intros run.
  destruct (tunPacketsReader_pool_acc reads pool None [] []) as [Hs Hl].
  split; [done|]. simpl in Hl. fold run in Hl. lia.
Qed.


Lemma readerIter_conforming d rd :
  length (Buffer d) = maxContentSize → conforming rd →
  if accepted rd then ∃ p, readerIter d rd = (IterEmit p, [])
  else ∃ d', readerIter d rd = (IterContinue d', []).
Proof.
  intros Hlen (He & Hl & Hfit). pose proof maxContentSize_eq as Hmax.
  unfold readerIter, accepted. rewrite He. unfold tunPacketOffset in *.
  destruct (rd_bytes rd) as [|b0 bytes] eqn:Hb; simpl in Hl.
  { rewrite decide_True by lia. eauto. }
  rewrite decide_False by lia. rewrite decide_False by lia.
  rewrite arraySlice_Some by lia.
  set (buf := list_inserts 4 (b0 :: bytes) (Buffer d)).
  set (s := Slice 4 (Z.to_nat (rd_size rd) + 4 - 4) (maxContentSize - 4)).
  set (dp := withPacket (withBuffer d buf) s).
  assert (index (Buffer dp) (PacketS dp) 0 = Some b0) as Hi.
  { unfold index, dp, s, buf. cbn [PacketS withPacket Buffer withBuffer len off].
    rewrite decide_True by lia.
    rewrite list_lookup_inserts by (simpl; lia).
    by replace (4 + 0 - 4) with 0 by lia. }
  assert (len (PacketS dp) = Z.to_nat (rd_size rd)) as Hlp.
  { unfold dp, s. simpl. lia. }
  rewrite (Parse_unfold dp b0 Hi) by (unfold dp, s; simpl; lia).
  cbv zeta. rewrite Hlp.
  case_bool_decide as Hacc.
  - destruct Hacc as [[Hv ?]|[Hv ?]]; rewrite Hv.
    + rewrite (decide_True (P := 4 = 4)%Z) by done.
      rewrite decide_False by lia. eauto.
    + rewrite (decide_False (P := 6 = 4)%Z) by done.
      rewrite (decide_True (P := 6 = 6)%Z) by done.
      rewrite decide_False by lia. eauto.
  - repeat case_decide; eauto; exfalso; apply Hacc; lia.
Qed.

Lemma tunPacketsReader_forwards_acc reads :
  ∀ pool data sent log,
    Forall (λ q, length (Buffer q) = maxContentSize) pool →
    (∀ d, data = Some d → length (Buffer d) = maxContentSize) →
    Forall (λ x, conforming x.2) reads →
    let run := tunPacketsReader reads pool data sent log in
    ∃ new,
      rr_sent run = sent ++ new ∧
      Forall2 carries (filter (λ rd, accepted rd = true) (reads.*2)) new ∧
      rr_log run = log ∧ ∃ data', rr_status run = AwaitingRead data'.
Proof.
  induction reads as [|[pick rd] reads IH];
    intros pool data sent log Hpool Hdata Hall.
  { exists []. simpl. rewrite app_nil_r. eauto. }
  apply Forall_cons in Hall as [Hrd Hall]. simpl in Hrd.
  cbn [tunPacketsReader fmap list_fmap snd]. cbv zeta.
  destruct (match data with
            | Some d => (clear d, pool)
            | None => GetTempPacket pick pool
            end) as [d pool'] eqn:Hget.
  assert (length (Buffer d) = maxContentSize ∧
          Forall (λ q, length (Buffer q) = maxContentSize) pool')
    as [Hd Hpool'].
  { destruct data as [d0|].
    - injection Hget as <- <-. simpl. auto.
    - by apply (pool_Get_length pick pool). }
  pose proof (readerIter_length d rd Hd) as Hl.
  pose proof (readerIter_conforming d rd Hd Hrd) as Hiter.
  rewrite filter_cons.
  destruct (accepted rd) eqn:Hacc.
  - destruct Hiter as [p Hiter]. rewrite Hiter in *. simpl in Hl.
    rewrite decide_True by done.
    destruct (IH pool' None (sent ++ [p]) (log ++ []) Hpool')
      as (new & Hs & Hall2 & Hlog & Hst); [done..|].
    exists (p :: new). split; [by rewrite Hs, <- app_assoc|].
    split; [|split; [by rewrite Hlog, app_nil_r|done]].
    constructor; [|done]. by apply (readerIter_carries d rd p []).
  - destruct Hiter as [d' Hiter]. rewrite Hiter in *. simpl in Hl.
    rewrite decide_False by done.
    destruct (IH pool' (Some d') sent (log ++ []) Hpool')
      as (new & Hs & Hall2 & Hlog & Hst); [by intros ? [= <-]|done|].
    exists new. split; [done|]. split; [done|].
    split; [by rewrite Hlog, app_nil_r|done].
Qed.

(** X14: on reads as a TUN device answers them, the reader sends exactly
    the reads that carry an IPv4 packet of at least 20 bytes or an IPv6
    packet of at least 40 bytes, in their order and with their bytes; it
    drops the others, logs nothing, and goes on reading. *)
Theorem tunPacketsReader_forwards (reads : list (option nat * TunRead))
    (pool : list Packet) :
  Forall (λ q, length (Buffer q) = maxContentSize) pool →
  Forall (λ x, conforming x.2) reads →
  let run := tunPacketsReader reads pool None [] [] in
  Forall2 carries (filter (λ rd, accepted rd = true) (reads.*2)) (rr_sent run) ∧
  rr_log run = [] ∧ ∃ data, rr_status run = AwaitingRead data.
Proof.
  intros Hpool Hall run.
  destruct (tunPacketsReader_forwards_acc reads pool None [] [] Hpool)
    as (new & Hs & Hall2 & Hlog & Hst); [done..|].
  fold run in Hs, Hlog, Hst. by rewrite Hs.
Qed.

(** ** TUN events *)

Section TunEventsProperties.

Variables EventDown EventMTUUpdate : Z.

Lemma tunEventsReader_snoc events ev mtu log :
  tunEventsReader EventDown EventMTUUpdate (events ++ [ev]) mtu log =
    let '(mtu1, log1) :=
      tunEventsReader EventDown EventMTUUpdate events mtu log in
    let '(mtu2, l) := eventIter EventDown EventMTUUpdate mtu1 ev in
    (mtu2, log1 ++ l).
Proof.
  revert mtu log. induction events as [|ev' events IH]; intros mtu log; simpl.
  - by destruct (eventIter EventDown EventMTUUpdate mtu ev).
  - destruct (eventIter EventDown EventMTUUpdate mtu ev') as [mtu' l'].
    apply IH.
Qed.

Lemma eventIter_mtu mtu ev :
  (eventIter EventDown EventMTUUpdate mtu ev).1 =
    if updatesMTU EventMTUUpdate ev
    then Z.min (ev_MTU ev).1 (Z.of_nat maxContentSize) else mtu.
Proof.
  unfold eventIter, updatesMTU.
  destruct (ev_MTU ev) as [m [e|]]; simpl;
    repeat case_decide; repeat case_bool_decide; simpl; try done; try lia.
Qed.

Lemma tunEventsReader_keeps events :
  ∀ mtu0 log,
    Forall (λ ev, updatesMTU EventMTUUpdate ev = false) events →
    (tunEventsReader EventDown EventMTUUpdate events mtu0 log).1 = mtu0.
Proof.
  induction events as [|ev events IH]; intros mtu0 log Hall; [done|].
  apply Forall_cons in Hall as [Hev Hall]. simpl.
  pose proof (eventIter_mtu mtu0 ev) as Hm. rewrite Hev in Hm.
  destruct (eventIter EventDown EventMTUUpdate mtu0 ev) as [mtu' l].
  simpl in Hm. subst mtu'. by apply IH.
Qed.

Lemma tunEventsReader_last pre :
  ∀ ev post mtu0 log,
    updatesMTU EventMTUUpdate ev = true →
    Forall (λ ev, updatesMTU EventMTUUpdate ev = false) post →
    (tunEventsReader EventDown EventMTUUpdate (pre ++ ev :: post) mtu0 log).1
      = Z.min (ev_MTU ev).1 (Z.of_nat maxContentSize).
Proof.
  induction pre as [|ev' pre IH]; intros ev post mtu0 log Hev Hpost; simpl.
  - pose proof (eventIter_mtu mtu0 ev) as Hm. rewrite Hev in Hm.
    destruct (eventIter EventDown EventMTUUpdate mtu0 ev) as [mtu' l].
    simpl in Hm. subst mtu'. by apply tunEventsReader_keeps.
  - destruct (eventIter EventDown EventMTUUpdate mtu0 ev') as [mtu' l].
    by apply IH.
Qed.

Lemma updatesMTU_answer ev :
  updatesMTU EventMTUUpdate ev = true → (0 ≤ (ev_MTU ev).1)%Z.
Proof.
  unfold updatesMTU. destruct (ev_MTU ev) as [m [e|]]; simpl.
  - by rewrite andb_false_r.
  - intros [_ H]%andb_true_iff. by apply bool_decide_eq_true in H.
Qed.

(** X15: the MTU that [tunEventsReader] stores is never negative and never
    above [maxContentSize]: after any events [d.mtu] is the value it was
    created with, or the answer of the last usable MTU query, capped.  An
    event without the MTU bit, a failed query and a negative answer leave
    it as it is. *)
Theorem tunEventsReader_mtu (events : list TunEvent) (mtu0 : Z) :
  let mtu := (tunEventsReader EventDown EventMTUUpdate events mtu0 []).1 in
  (mtu = mtu0 ∨ (0 ≤ mtu ≤ Z.of_nat maxContentSize)%Z) ∧
  (Forall (λ ev, updatesMTU EventMTUUpdate ev = false) events → mtu = mtu0) ∧
  (∀ pre ev post,
     events = pre ++ ev :: post → updatesMTU EventMTUUpdate ev = true →
     Forall (λ ev, updatesMTU EventMTUUpdate ev = false) post →
     mtu = Z.min (ev_MTU ev).1 (Z.of_nat maxContentSize) ∧
     (0 ≤ mtu ≤ Z.of_nat maxContentSize)%Z).
Proof.
  intros mtu. subst mtu. split; [|split].
  - induction events as [|ev events IH] using rev_ind; [by left|].
    destruct (updatesMTU EventMTUUpdate ev) eqn:Hev.
    + right. rewrite (tunEventsReader_last events ev []) by done.
      pose proof (updatesMTU_answer ev Hev). lia.
    + rewrite tunEventsReader_snoc.
      destruct (tunEventsReader EventDown EventMTUUpdate events mtu0 [])
        as [mtu1 log1]. simpl in IH.
      pose proof (eventIter_mtu mtu1 ev) as Hm. rewrite Hev in Hm.
      destruct (eventIter EventDown EventMTUUpdate mtu1 ev) as [mtu2 l].
      simpl in *. by subst mtu2.
  - apply tunEventsReader_keeps.
  - intros pre ev post -> Hev Hpost. rewrite tunEventsReader_last by done.
    pose proof (updatesMTU_answer ev Hev). lia.
Qed.

Lemma count_app {A} (f : A → bool) l1 l2 :
  count f (l1 ++ l2) = count f l1 + count f l2.
Proof. induction l1 as [|x l1 IH]; simpl; lia. Qed.

Lemma eventIter_down mtu ev :
  count isDownLine (eventIter EventDown EventMTUUpdate mtu ev).2 =
    if requestsDown EventDown EventMTUUpdate ev then 1 else 0.
Proof.
  unfold eventIter, requestsDown, updatesMTU.
  destruct (ev_MTU ev) as [m [e|]]; simpl;
    repeat case_decide; repeat case_bool_decide; simpl; try done; try lia.
Qed.

Lemma eventIter_update_line mtu ev m tooLarge :
  InfoMTUUpdated m tooLarge ∈ (eventIter EventDown EventMTUUpdate mtu ev).2 →
  (0 ≤ m ≤ Z.of_nat maxContentSize)%Z ∧
  (tooLarge = true → m = Z.of_nat maxContentSize).
Proof.
  unfold eventIter.
  set (down := if decide (Z.land (ev_bits ev) EventDown ≠ 0)%Z
               then [InfoDownRequested] else []).
  assert (InfoMTUUpdated m tooLarge ∉ down) as Hdown.
  { unfold down. intros Hx. case_decide.
    - by apply list_elem_of_singleton in Hx.
    - by apply elem_of_nil in Hx. }
  clearbody down.
  destruct (decide (Z.land (ev_bits ev) EventMTUUpdate ≠ 0)%Z) as [Hbit|Hbit];
    [|done].
  destruct (ev_MTU ev) as [m' [e|]]; simpl.
  { by intros ?%list_elem_of_singleton. }
  destruct (decide (m' < 0)%Z) as [Hneg|Hneg]; simpl.
  { by intros ?%list_elem_of_singleton. }
  intros [Hin|Hin]%elem_of_app; [|done].
  case_decide; [|by apply elem_of_nil in Hin].
  apply list_elem_of_singleton in Hin. injection Hin as -> ->.
  case_bool_decide; split; (done || lia).
Qed.

(** The "MTU updated" line of one iteration: logged exactly when the query
    succeeds with a non-negative answer whose value, capped, differs from
    the value stored. *)
Lemma eventIter_update_count mtu ev :
  count isUpdateLine (eventIter EventDown EventMTUUpdate mtu ev).2 =
    if updatesMTU EventMTUUpdate ev &&
       bool_decide (Z.min (ev_MTU ev).1 (Z.of_nat maxContentSize) ≠ mtu)
    then 1 else 0.
Proof.
  unfold eventIter, updatesMTU.
  destruct (ev_MTU ev) as [m [e|]]; simpl;
    repeat case_decide; repeat case_bool_decide; simpl; try done; try lia.
Qed.

(** X16: what [tunEventsReader] logs.  "Interface down requested" is logged
    once for every event with the down bit, except for an event whose MTU
    query fails or answers a negative value: there the [continue] skips
    the test.  "MTU updated" is logged only with a value between 0 and
    [maxContentSize], marked too large only when it was capped.  One more
    event adds one such line exactly when it has the MTU bit, its query
    answers a value that is not negative, and that value, capped at
    [maxContentSize], differs from the value stored; so a device whose
    usable answers, capped, all equal the value it was created with logs
    no such line, while an answer above [maxContentSize] is logged even
    when the value stored is the same number. *)
Theorem tunEventsReader_logs (events : list TunEvent) (mtu0 : Z) :
  let mtu := (tunEventsReader EventDown EventMTUUpdate events mtu0 []).1 in
  let log := (tunEventsReader EventDown EventMTUUpdate events mtu0 []).2 in
  count isDownLine log = count (requestsDown EventDown EventMTUUpdate) events ∧
  (∀ m tooLarge, InfoMTUUpdated m tooLarge ∈ log →
     (0 ≤ m ≤ Z.of_nat maxContentSize)%Z ∧
     (tooLarge = true → m = Z.of_nat maxContentSize)) ∧
  (∀ ev,
     count isUpdateLine
       (tunEventsReader EventDown EventMTUUpdate (events ++ [ev]) mtu0 []).2 =
     count isUpdateLine log +
     (if updatesMTU EventMTUUpdate ev &&
         bool_decide (Z.min (ev_MTU ev).1 (Z.of_nat maxContentSize) ≠ mtu)
      then 1 else 0)) ∧
  (Forall (λ ev, updatesMTU EventMTUUpdate ev = true →
                 Z.min (ev_MTU ev).1 (Z.of_nat maxContentSize) = mtu0) events →
   count isUpdateLine log = 0).
Proof.
  intros mtu log. subst mtu log. split; [|split; [|split]].
  - induction events as [|ev events IH] using rev_ind; [done|].
    rewrite tunEventsReader_snoc, count_app.
    destruct (tunEventsReader EventDown EventMTUUpdate events mtu0 [])
      as [mtu1 log1]. simpl in IH.
    pose proof (eventIter_down mtu1 ev) as Hd.
    destruct (eventIter EventDown EventMTUUpdate mtu1 ev) as [mtu2 l].
    simpl in *. rewrite count_app, IH, Hd. simpl. lia.
  - induction events as [|ev events IH] using rev_ind.
    { intros m tl Hin. by apply elem_of_nil in Hin. }
    intros m tl. rewrite tunEventsReader_snoc.
    destruct (tunEventsReader EventDown EventMTUUpdate events mtu0 [])
      as [mtu1 log1]. simpl in IH.
    pose proof (eventIter_update_line mtu1 ev m tl)
      as Hline.
    destruct (eventIter EventDown EventMTUUpdate mtu1 ev) as [mtu2 l].
    simpl in *. intros [Hin|Hin]%elem_of_app; [by apply IH|by apply Hline].
  - intros ev. rewrite tunEventsReader_snoc.
    destruct (tunEventsReader EventDown EventMTUUpdate events mtu0 [])
      as [mtu1 log1]. simpl.
    pose proof (eventIter_update_count mtu1 ev) as Hc.
    destruct (eventIter EventDown EventMTUUpdate mtu1 ev) as [mtu2 l].
    simpl in *. by rewrite count_app, Hc.
  - intros Hall.
    assert (∀ log0, count isUpdateLine log0 = 0 →
              let run :=
                tunEventsReader EventDown EventMTUUpdate events mtu0 log0 in
              run.1 = mtu0 ∧ count isUpdateLine run.2 = 0)
      as H; [|by apply H].
    induction events as [|ev events IH]; intros log0 H0; [done|].
    apply Forall_cons in Hall as [Hev Hall]. simpl.
    pose proof (eventIter_mtu mtu0 ev) as Hm.
    pose proof (eventIter_update_count mtu0 ev) as Hc.
    destruct (eventIter EventDown EventMTUUpdate mtu0 ev) as [mtu' l].
    simpl in *.
    assert (mtu' = mtu0 ∧ count isUpdateLine l = 0) as [-> Hl].
    { destruct (updatesMTU EventMTUUpdate ev); simpl in *; [|done].
      specialize (Hev eq_refl). rewrite Hev in Hm, Hc.
      by rewrite bool_decide_eq_false_2 in Hc by tauto. }
    apply IH; [done|]. rewrite count_app. lia.
Qed.

End TunEventsProperties.

(** ** Stream statistics *)

Lemma OpenStreamStats_concat conns stats :
  fold_left (λ stats streams, fold_left countStream streams stats) conns stats
    = fold_left countStream (concat conns) stats.
Proof.
  revert stats. induction conns as [|c conns IH]; intros stats; [done|].
  simpl. by rewrite fold_left_app, IH.
Qed.

Lemma countStream_eq stats stream :
  countStream stats stream =
    <[stream_Protocol stream :=
        <[directionName (stream_Direction stream) :=
            i64 (default 0%Z
                   (default ∅ (stats !! stream_Protocol stream)
                      !! directionName (stream_Direction stream)) + 1)]>
          (default ∅ (stats !! stream_Protocol stream))]> stats.
Proof.
  unfold countStream, directionName.
  destruct (stats !! stream_Protocol stream) as [ps|] eqn:Hps; simpl.
  - by destruct (stream_Direction stream).
  - rewrite insert_insert_eq. by destruct (stream_Direction stream).
Qed.

Lemma streamsOf_snoc protocol direction streams s :
  streamsOf protocol direction (streams ++ [s]) =
    streamsOf protocol direction streams +
      (if decide (stream_Protocol s = protocol ∧
                  directionName (stream_Direction s) = direction)
       then 1 else 0).
Proof.
  unfold streamsOf. rewrite filter_app, length_app. f_equal.
  rewrite filter_cons, filter_nil. by case_decide.
Qed.

Lemma streamsOf_le protocol direction streams :
  streamsOf protocol direction streams ≤ length streams.
Proof. unfold streamsOf. apply length_filter. Qed.

Lemma stats_counts (streams : list Stream) :
  (Z.of_nat (length streams) < 2 ^ 63)%Z →
  ∀ protocol direction,
    (fold_left countStream streams ∅ !! protocol) ≫= (.!! direction) =
      (if decide (streamsOf protocol direction streams = 0) then None
       else Some (Z.of_nat (streamsOf protocol direction streams))) ∧
    (is_Some (fold_left countStream streams ∅ !! protocol) ↔
     ∃ s, s ∈ streams ∧ stream_Protocol s = protocol).
Proof.
  induction streams as [|s streams IH] using rev_ind;
    intros Hlen protocol direction.
  { simpl. rewrite lookup_empty. split; [done|]. split; [by intros [? ?]|].
    intros (s & Hs & _). by apply elem_of_nil in Hs. }
  rewrite length_app in Hlen. simpl in Hlen.
  rewrite fold_left_app. simpl. rewrite countStream_eq.
  set (stats := fold_left countStream streams ∅) in *.
  rewrite streamsOf_snoc.
  destruct (decide (stream_Protocol s = protocol)) as [<-|Hp].
  - rewrite lookup_insert_eq. simpl. split.
    2:{ split; [|eauto]. intros _. exists s. split; [|done].
        apply elem_of_app. right. by apply list_elem_of_singleton. }
    destruct (IH ltac:(lia) (stream_Protocol s)
                (directionName (stream_Direction s))) as [IHc _].
    destruct (IH ltac:(lia) (stream_Protocol s) direction) as [IHd _].
    pose proof (streamsOf_le (stream_Protocol s)
                  (directionName (stream_Direction s)) streams) as Hle.
    destruct (decide (directionName (stream_Direction s) = direction))
      as [<-|Hd].
    + rewrite lookup_insert_eq. rewrite (decide_True (P := _ ∧ _)) by done.
      rewrite decide_False by lia.
      destruct (stats !! stream_Protocol s) as [ps|]; simpl in *.
      * rewrite IHc. case_decide as Hz; simpl.
        -- rewrite Hz. by rewrite i64_small by lia.
        -- rewrite i64_small by lia. f_equal. lia.
      * rewrite lookup_empty. simpl. case_decide as Hz; [|done].
        rewrite Hz. by rewrite i64_small by lia.
    + rewrite lookup_insert_ne by done.
      rewrite (decide_False (P := _ ∧ _)) by tauto.
      rewrite Nat.add_0_r.
      destruct (stats !! stream_Protocol s) as [ps|]; simpl in *; [done|].
      by rewrite lookup_empty.
  - rewrite lookup_insert_ne by done.
    rewrite (decide_False (P := _ ∧ _)) by tauto. rewrite Nat.add_0_r.
    destruct (IH ltac:(lia) protocol direction) as [IHc IHk].
    split; [done|]. rewrite IHk. split.
    + intros (s' & Hs' & Hp'). exists s'. split; [|done].
      apply elem_of_app. by left.
    + intros (s' & Hs' & Hp'). exists s'. split; [|done].
      apply elem_of_app in Hs' as [?|Hs']; [done|].
      apply list_elem_of_singleton in Hs'. by subst s'.
Qed.

(** X17: [OpenStreamStats] counts every open stream once, under its
    protocol and its direction: the entry of a protocol and a direction is
    the number of streams that have them, and is missing when there is
    none; a protocol is a key exactly when some stream has it. *)
Theorem OpenStreamStats_counts (conns : list (list Stream))
    (protocol direction : string) :
  (Z.of_nat (length (concat conns)) < 2 ^ 63)%Z →
  let n := streamsOf protocol direction (concat conns) in
  (OpenStreamStats conns !! protocol) ≫= (.!! direction) =
    (if decide (n = 0) then None else Some (Z.of_nat n)) ∧
  (is_Some (OpenStreamStats conns !! protocol) ↔
   ∃ s, s ∈ concat conns ∧ stream_Protocol s = protocol).
Proof.
  intros Hlen n. unfold OpenStreamStats. rewrite OpenStreamStats_concat.
  by apply stats_counts.
Qed.

(** ** Stream counters, continued *)

Lemma countIf_Permutation f ns ns' :
  ns ≡ₚ ns' → countIf f ns = countIf f ns'.
Proof.
  induction 1 as [|n ns ns' _ IH|n n' ns|ns1 ns2 ns3 _ IH1 _ IH2]; simpl;
    [done|by rewrite IH|lia|by rewrite IH1].
Qed.

(** X18: the counters count.  After any history of fewer than 2^63
    notifications, [OpenStreamsCount] is the number of streams opened minus
    the number closed, and the two totals are the numbers of inbound and
    of outbound streams opened; so the counters do not depend on the order
    in which the callbacks ran. *)
Theorem stream_counters_count (ns : list Notification) :
  (Z.of_nat (length ns) < 2 ^ 63)%Z →
  let p := notifyAll zeroCounters ns in
  OpenStreamsCount p = (opened ns - closed ns)%Z ∧
  TotalStreamsInbound p = inbound ns ∧
  TotalStreamsOutbound p = outbound ns ∧
  ∀ ns', ns ≡ₚ ns' → notifyAll zeroCounters ns' = p.
Proof.
  intros Hlen p. subst p. rewrite notifyAll_counts by done.
  repeat split. intros ns' Hperm.
  rewrite notifyAll_counts by (by rewrite <- Hperm).
  unfold opened, closed, inbound, outbound.
  by rewrite !(countIf_Permutation _ ns ns' Hperm).
Qed.


(** ** The packet pool, continued *)

Lemma clear_clean p : clean p → clear p = p.
Proof. destruct p. intros (? & ? & ? & ?). simpl in *. by subst. Qed.

(** X19: a packet that is checked out and checked in again without having
    been used leaves the pool as it was, up to the order of its packets;
    when the pool had to create the packet, it is one new packet larger. *)
Theorem pool_round_trip (pick : option nat) (pool : list Packet) :
  Forall clean pool →
  ∃ p pool',
    GetTempPacket pick pool = (p, pool') ∧ clean p ∧
    (PutTempPacket p pool' ≡ₚ pool ∨
     (p = newPacket ∧ PutTempPacket p pool' = newPacket :: pool)).
Proof.
  intros Hpool. unfold GetTempPacket, PutTempPacket, pool_Get, pool_Put.
  assert (∃ p pool', (newPacket, pool) = (p, pool') ∧ clean p ∧
            (clear p :: pool' ≡ₚ pool ∨
             p = newPacket ∧ clear p :: pool' = newPacket :: pool)) as Hnew.
  { exists newPacket, pool. split; [done|]. split; [apply clean_newPacket|].
    by right. }
  destruct pick as [i|]; [|done].
  destruct (pool !! i) as [p|] eqn:Hp; [|done].
  assert (clean p) as Hc by (by apply (Forall_lookup_1 clean pool i p)).
  exists p, (delete i pool). split; [done|]. split; [done|]. left.
  rewrite clear_clean by done. symmetry. by apply delete_Permutation.
Qed.

(** ** The two checksum loops *)

Local Open Scope Z_scope.

Lemma headerWords_tcpipWords (buf : list Z) :
  Forall is_byte buf → ∀ v, headerWords buf v = tcpipWords buf v.
Proof.
  induction buf as [| a | a b buf IH] using list_pair_ind; intros Hb v;
    [done..|].
  apply Forall_cons in Hb as [Ha Hb]. apply Forall_cons in Hb as [Hb' Hb].
  simpl. rewrite <- IH by done. f_equal.
  rewrite lor_word by done. rewrite shl32_byte by done.
  unfold add32, u32. by rewrite Z.add_mod_idemp_l, Z.add_assoc by lia.
Qed.

Lemma wordSum_app_even (a b : list Z) :
  Nat.Even (length a) →
  RFC1071.wordSum (a ++ b) = RFC1071.wordSum a + RFC1071.wordSum b.
Proof.
  induction a as [| x | x y a IH] using list_pair_ind; intros He.
  - simpl. lia.
  - destruct He as [k Hk]. simpl in Hk. lia.
  - change ((x :: y :: a) ++ b) with (x :: y :: (a ++ b)).
    rewrite !wordSum_cons2. rewrite IH; [lia|].
    destruct He as [k Hk]. simpl in Hk. exists (k - 1)%nat. lia.
Qed.

(** X20: the two checksum loops compute the same function:
    [checksumIPv4Header(buf)] is [tcpipChecksum(buf, 0)] on every buffer,
    and the checksum of a TCP or UDP segment, with the pseudo-header folded
    into the initial sum, is the header checksum of the twelve bytes of the
    pseudo-header followed by the segment. *)
Theorem checksum_loops_agree (buf : list Z) :
  Forall is_byte buf →
  checksumIPv4Header buf = tcpipChecksum buf 0 ∧
  ∀ protocol src dst,
    Z.of_nat (length buf) ≤ 65523 → 0 ≤ protocol ≤ 255 →
    length src = 4%nat → Forall is_byte src →
    length dst = 4%nat → Forall is_byte dst →
    checksumIPv4TCPUDP buf protocol src dst =
      Some (checksumIPv4Header
              (RFC1071.pseudoHeader src dst protocol (Z.of_nat (length buf))
               ++ buf)).
Proof.
  intros Hb. split.
  - rewrite checksumIPv4Header_eq, tcpipChecksum_eq.
    by rewrite headerWords_tcpipWords.
  - intros protocol src dst Hl Hp Hls Hs Hld Hd.
    destruct (checksumIPv4TCPUDP_sum buf protocol src dst) as [-> _];
      try done; try lia.
    set (n := Z.of_nat (length buf)) in *.
    assert (0 ≤ n `div` 256 < 256) as Hhi.
    { split; [apply Z.div_pos; lia|apply Z.div_lt_upper_bound; lia]. }
    assert (Forall is_byte (RFC1071.pseudoHeader src dst protocol n)) as Hph.
    { unfold RFC1071.pseudoHeader. repeat apply Forall_app_2; try done.
      repeat constructor; try lia.
      - rewrite Z.shiftr_div_pow2 by lia. change (2 ^ 8) with 256. lia.
      - rewrite Z.shiftr_div_pow2 by lia. change (2 ^ 8) with 256. lia.
      - apply Z.land_nonneg. lia.
      - change 255 with (Z.ones 8). rewrite Z.land_ones by lia.
        apply Z.mod_pos_bound. lia. }
    assert (length (RFC1071.pseudoHeader src dst protocol n) = 12%nat) as Hl12.
    { unfold RFC1071.pseudoHeader. rewrite !length_app, Hls, Hld. done. }
    rewrite checksumIPv4Header_refines.
    + unfold RFC1071.ipv4_header_checksum.
      rewrite wordSum_app_even; [done|]. rewrite Hl12. by exists 6%nat.
    + by apply Forall_app_2.
    + rewrite length_app, Hl12. lia.
Qed.

Local Close Scope Z_scope.

(** * The properties at concrete inputs *)

Lemma wf_packetb_true data : wf_packetb data = true → wf_packet data.
Proof.
  unfold wf_packetb. rewrite !andb_true_iff.
  intros [[[[Hlen Hbytes] HP] HS] HD].
  assert (∀ s, slice_wfb s = true → slice_wf s) as Hs.
  { intros [|o l c]; simpl; [done|]. rewrite andb_true_iff.
    intros [?%Nat.leb_le ?%Nat.eqb_eq]. done. }
  split; auto.
  - by apply Nat.eqb_eq.
  - apply Forall_forall. intros b Hb.
    rewrite forallb_forall in Hbytes. apply list_elem_of_In in Hb.
    specialize (Hbytes b Hb). apply andb_true_iff in Hbytes as [H0 H1].
    apply Z.leb_le in H0. apply Z.ltb_lt in H1. done.
Qed.

Lemma bytes_by_evaluation (l : list Z) :
  forallb (λ b, (0 <=? b)%Z && (b <? 256)%Z) l = true → Forall is_byte l.
Proof.
  intros H. apply Forall_forall. intros b Hb.
  rewrite forallb_forall in H. apply list_elem_of_In in Hb.
  specialize (H b Hb). apply andb_true_iff in H as [H0 H1].
  apply Z.leb_le in H0. apply Z.ltb_lt in H1. done.
Qed.

(** C1, counterexample: [Parse] accepts both packets as IPv4.  On the
    first, an IPv4 header that announces TCP and carries nothing,
    [WritePacket] panics at the reslice [Packet[36:]] and writes nothing.
    On the second, which announces a header length of 0, it completes, but
    the TCP checksum lands on [packet[16:18]], so the destination address
    is not [localIP].  And for a sender given in the 16-byte form of
    [net.IP], [copy] takes its first four bytes, which are zero. *)
Lemma WritePacket_counterexample :
  Parse (inBuffer tcpHeaderOnly) = Some (true, parsedIPv4 tcpHeaderOnly) ∧
  WritePacket sampleDevice (parsedIPv4 tcpHeaderOnly) sampleSender = None ∧
  Parse (inBuffer tcpNoHeaderLength) = Some (true, parsedIPv4 tcpNoHeaderLength) ∧
  (∃ out,
     WritePacket sampleDevice (parsedIPv4 tcpNoHeaderLength) sampleSender
       = Some out ∧
     take 4 (drop 16 (bytesOf (Buffer (wo_packet out)) (PacketS (wo_packet out))))
       ≠ localIP sampleDevice) ∧
  (∃ out,
     WritePacket sampleDevice (parsedIPv4 tcpSyn) sampleSender16 = Some out ∧
     take 4 (drop 12 (bytesOf (Buffer (wo_packet out)) (PacketS (wo_packet out))))
       = [0; 0; 0; 0]%Z).
Proof.
  assert (∀ data sender (f : WriteOutcome → list Z) (P : list Z → Prop),
            is_Some (WritePacket sampleDevice data sender) →
            P (default [] (f <$> WritePacket sampleDevice data sender)) →
            ∃ out, WritePacket sampleDevice data sender = Some out ∧ P (f out))
    as Hrun.
  { intros data sender f P [out Hout] HP. exists out. split; [done|].
    by rewrite Hout in HP. }
  split; [vm_compute; reflexivity|].
  split; [vm_compute; reflexivity|].
  split; [vm_compute; reflexivity|].
  split.
  - apply (Hrun _ _
             (λ out, take 4 (drop 16 (bytesOf (Buffer (wo_packet out))
                                        (PacketS (wo_packet out)))))
             (λ l, l ≠ localIP sampleDevice)).
    + vm_compute. eauto.
    + vm_compute. discriminate.
  - apply (Hrun _ _
             (λ out, take 4 (drop 12 (bytesOf (Buffer (wo_packet out))
                                        (PacketS (wo_packet out)))))
             (λ l, l = [0; 0; 0; 0]%Z)).
    + vm_compute. eauto.
    + vm_compute. reflexivity.
Qed.

(** C2, counterexample: on 128 KiB of 0xff between two addresses
    255.255.255.255 the 32-bit accumulator of [tcpipChecksum] wraps around
    and loses a carry: the code returns 0xffed, the checksum of the true
    sum is 0xffec.  The length, 0x20000, enters the true sum with its
    value; the code adds its two halves, 0 and 2, which folds to the same. *)
Lemma checksumIPv4TCPUDP_counterexample :
  checksumIPv4TCPUDP overflowPayload 17 broadcastIP broadcastIP = Some 0xffed%Z ∧
  RFC1071.ipv4_l4_checksum overflowPayload 17 broadcastIP broadcastIP = 0xffec%Z ∧
  checksumIPv4TCPUDP overflowPayload 17 broadcastIP broadcastIP ≠
    Some (RFC1071.ipv4_l4_checksum overflowPayload 17 broadcastIP broadcastIP).
Proof.
  assert (checksumIPv4TCPUDP overflowPayload 17 broadcastIP broadcastIP
          = Some 0xffed%Z) as Hcode by (vm_compute; reflexivity).
  assert (RFC1071.ipv4_l4_checksum overflowPayload 17 broadcastIP broadcastIP
          = 0xffec%Z) as Hspec.
  { unfold RFC1071.ipv4_l4_checksum.
    assert ((RFC1071.wordSum
               (RFC1071.pseudoHeader broadcastIP broadcastIP 17
                  (Z.of_nat (length overflowPayload)))
             + RFC1071.wordSum overflowPayload)%Z = 4295294989%Z) as ->
      by (vm_compute; reflexivity).
    rewrite foldHalves_eq. rewrite decide_True by lia.
    change (Z.shiftr 4295294989 16 + Z.land 4295294989 65535)%Z with 65554%Z.
    rewrite foldHalves_eq. rewrite decide_True by lia.
    change (Z.shiftr 65554 16 + Z.land 65554 65535)%Z with 19%Z.
    rewrite foldHalves_eq. rewrite decide_False by lia.
    reflexivity. }
  split; [done|]. split; [done|].
  rewrite Hcode, Hspec. discriminate.
Qed.

(** C3, counterexample: on twenty bytes of version 4 that announce a
    header length of 1 and UDP, [RecalculateChecksum] completes, and the two
    bytes at [ipv4offsetChecksum] are the UDP checksum, written last at
    offset [4 + 6], not the checksum of [packet[:4]]. *)
Lemma header_checksum_counterexample :
  Parse (inBuffer udpShortHeader) = Some (true, parsedIPv4 udpShortHeader) ∧
  ∃ d1,
    RecalculateChecksum (parsedIPv4 udpShortHeader) = Some d1 ∧
    sliceTo (PacketS d1) 4 = Some (Slice 4 4 (maxContentSize - 4)) ∧
    bytesOf (Buffer d1) (Slice (4 + ipv4offsetChecksum) 2
                           (maxContentSize - 4 - ipv4offsetChecksum)) ≠
      be16 (checksumIPv4Header
              (bytesOf (write2 (Buffer d1) (4 + ipv4offsetChecksum) 0 0)
                 (Slice 4 4 (maxContentSize - 4)))).
Proof.
  split; [vm_compute; reflexivity|].
  destruct (RecalculateChecksum (parsedIPv4 udpShortHeader)) as [d1|] eqn:Hd1;
    [|by vm_compute in Hd1].
  exists d1. split; [done|].
  assert (d1 = default newPacket (RecalculateChecksum (parsedIPv4 udpShortHeader)))
    as -> by (by rewrite Hd1).
  split; [vm_compute; reflexivity|].
  vm_compute. discriminate.
Qed.

Lemma countIf_replicate f n x :
  countIf f (replicate n x) = if f x then Z.of_nat n else 0%Z.
Proof.
  induction n as [|n IH]; simpl replicate; simpl countIf.
  - by destruct (f x).
  - rewrite IH. destruct (f x); lia.
Qed.

(** C7, counterexample: a [ClosedStream] notification in the initial state
    leaves [openedStreams] at -1; the opening of a stream of unknown
    direction leaves [openedStreams] at 1 with both totals at 0; and after
    2^63 - 1 inbound streams one more wraps [totalStreamsInbound] around to
    -2^63. *)
Lemma stream_counters_counterexample :
  (∃ p, reachable p ∧ (openedStreams p < 0)%Z) ∧
  (∃ p, reachable p ∧
        (totalStreamsInbound p + totalStreamsOutbound p < openedStreams p)%Z) ∧
  (∃ p q, reachable p ∧ step p q ∧
          (totalStreamsInbound q < totalStreamsInbound p)%Z).
Proof.
  split; [|split].
  - exists (notify zeroCounters ClosedStream). split.
    + econstructor; [constructor|]. by exists ClosedStream.
    + by vm_compute.
  - exists (notify zeroCounters (OpenedStream (Some DirUnknown))). split.
    + econstructor; [constructor|]. by eexists.
    + by vm_compute.
  - assert (∃ n, Z.of_nat n = (2 ^ 63 - 1)%Z) as [n Hn].
    { exists (Z.to_nat (2 ^ 63 - 1)). apply Z2Nat.id. lia. }
    set (ns := replicate n (OpenedStream (Some DirInbound))).
    assert (notifyAll zeroCounters ns =
            mkCounters (2 ^ 63 - 1) (2 ^ 63 - 1) 0) as Hp.
    { rewrite notifyAll_counts by (unfold ns; rewrite length_replicate; lia).
      unfold opened, closed, inbound, outbound, ns.
      rewrite !countIf_replicate. simpl. rewrite Hn. by rewrite Z.sub_0_r. }
    exists (notifyAll zeroCounters ns),
           (notify (notifyAll zeroCounters ns) (OpenedStream (Some DirInbound))).
    split; [apply reachable_notifyAll; by exists ns|].
    split; [by eexists|].
    rewrite Hp. by vm_compute.
Qed.

(** C9, counterexample: the reader checks a new packet out, reads the TCP
    SYN into it and sends it; its consumer checks it in; the next check-out
    hands the same buffer out again, clean but still holding the bytes of
    the SYN. *)
Lemma pool_reuse_counterexample :
  ∃ p q pool,
    rr_sent (tunPacketsReader [(None, mkTunRead tcpSyn 40 None)] [] None [] [])
      = [p] ∧
    poolRun [OpPut p; OpGet (Some 0)] [] [] = (pool, [q]) ∧
    clean q ∧
    Buffer q !! 4 = Some 0x45%Z ∧
    Buffer q ≠ replicate maxContentSize 0%Z.
Proof.
  exists (parsedIPv4 tcpSyn), (clear (parsedIPv4 tcpSyn)), [].
  split; [vm_compute; reflexivity|].
  split; [vm_compute; reflexivity|].
  split; [by repeat split|].
  split; [reflexivity|].
  intros H. apply (f_equal (λ l, l !! 4)) in H. vm_compute in H. discriminate.
Qed.

(** C1 at scenario 2 of the specification: the TCP SYN, written for the
    sender 192.168.1.5 to the device at 10.66.0.1. *)
Lemma WritePacket_rewrites_witness :
  ∃ out,
    WritePacket sampleDevice (parsedIPv4 tcpSyn) sampleSender = Some out ∧
    take 4 (drop 12 (bytesOf (Buffer (wo_packet out)) (PacketS (wo_packet out))))
      = sampleSender ∧
    take 4 (drop 16 (bytesOf (Buffer (wo_packet out)) (PacketS (wo_packet out))))
      = localIP sampleDevice ∧
    wo_written out =
      [(take (tunPacketOffset + 40) (Buffer (wo_packet out)), tunPacketOffset)].
Proof.
  destruct (WritePacket_rewrites sampleDevice (parsedIPv4 tcpSyn) sampleSender
              0x45 6) as (out & Hout & _ & Hsrc & Hdst & _ & _ & _ & Hw).
  - apply wf_packetb_true. vm_compute. reflexivity.
  - vm_compute. reflexivity.
  - reflexivity.
  - reflexivity.
  - reflexivity.
  - reflexivity.
  - reflexivity.
  - reflexivity.
  - vm_compute. lia.
  - intros _. vm_compute. lia.
  - intros H. discriminate H.
  - exists out. auto.
Defined.

(** C2 at the ten bytes of scenario 1 and its addresses. *)
Lemma checksumIPv4TCPUDP_refines_witness :
  checksumIPv4TCPUDP (drop 20 udpDatagram) 17 [10; 0; 0; 1]%Z [10; 0; 0; 2]%Z =
    Some (RFC1071.ipv4_l4_checksum (drop 20 udpDatagram) 17
            [10; 0; 0; 1]%Z [10; 0; 0; 2]%Z).
Proof.
  apply checksumIPv4TCPUDP_refines.
  - apply bytes_by_evaluation. reflexivity.
  - vm_compute. discriminate.
  - lia.
  - reflexivity.
  - apply bytes_by_evaluation. reflexivity.
  - reflexivity.
  - apply bytes_by_evaluation. reflexivity.
Defined.

(** C3 at scenario 1 of the specification. *)
Lemma header_checksum_regenerated_witness :
  bytesOf (Buffer udpRegenerated)
    (Slice (4 + ipv4offsetChecksum) 2 (maxContentSize - 4 - ipv4offsetChecksum)) =
    be16 (checksumIPv4Header
            (bytesOf (write2 (Buffer udpRegenerated) (4 + ipv4offsetChecksum) 0 0)
               (Slice 4 20 (maxContentSize - 4)))) ∧
  checksumIPv4Header (take 20 udpDatagram) =
    RFC1071.ipv4_header_checksum (take 20 udpDatagram).
Proof.
  destruct (header_checksum_regenerated (take 20 udpDatagram)
              (parsedIPv4 udpDatagram) udpRegenerated
              4 30 (maxContentSize - 4) 0x45 17) as [Hrefines Hfield].
  split.
  - apply Hfield.
    + apply wf_packetb_true. vm_compute. reflexivity.
    + reflexivity.
    + reflexivity.
    + reflexivity.
    + reflexivity.
    + vm_compute. intros [H _]. discriminate H.
    + vm_compute. reflexivity.
  - apply Hrefines.
    + apply bytes_by_evaluation. reflexivity.
    + vm_compute. discriminate.
Defined.

(** C4 at the TCP SYN. *)
Lemma Parse_spec_witness :
  ∃ src dst,
    Parse (inBuffer tcpSyn) =
      Some (true, mkPacket (Buffer (inBuffer tcpSyn)) (PacketS (inBuffer tcpSyn))
                    src dst false) ∧
    bytesOf (Buffer (inBuffer tcpSyn)) src = [10; 0; 0; 1]%Z ∧
    bytesOf (Buffer (inBuffer tcpSyn)) dst = [10; 0; 0; 2]%Z.
Proof.
  destruct (Parse_spec (inBuffer tcpSyn) 0x45) as (H4 & _).
  - reflexivity.
  - vm_compute. lia.
  - destruct H4 as (src & dst & HP & -> & -> & Hs & Hd).
    + reflexivity.
    + vm_compute. lia.
    + exists (Slice (off (PacketS (inBuffer tcpSyn)) + 12) 4
                (cap (PacketS (inBuffer tcpSyn)) - 12)),
             (Slice (off (PacketS (inBuffer tcpSyn)) + 16) 4
                (cap (PacketS (inBuffer tcpSyn)) - 16)).
      split; [exact HP|]. split; reflexivity.
Defined.

(** C5 at one read of the TCP SYN, from an empty pool. *)
Lemma tunPacketsReader_emits_witness :
  Forall (λ p, ∃ pick rd,
            (pick, rd) ∈ [(@None nat, mkTunRead tcpSyn 40 None)] ∧ emitted_by rd p)
    (rr_sent (tunPacketsReader [(None, mkTunRead tcpSyn 40 None)] [] None [] [])).
Proof.
  destruct (tunPacketsReader_emits [(None, mkTunRead tcpSyn 40 None)] [])
    as [H _].
  - constructor.
  - exact H.
Defined.

(** C6 at the TCP SYN. *)
Lemma RecalculateChecksum_idempotent_witness :
  ∃ d1,
    RecalculateChecksum (parsedIPv4 tcpSyn) = Some d1 ∧
    RecalculateChecksum d1 = Some d1.
Proof.
  destruct (RecalculateChecksum_idempotent (parsedIPv4 tcpSyn)) as [_ H].
  - vm_compute. lia.
  - apply (H 0x45 6)%Z.
    + apply wf_packetb_true. vm_compute. reflexivity.
    + vm_compute. reflexivity.
    + reflexivity.
    + reflexivity.
    + reflexivity.
    + vm_compute. lia.
    + intros _. vm_compute. lia.
    + intros H'. discriminate H'.
Defined.

(** C7 at an inbound stream that is opened and then closed. *)
Lemma stream_counters_invariant_witness :
  let p := notifyAll zeroCounters [OpenedStream (Some DirInbound)] in
  let q := notify p ClosedStream in
  (0 ≤ openedStreams p)%Z ∧ (0 ≤ openedStreams q)%Z ∧
  (totalStreamsInbound p ≤ totalStreamsInbound q)%Z ∧
  (totalStreamsInbound q + totalStreamsOutbound q >= openedStreams q)%Z.
Proof.
  destruct (stream_counters_invariant [OpenedStream (Some DirInbound)]
              ClosedStream) as (_ & _ & Hin & _ & _ & _ & Hpaired & Hdirected).
  - vm_compute. reflexivity.
  - destruct Hpaired as [Hp Hq].
    + intros [|[|[|k]]]; vm_compute; discriminate.
    + destruct Hdirected as [_ Hd].
      * repeat constructor; discriminate.
      * repeat split; assumption.
Defined.

(** C8 at scenario 5 of the specification: under every schedule
    [Bootstrap] returns [nil], having warned about the peer that cannot be
    reached and reported the peer that answers. *)
Lemma Bootstrap_returns_dht_error_witness :
  Bootstrap scenario5 [Main; Main; Main; Worker 1; Worker 0; Main] = Some None ∧
  ∀ sched r, Bootstrap scenario5 sched = Some r →
    r = None ∧
    ∃ s, execAll scenario5 sched (initState scenario5) = Some s ∧
         WarnConnect (ErrOther "dial backoff") ∈ st_events s ∧
         InfoConnected 2 ∈ st_events s.
Proof.
  destruct (Bootstrap_returns_dht_error scenario5) as (_ & H & _).
  split; [reflexivity|].
  intros sched r Hr.
  destruct (H sched r Hr)
    as (-> & _ & s & pre & Hs & _ & _ & _ & _ & _ & _ & _ & _ & _ & Hw & Hc).
  split; [reflexivity|]. exists s. split; [exact Hs|]. split.
  - apply Hw. split; [discriminate|]. exists 1. split; [|reflexivity].
    simpl. rewrite !elem_of_cons. tauto.
  - apply Hc. split; [|reflexivity].
    simpl. rewrite !elem_of_cons. tauto.
Defined.

(** C9 at a check-in followed by two check-outs: both packets handed out
    are clean, and the first check-out reuses the packet checked in, with
    the bytes of the SYN in its buffer. *)
Lemma pool_packets_clean_witness :
  Forall clean
    (poolRun [OpPut (parsedIPv4 tcpSyn); OpGet (Some 0); OpGet (Some 0)] [] []).2 ∧
  ∃ p pool',
    GetTempPacket (Some 0) (poolRun [OpPut (parsedIPv4 tcpSyn)] [] []).1
      = (p, pool') ∧
    p ∈ (poolRun [OpPut (parsedIPv4 tcpSyn); OpGet (Some 0); OpGet (Some 0)]
           [] []).2 ∧
    Buffer p = Buffer (parsedIPv4 tcpSyn).
Proof.
  destruct (pool_packets_clean
              [OpPut (parsedIPv4 tcpSyn); OpGet (Some 0); OpGet (Some 0)])
    as (_ & H & _ & Hget & _).
  split; [exact H|].
  destruct (Hget [OpPut (parsedIPv4 tcpSyn)] (Some 0) [OpGet (Some 0)] eq_refl)
    as (p & pool' & Hp & Hin & _).
  exists p, pool'. split; [exact Hp|]. split; [exact Hin|].
  injection Hp as <- _. reflexivity.
Defined.

(** C10 at a new packet, whose packet view is nil. *)
Lemma Parse_needs_nonempty_witness : Parse newPacket = None.
Proof.
  destruct (Parse_needs_nonempty newPacket) as [H _].
  apply H. reflexivity.
Defined.

(** X1 at scenario 1 of the specification. *)
Lemma header_checksum_verifies_witness :
  ∃ header,
    sliceTo (PacketS udpRegenerated) 20 = Some header ∧
    checksumIPv4Header (bytesOf (Buffer udpRegenerated) header) = 0%Z.
Proof.
  apply (header_checksum_verifies (parsedIPv4 udpDatagram) udpRegenerated
           4 30 (maxContentSize - 4) 0x45).
  - apply wf_packetb_true. vm_compute. reflexivity.
  - reflexivity.
  - reflexivity.
  - reflexivity.
  - vm_compute. lia.
  - vm_compute. reflexivity.
Defined.

(** X2 at scenario 1 of the specification. *)
Lemma transport_checksum_verifies_witness :
  ∃ l4,
    sliceFrom (PacketS udpRegenerated) 20 = Some l4 ∧
    checksumIPv4TCPUDP (bytesOf (Buffer udpRegenerated) l4) 17
      (bytesOf (Buffer udpRegenerated) (Src udpRegenerated))
      (bytesOf (Buffer udpRegenerated) (Dst udpRegenerated)) = Some 0%Z.
Proof.
  apply (transport_checksum_verifies (parsedIPv4 udpDatagram) udpRegenerated
           0x45 17).
  - apply wf_packetb_true. vm_compute. reflexivity.
  - vm_compute. reflexivity.
  - reflexivity.
  - reflexivity.
  - reflexivity.
  - right. reflexivity.
  - vm_compute. lia.
  - vm_compute. reflexivity.
Defined.

(** X3 at scenario 1: the UDP payload is as it was. *)
Lemma RecalculateChecksum_frame_witness :
  PacketS udpRegenerated = PacketS (parsedIPv4 udpDatagram) ∧
  ∀ i, Buffer udpRegenerated !! i ≠ Buffer (parsedIPv4 udpDatagram) !! i →
    i = 14 ∨ i = 15 ∨ i = 30 ∨ i = 31.
Proof.
  destruct (RecalculateChecksum_frame (parsedIPv4 udpDatagram) udpRegenerated
              4 30 (maxContentSize - 4) 0x45 17)
    as (HP & _ & _ & _ & _ & Hi).
  - reflexivity.
  - reflexivity.
  - vm_compute. lia.
  - reflexivity.
  - reflexivity.
  - vm_compute. reflexivity.
  - split; [exact HP|]. intros i Hne.
    destruct (Hi i Hne) as [->|[->|[[H _]|[_ [->| ->]]]]]; auto.
    discriminate H.
Defined.

(** X4 at the header of scenario 1 with its time to live lowered by one. *)
Lemma checksum_detects_changed_byte_witness :
  checksumIPv4Header udpHeader = 0%Z ∧
  checksumIPv4Header (<[8 := 0x3f%Z]> udpHeader) ≠ 0%Z.
Proof.
  split; [vm_compute; reflexivity|].
  apply (checksum_detects_changed_byte udpHeader 8 0x40 0x3f).
  - apply bytes_by_evaluation. reflexivity.
  - vm_compute. discriminate.
  - reflexivity.
  - unfold is_byte. lia.
  - discriminate.
  - vm_compute. reflexivity.
Defined.

(** X5 at the TCP SYN received in two reads into a new packet. *)
Lemma ReadFrom_until_eof_witness :
  ∃ d',
    ReadFrom newPacket synStream = Some (d', 40%Z, None) ∧
    bytesOf (Buffer d') (PacketS d') = tcpSyn.
Proof.
  destruct (ReadFrom_until_eof newPacket synStream)
    as (d' & HR & _ & Hb & _).
  - simpl. apply length_replicate.
  - vm_compute. lia.
  - reflexivity.
  - exists d'. split; [exact HR|exact Hb].
Defined.

(** X6 at a stream that breaks after twenty bytes. *)
Lemma ReadFrom_error_witness :
  ∃ d',
    ReadFrom newPacket brokenStream =
      Some (d', 20%Z, Some (ErrOther "reset")) ∧
    PacketS d' = Nil.
Proof.
  destruct (ReadFrom_error newPacket brokenStream) as [HR _].
  - simpl. apply length_replicate.
  - vm_compute. lia.
  - discriminate.
  - eexists. split; [exact HR|reflexivity].
Defined.

(** X7 at the TCP SYN received in two reads. *)
Lemma ReadFrom_then_Parse_witness :
  ∃ d1 d2,
    ReadFrom newPacket synStream = Some (d1, 40%Z, None) ∧
    Parse d1 = Some (true, d2) ∧
    bytesOf (Buffer d2) (Src d2) = [10; 0; 0; 1]%Z ∧
    bytesOf (Buffer d2) (Dst d2) = [10; 0; 0; 2]%Z.
Proof.
  destruct (ReadFrom_then_Parse newPacket synStream 0x45)
    as (d1 & d2 & HR & HP & _ & _ & _ & _ & _ & Hs & Hd).
  - apply wf_packetb_true. vm_compute. reflexivity.
  - apply bytes_by_evaluation. reflexivity.
  - vm_compute. lia.
  - reflexivity.
  - reflexivity.
  - reflexivity.
  - vm_compute. lia.
  - exists d1, d2. split; [exact HR|]. split; [exact HP|].
    split; [exact Hs|exact Hd].
Defined.

(** X8 at scenario 2 of the specification. *)
Lemma WritePacket_delivers_witness :
  ∃ out packet,
    WritePacket sampleDevice (parsedIPv4 tcpSyn) sampleSender = Some out ∧
    wo_written out = [([0; 0; 0; 0]%Z ++ packet, tunPacketOffset)] ∧
    checksumIPv4Header (take 20 packet) = 0%Z ∧
    checksumIPv4TCPUDP (drop 20 packet) 6 sampleSender (localIP sampleDevice)
      = Some 0%Z.
Proof.
  destruct (WritePacket_delivers sampleDevice (parsedIPv4 tcpSyn) sampleSender
              0x45 6) as (out & packet & Hout & Hw & _ & Hh & Ht & _).
  - apply wf_packetb_true. vm_compute. reflexivity.
  - vm_compute. reflexivity.
  - reflexivity.
  - reflexivity.
  - reflexivity.
  - reflexivity.
  - reflexivity.
  - apply bytes_by_evaluation. reflexivity.
  - reflexivity.
  - apply bytes_by_evaluation. reflexivity.
  - vm_compute. lia.
  - intros _. vm_compute. lia.
  - intros H. discriminate H.
  - exists out, packet. split; [exact Hout|]. split; [exact Hw|].
    split; [exact Hh|]. apply Ht. left. reflexivity.
Defined.


(** X10 at one read of the TCP SYN, from an empty pool. *)
Lemma tunPacketsReader_in_order_witness :
  ∃ rds,
    sublist rds [mkTunRead tcpSyn 40 None] ∧
    Forall2 carries rds
      (rr_sent
         (tunPacketsReader [(None, mkTunRead tcpSyn 40 None)] [] None [] [])).
Proof.
  apply (tunPacketsReader_in_order [(None, mkTunRead tcpSyn 40 None)] []).
  constructor.
Defined.

(** X11 at a read of the TCP SYN followed by the end of the device. *)
Lemma tunPacketsReader_ends_at_error_witness :
  rr_status
    (tunPacketsReader
       [(None, mkTunRead tcpSyn 40 None); (None, mkTunRead [] 0 (Some io_EOF));
        (None, mkTunRead tcpSyn 40 None)] [] None [] []) = Returned.
Proof.
  destruct (tunPacketsReader_ends_at_error
              [(None, mkTunRead tcpSyn 40 None)]
              [(None, mkTunRead tcpSyn 40 None)]
              None (mkTunRead [] 0 (Some io_EOF)) io_EOF []) as [H _].
  - reflexivity.
  - destruct (H None) as [Hs _].
    + vm_compute. reflexivity.
    + exact Hs.
Defined.

(** X12 at one read of the TCP SYN, from an empty pool. *)
Lemma tunPacketsReader_panics_witness :
  rr_status (tunPacketsReader [(None, mkTunRead tcpSyn 40 None)] [] None [] [])
    ≠ Panicked ∧
  readerIter newPacket (mkTunRead tcpSyn 6998 None) = (IterPanic, []).
Proof.
  destruct (tunPacketsReader_panics [(None, mkTunRead tcpSyn 40 None)] [])
    as [Hfits Hpanic].
  - constructor.
  - split.
    + apply Hfits. constructor; [|constructor]. intros _.
      split; vm_compute; discriminate.
    + apply Hpanic; [reflexivity|]. left.
      split; vm_compute; [reflexivity|discriminate].
Defined.

(** X13 at a pool of two packets, a dropped read and a read that is sent:
    one packet is left in the pool. *)
Lemma tunPacketsReader_pool_witness :
  let run :=
    tunPacketsReader
      [(Some 0, mkTunRead [0x45%Z] 1 None); (Some 0, mkTunRead tcpSyn 40 None)]
      [newPacket; newPacket] None [] [] in
  rr_pool run = [newPacket] ∧
  2 ≤ length (rr_pool run) + length (rr_sent run) + 1.
Proof.
  intros run. split; [vm_compute; reflexivity|].
  apply (tunPacketsReader_pool
           [(Some 0, mkTunRead [0x45%Z] 1 None);
            (Some 0, mkTunRead tcpSyn 40 None)]
           [newPacket; newPacket]).
Defined.

(** X14 at a read of one byte followed by a read of the TCP SYN. *)
Lemma tunPacketsReader_forwards_witness :
  Forall2 carries [mkTunRead tcpSyn 40 None]
    (rr_sent
       (tunPacketsReader
          [(None, mkTunRead [0x45%Z] 1 None); (None, mkTunRead tcpSyn 40 None)]
          [] None [] [])).
Proof.
  destruct (tunPacketsReader_forwards
              [(None, mkTunRead [0x45%Z] 1 None);
               (None, mkTunRead tcpSyn 40 None)] [])
    as (Hsent & _).
  - constructor.
  - constructor; [|constructor; [|constructor]];
      (split; [reflexivity|split; [reflexivity|vm_compute; discriminate]]).
  - exact Hsent.
Defined.

(** X15 with the bits of [wireguard/tun] (down 2, MTU update 4): an MTU of
    9000 is stored as [maxContentSize]. *)
Lemma tunEventsReader_mtu_witness :
  (tunEventsReader 2 4 [mkTunEvent 4 (9000%Z, None)] 3500 []).1
    = Z.of_nat maxContentSize.
Proof.
  destruct (tunEventsReader_mtu 2 4 [mkTunEvent 4 (9000%Z, None)] 3500)
    as (_ & _ & H).
  destruct (H [] (mkTunEvent 4 (9000%Z, None)) []) as [Hm _].
  - reflexivity.
  - reflexivity.
  - constructor.
  - rewrite Hm. simpl. rewrite maxContentSize_eq. reflexivity.
Defined.

(** X16 with the same bits: an event that asks both for the MTU and for
    the interface to go down, and whose MTU query fails, logs no down
    request; and a device created with an MTU of 9000 whose query answers
    9000 logs an update. *)
Lemma tunEventsReader_logs_witness :
  count isDownLine
    (tunEventsReader 2 4 [mkTunEvent 6 (0%Z, Some (ErrOther "gone"))] 3500 []).2
    = 0 ∧
  count isUpdateLine
    (tunEventsReader 2 4 [mkTunEvent 4 (9000%Z, None)] 9000 []).2 = 1.
Proof.
  split.
  - destruct (tunEventsReader_logs 2 4
                [mkTunEvent 6 (0%Z, Some (ErrOther "gone"))] 3500) as (H & _).
    rewrite H. reflexivity.
  - destruct (tunEventsReader_logs 2 4 [] 9000) as (_ & _ & H & _).
    etrans; [exact (H (mkTunEvent 4 (9000%Z, None)))|].
    vm_compute. reflexivity.
Defined.

(** X17 at three connections. *)
Lemma OpenStreamStats_counts_witness :
  (OpenStreamStats sampleConns !! "/awl/0.1.0/tunnel") ≫= (.!! "inbound")
    = Some 2%Z ∧
  (OpenStreamStats sampleConns !! "/awl/0.1.0/status") ≫= (.!! "inbound")
    = None.
Proof.
  split.
  - destruct (OpenStreamStats_counts sampleConns "/awl/0.1.0/tunnel" "inbound")
      as [H _]; [vm_compute; reflexivity|exact H].
  - destruct (OpenStreamStats_counts sampleConns "/awl/0.1.0/status" "inbound")
      as [H _]; [vm_compute; reflexivity|exact H].
Defined.

(** X18 at two streams opened and one closed. *)
Lemma stream_counters_count_witness :
  OpenStreamsCount
    (notifyAll zeroCounters
       [OpenedStream (Some DirInbound); OpenedStream (Some DirOutbound);
        ClosedStream]) = 1%Z.
Proof.
  destruct (stream_counters_count
              [OpenedStream (Some DirInbound); OpenedStream (Some DirOutbound);
               ClosedStream]) as [H _].
  - vm_compute. reflexivity.
  - exact H.
Defined.

(** X19 at a pool of one packet that has been used and checked in. *)
Lemma pool_round_trip_witness :
  ∃ p pool',
    GetTempPacket (Some 0) (PutTempPacket (parsedIPv4 tcpSyn) [])
      = (p, pool') ∧
    clean p.
Proof.
  destruct (pool_round_trip (Some 0) (PutTempPacket (parsedIPv4 tcpSyn) []))
    as (p & pool' & HG & Hc & _).
  - repeat constructor.
  - exists p, pool'. split; [exact HG|exact Hc].
Defined.

(** X20 at the header of scenario 1. *)
Lemma checksum_loops_agree_witness :
  checksumIPv4Header udpHeader = tcpipChecksum udpHeader 0.
Proof.
  destruct (checksum_loops_agree udpHeader) as [H _].
  - apply bytes_by_evaluation. reflexivity.
  - exact H.
Defined.
